(** * sqlitevis: the B-tree visualizer and its event intake

    A shallow embedding of [src/web/js/visualizer.js] (class
    [BTreeVisualizer]), [src/web/js/events.js] (class [EventManager]) and
    of the listeners that [SQLiteVisApp.connectEvents] registers, followed
    by the properties of the state store, the layout, the highlight timers
    and the event intake.

    Conventions of the embedding.
    - The [Map] [nodes] is a [gmap Z Node]; a node object is identified with
      the key it is stored under (every node object is created by [addPage]
      and stored under exactly one key).  The iteration order of the [Map]
      is not modelled.
    - Arrays are lists; [Array.prototype.splice] is written out with its
      clamping of the start index and of the delete count.
    - Page numbers, cell indices, key lengths and page types are integers
      ([Z]); coordinates and times are rationals ([Q]), which is exact for
      the halves that [layout] produces.
    - The [while] loop of [buildLevels] carries a fuel argument; running out
      of fuel stands for a loop that has not finished yet.
    - Canvas painting has no effect on the state; [drawConnections] is
      modelled by the list of line segments it strokes. *)

From stdpp Require Import gmap strings list fin_maps pretty sorting.
From Stdlib Require Import Ascii QArith Qminmax Lqa.

Set Warnings "-register-all".

Local Open Scope Z_scope.

(** ** JavaScript arrays *)

(** [actualStart len start]: the start index of [splice] after clamping
    (a negative [start] counts from the end of the array). *)
Definition actualStart (len : nat) (start : Z) : nat :=
  if start <? 0 then Z.to_nat (Z.max (Z.of_nat len + start) 0)
  else Z.to_nat (Z.min start (Z.of_nat len)).

(** [actualDeleteCount len k deleteCount]: [None] is an omitted argument
    (everything from the start index on is removed). *)
Definition actualDeleteCount (len k : nat) (deleteCount : option Z) : nat :=
  match deleteCount with
  | None => (len - k)%nat
  | Some dc => Z.to_nat (Z.min (Z.max dc 0) (Z.of_nat (len - k)))
  end.

(** [splice l start deleteCount items] returns the array after the call and
    the array of removed elements. *)
Definition splice {A} (l : list A) (start : Z) (deleteCount : option Z)
    (items : list A) : list A * list A :=
  let k := actualStart (length l) start in
  let d := actualDeleteCount (length l) k deleteCount in
  (take k l ++ items ++ drop (k + d) l, take d (drop k l)).

(** ** JSON values, as [JSON.parse] returns them *)

Module JSON.

(** Number literals without fraction and exponent are kept as integers;
    the other literals are kept as their text. *)
Inductive number :=
| Int (z : Z)
| Real (literal : string).

Inductive value :=
| Null
| Bool (b : bool)
| Num (n : number)
| Str (s : string)
| Arr (elements : list value)
| Obj (members : list (string * value)).

Definition is_ws (c : ascii) : bool :=
  bool_decide (c = " "%char) || bool_decide (c = "009"%char)
  || bool_decide (c = "010"%char) || bool_decide (c = "013"%char).

Fixpoint skip_ws (s : list ascii) : list ascii :=
  match s with
  | c :: s' => if is_ws c then skip_ws s' else s
  | [] => []
  end.

Definition code (c : ascii) : Z := Z.of_N (N_of_ascii c).

Definition is_digit (c : ascii) : bool := (48 <=? code c) && (code c <=? 57).

Definition hex_val (c : ascii) : option Z :=
  let n := code c in
  if (48 <=? n) && (n <=? 57) then Some (n - 48)
  else if (65 <=? n) && (n <=? 70) then Some (n - 55)
  else if (97 <=? n) && (n <=? 102) then Some (n - 87)
  else None.

(** The longest prefix of digits, and the rest. *)
Fixpoint take_digits (s : list ascii) : list ascii * list ascii :=
  match s with
  | c :: s' =>
      if is_digit c then let '(ds, r) := take_digits s' in (c :: ds, r)
      else ([], s)
  | [] => ([], [])
  end.

Definition digits_val (ds : list ascii) : Z :=
  fold_left (λ acc c, 10 * acc + (code c - 48)) ds 0.

(** The optional fraction of a number: the consumed text and the rest;
    [None] when a dot is not followed by a digit. *)
Definition parse_frac (s : list ascii) : option (list ascii * list ascii) :=
  match s with
  | "."%char :: s' =>
      match take_digits s' with
      | ([], _) => None
      | (ds, r) => Some ("."%char :: ds, r)
      end
  | _ => Some ([], s)
  end.

Definition parse_exp_digits (pre s : list ascii)
    : option (list ascii * list ascii) :=
  match take_digits s with
  | ([], _) => None
  | (ds, r) => Some (pre ++ ds, r)
  end.

Definition parse_exp (s : list ascii) : option (list ascii * list ascii) :=
  match s with
  | e :: s' =>
      if bool_decide (e = "e"%char) || bool_decide (e = "E"%char) then
        match s' with
        | sg :: s'' =>
            if bool_decide (sg = "+"%char) || bool_decide (sg = "-"%char)
            then parse_exp_digits [e; sg] s''
            else parse_exp_digits [e] s'
        | [] => None
        end
      else Some ([], s)
  | [] => Some ([], s)
  end.

Definition parse_number (s : list ascii) : option (number * list ascii) :=
  let '(neg, s1) :=
    match s with
    | "-"%char :: s' => (true, s')
    | _ => (false, s)
    end in
  let '(ds, s2) := take_digits s1 in
  match ds with
  | [] => None
  | "0"%char :: _ :: _ => None
  | _ =>
      fr ← parse_frac s2;
      ex ← parse_exp fr.2;
      match fr.1, ex.1 with
      | [], [] =>
          Some (Int (if neg : bool then - digits_val ds else digits_val ds), ex.2)
      | _, _ =>
          Some (Real (String.string_of_list_ascii
                        ((if neg : bool then ["-"%char] else []) ++ ds
                           ++ fr.1 ++ ex.1)), ex.2)
      end
  end.

Definition byte (n : Z) : ascii := ascii_of_N (Z.to_N n).

(** The UTF-8 bytes of one UTF-16 code unit (a [\u] escape). *)
Definition utf8 (cp : Z) : list ascii :=
  if cp <? 128 then [byte cp]
  else if cp <? 2048 then
    [byte (Z.lor 192 (Z.shiftr cp 6)); byte (Z.lor 128 (Z.land cp 63))]
  else
    [byte (Z.lor 224 (Z.shiftr cp 12));
     byte (Z.lor 128 (Z.land (Z.shiftr cp 6) 63));
     byte (Z.lor 128 (Z.land cp 63))].

Definition simple_escape (c : ascii) : option ascii :=
  if bool_decide (c = "034"%char) then Some c
  else if bool_decide (c = "\"%char) then Some c
  else if bool_decide (c = "/"%char) then Some c
  else if bool_decide (c = "b"%char) then Some "008"%char
  else if bool_decide (c = "f"%char) then Some "012"%char
  else if bool_decide (c = "n"%char) then Some "010"%char
  else if bool_decide (c = "r"%char) then Some "013"%char
  else if bool_decide (c = "t"%char) then Some "009"%char
  else None.

(** The characters of a string literal after its opening quote. *)
Fixpoint parse_string_body (s acc : list ascii) : option (string * list ascii) :=
  match s with
  | [] => None
  | c :: s' =>
      if bool_decide (c = "034"%char) then
        Some (String.string_of_list_ascii (rev acc), s')
      else if bool_decide (c = "\"%char) then
        match s' with
        | "u"%char :: h1 :: h2 :: h3 :: h4 :: s'' =>
            match hex_val h1, hex_val h2, hex_val h3, hex_val h4 with
            | Some a, Some b, Some c', Some d =>
                parse_string_body s''
                  (rev (utf8 (((a * 16 + b) * 16 + c') * 16 + d)) ++ acc)
            | _, _, _, _ => None
            end
        | e :: s'' =>
            match simple_escape e with
            | Some c' => parse_string_body s'' (c' :: acc)
            | None => None
            end
        | [] => None
        end
      else if code c <? 32 then None
      else parse_string_body s' (c :: acc)
  end.

(** Recursive descent; one unit of fuel per nested call. *)
Fixpoint parse_value (fuel : nat) (s : list ascii) : option (value * list ascii) :=
  match fuel with
  | O => None
  | S f =>
      match skip_ws s with
      | "{"%char :: r =>
          match skip_ws r with
          | "}"%char :: r' => Some (Obj [], r')
          | _ => parse_members f r []
          end
      | "["%char :: r =>
          match skip_ws r with
          | "]"%char :: r' => Some (Arr [], r')
          | _ => parse_elements f r []
          end
      | "034"%char :: r =>
          match parse_string_body r [] with
          | Some (str, r') => Some (Str str, r')
          | None => None
          end
      | "t"%char :: "r"%char :: "u"%char :: "e"%char :: r => Some (Bool true, r)
      | "f"%char :: "a"%char :: "l"%char :: "s"%char :: "e"%char :: r =>
          Some (Bool false, r)
      | "n"%char :: "u"%char :: "l"%char :: "l"%char :: r => Some (Null, r)
      | r =>
          match parse_number r with
          | Some (n, r') => Some (Num n, r')
          | None => None
          end
      end
  end
with parse_elements (fuel : nat) (s : list ascii) (acc : list value)
    : option (value * list ascii) :=
  match fuel with
  | O => None
  | S f =>
      match parse_value f s with
      | Some (v, r) =>
          match skip_ws r with
          | ","%char :: r' => parse_elements f r' (v :: acc)
          | "]"%char :: r' => Some (Arr (rev (v :: acc)), r')
          | _ => None
          end
      | None => None
      end
  end
with parse_members (fuel : nat) (s : list ascii) (acc : list (string * value))
    : option (value * list ascii) :=
  match fuel with
  | O => None
  | S f =>
      match skip_ws s with
      | "034"%char :: r =>
          match parse_string_body r [] with
          | Some (k, r1) =>
              match skip_ws r1 with
              | ":"%char :: r2 =>
                  match parse_value f r2 with
                  | Some (v, r3) =>
                      match skip_ws r3 with
                      | ","%char :: r4 => parse_members f r4 ((k, v) :: acc)
                      | "}"%char :: r4 => Some (Obj (rev ((k, v) :: acc)), r4)
                      | _ => None
                      end
                  | None => None
                  end
              | _ => None
              end
          | None => None
          end
      | _ => None
      end
  end.

(** [JSON.parse text]: [None] stands for the [SyntaxError] it throws.
    Two units of fuel per character are enough for every text. *)
Definition parse (text : string) : option value :=
  let s := String.list_ascii_of_string text in
  match parse_value (2 * length s + 2) s with
  | Some (v, r) =>
      match skip_ws r with
      | [] => Some v
      | _ => None
      end
  | None => None
  end.

(** The own property [name] of a parsed object; of duplicate keys the last
    one wins. *)
Fixpoint member (name : string) (ms : list (string * value)) : option value :=
  match ms with
  | [] => None
  | (k, v) :: ms' =>
      match member name ms' with
      | Some v' => Some v'
      | None => if decide (k = name) then Some v else None
      end
  end.

End JSON.

(** A JavaScript value that comes out of a property access on parsed JSON:
    [None] is [undefined]. *)
Abbreviation jsval := (option JSON.value).

(** ** The data model of [BTreeVisualizer] *)

Record Cell := {
  idx : Z;
  keyLen : Z;
  key : string
}.

Record Node := {
  page : Z;
  type : Z;              (* 0: interior, 1: leaf *)
  cells : list Cell;
  parent : option Z;
  children : list Z;
  x : Q;
  y : Q;
  expanded : bool
}.

(** A pending [setTimeout] callback of the [animate*] methods: at [due] it
    deletes [targets] from [highlightedNodes]. *)
Record Timer := {
  due : Q;
  targets : list Z
}.

Record BTreeVisualizer := {
  nodes : gmap Z Node;
  rootPage : Z;
  pageSize : jsval;
  showTransitions : bool;
  animationSpeed : Q;
  highlightedNodes : gset Z;
  (* the host: the canvas width, the clock and the timer queue *)
  clientWidth : Z;
  clock : Q;
  timers : list Timer
}.

Definition nodeWidth : Z := 120.
Definition nodeHeight : Z := 60.
Definition levelHeight : Z := 120.
Definition horizontalSpacing : Z := 40.
(** The initial [currentY] of [layout]. *)
Definition topMargin : Z := 50.

Definition set_cells (cs : list Cell) (n : Node) : Node :=
  {| page := page n; type := type n; cells := cs; parent := parent n;
     children := children n; x := x n; y := y n; expanded := expanded n |}.

Definition set_position (px py : Q) (n : Node) : Node :=
  {| page := page n; type := type n; cells := cells n; parent := parent n;
     children := children n; x := px; y := py; expanded := expanded n |}.

Definition set_expanded (b : bool) (n : Node) : Node :=
  {| page := page n; type := type n; cells := cells n; parent := parent n;
     children := children n; x := x n; y := y n; expanded := b |}.

Definition set_nodes (m : gmap Z Node) (s : BTreeVisualizer) : BTreeVisualizer :=
  {| nodes := m; rootPage := rootPage s; pageSize := pageSize s;
     showTransitions := showTransitions s; animationSpeed := animationSpeed s;
     highlightedNodes := highlightedNodes s; clientWidth := clientWidth s;
     clock := clock s; timers := timers s |}.

Definition set_pageSize (v : jsval) (s : BTreeVisualizer) : BTreeVisualizer :=
  {| nodes := nodes s; rootPage := rootPage s; pageSize := v;
     showTransitions := showTransitions s; animationSpeed := animationSpeed s;
     highlightedNodes := highlightedNodes s; clientWidth := clientWidth s;
     clock := clock s; timers := timers s |}.

Definition set_highlights (h : gset Z) (ts : list Timer) (s : BTreeVisualizer)
    : BTreeVisualizer :=
  {| nodes := nodes s; rootPage := rootPage s; pageSize := pageSize s;
     showTransitions := showTransitions s; animationSpeed := animationSpeed s;
     highlightedNodes := h; clientWidth := clientWidth s;
     clock := clock s; timers := ts |}.

Definition set_clock (t : Q) (s : BTreeVisualizer) : BTreeVisualizer :=
  {| nodes := nodes s; rootPage := rootPage s; pageSize := pageSize s;
     showTransitions := showTransitions s; animationSpeed := animationSpeed s;
     highlightedNodes := highlightedNodes s; clientWidth := clientWidth s;
     clock := t; timers := timers s |}.

(** The state right after the constructor, on a canvas of width [w]. *)
Definition newVisualizer (w : Z) : BTreeVisualizer :=
  {| nodes := ∅; rootPage := 1; pageSize := Some (JSON.Num (JSON.Int 4096));
     showTransitions := true; animationSpeed := 1%Q;
     highlightedNodes := ∅; clientWidth := w; clock := 0%Q; timers := [] |}.

(** ** Layout *)

(** [node.children], for the node object stored under [k]. *)
Definition childrenOf (m : gmap Z Node) (k : Z) : list Z :=
  match m !! k with
  | Some n => children n
  | None => []
  end.

(** The children that [this.nodes.get(childPage)] resolves, in order. *)
Definition liveChildren (m : gmap Z Node) (k : Z) : list Z :=
  filter (λ c, is_Some (m !! c)) (childrenOf m k).

(** [if (!levels[level]) levels[level] = []; levels[level].push(node)].
    Writing past the end extends the array; the skipped slots are modelled as
    empty levels (these never arise, see [buildLevels_no_gap]). *)
Fixpoint pushLevel (levels : list (list Z)) (level : nat) (node : Z)
    : list (list Z) :=
  match level, levels with
  | O, [] => [[node]]
  | O, l :: ls => (l ++ [node]) :: ls
  | S i, [] => [] :: pushLevel [] i node
  | S i, l :: ls => l :: pushLevel ls i node
  end.

(** The [while (queue.length > 0)] loop of [buildLevels]: one unit of fuel
    per iteration; [None] when the fuel runs out before the queue is empty. *)
Fixpoint buildLevels_loop (fuel : nat) (m : gmap Z Node)
    (queue : list (Z * nat)) (levels : list (list Z))
    : option (list (list Z)) :=
  match queue with
  | [] => Some levels
  | (node, level) :: rest =>
      match fuel with
      | O => None
      | S fuel' =>
          buildLevels_loop fuel' m
            (rest ++ map (λ c, (c, S level)) (liveChildren m node))
            (pushLevel levels level node)
      end
  end.

Definition buildLevels (fuel : nat) (m : gmap Z Node) (root : Z)
    : option (list (list Z)) :=
  buildLevels_loop fuel m [(root, O)] [].

(** The inner [levelNodes.forEach]: assigns [x] and [y] to each node of the
    level, left to right. *)
Fixpoint placeLevel (levelNodes : list Z) (currentX currentY : Q)
    (m : gmap Z Node) : gmap Z Node :=
  match levelNodes with
  | [] => m
  | k :: ks =>
      placeLevel ks (currentX + inject_Z (nodeWidth + horizontalSpacing))%Q
        currentY (alter (set_position currentX currentY) k m)
  end.

(** [currentX] at the start of a level. *)
Definition levelStartX (canvasWidth : Z) (levelNodes : list Z) : Q :=
  let totalWidth :=
    Z.of_nat (length levelNodes) * (nodeWidth + horizontalSpacing) in
  (inject_Z (canvasWidth - totalWidth) / 2)%Q.

(** The outer [levels.forEach]. *)
Fixpoint placeLevels (levels : list (list Z)) (canvasWidth : Z) (currentY : Q)
    (m : gmap Z Node) : gmap Z Node :=
  match levels with
  | [] => m
  | levelNodes :: rest =>
      placeLevels rest canvasWidth (currentY + inject_Z levelHeight)%Q
        (placeLevel levelNodes (levelStartX canvasWidth levelNodes) currentY m)
  end.

Definition layout (fuel : nat) (s : BTreeVisualizer) : option BTreeVisualizer :=
  if decide (size (nodes s) = 0%nat) then Some s
  else
    match nodes s !! rootPage s with
    | None => Some s
    | Some _ =>
        match buildLevels fuel (nodes s) (rootPage s) with
        | None => None
        | Some levels =>
            Some (set_nodes
                    (placeLevels levels (clientWidth s) (inject_Z topMargin)
                       (nodes s)) s)
        end
    end.

(** ** Painting *)

(** A stroked segment, from [(x1, y1)] to [(x2, y2)], towards the node
    [target]. *)
Record Line := {
  target : Z;
  x1 : Q; y1 : Q;
  x2 : Q; y2 : Q
}.

Definition drawConnections (m : gmap Z Node) (node : Node) : list Line :=
  omap (λ childPage,
          match m !! childPage with
          | None => None
          | Some child =>
              Some {| target := childPage;
                      x1 := (x node + inject_Z nodeWidth / 2)%Q;
                      y1 := (y node + inject_Z nodeHeight)%Q;
                      x2 := (x child + inject_Z nodeWidth / 2)%Q;
                      y2 := y child |}
          end)
       (children node).

(** The connections that one call of [draw] strokes. *)
Definition draw_connections (m : gmap Z Node) : list Line :=
  mbind (λ kn : Z * Node, drawConnections m kn.2) (map_to_list m).

(** ** Highlights *)

(** [setTimeout(callback, delay)] of the host, idealised: the callback is
    due [delay] after the current clock reading (a negative delay counts
    as none). *)
Definition setTimeout (delay : Q) (pages : list Z) (s : BTreeVisualizer)
    : BTreeVisualizer :=
  set_highlights (highlightedNodes s)
    (timers s ++ [{| due := (clock s + Qmax 0 delay)%Q; targets := pages |}]) s.

Definition highlight (pages : list Z) (s : BTreeVisualizer) : BTreeVisualizer :=
  set_highlights (list_to_set pages ∪ highlightedNodes s) (timers s) s.

Definition animateInsertion (pageNum cellIdx : Z) (s : BTreeVisualizer)
    : BTreeVisualizer :=
  setTimeout (500 / animationSpeed s)%Q [pageNum] (highlight [pageNum] s).

Definition animateDeletion (pageNum cellIdx : Z) (s : BTreeVisualizer)
    : BTreeVisualizer :=
  setTimeout (500 / animationSpeed s)%Q [pageNum] (highlight [pageNum] s).

Definition animateSplit (originalPage newPage splitCell : Z)
    (s : BTreeVisualizer) : BTreeVisualizer :=
  setTimeout (1000 / animationSpeed s)%Q [originalPage; newPage]
    (highlight [originalPage; newPage] s).

Definition isDue (now : Q) (t : Timer) : bool := Qle_bool (due t) now.

(** The host's clock reaches [now]: every timer that is due by then has run
    its callback ([highlightedNodes.delete] of its targets). *)
Definition advance (now : Q) (s : BTreeVisualizer) : BTreeVisualizer :=
  let fired := filter (λ t, isDue now t = true) (timers s) in
  let pending := filter (λ t, isDue now t ≠ true) (timers s) in
  set_clock now
    (set_highlights
       (highlightedNodes s ∖ list_to_set (mbind targets fired)) pending s).

(** ** The public operations *)

Definition newNode (pageNum pageType : Z) : Node :=
  {| page := pageNum; type := pageType; cells := []; parent := None;
     children := []; x := 0%Q; y := 0%Q; expanded := true |}.

Definition addPage (fuel : nat) (pageNum pageType : Z) (s : BTreeVisualizer)
    : option BTreeVisualizer :=
  layout fuel (set_nodes (<[pageNum := newNode pageNum pageType]> (nodes s)) s).

Definition newCell (cellIdx keyLen : Z) : Cell :=
  {| idx := cellIdx; keyLen := keyLen; key := "Key" +:+ pretty cellIdx |}.

Definition addCell (fuel : nat) (pageNum cellIdx keyLen : Z)
    (s : BTreeVisualizer) : option BTreeVisualizer :=
  match nodes s !! pageNum with
  | None => Some s
  | Some node =>
      let cs := (splice (cells node) cellIdx (Some 0) [newCell cellIdx keyLen]).1 in
      let s1 := set_nodes (<[pageNum := set_cells cs node]> (nodes s)) s in
      let s2 := if showTransitions s1 then animateInsertion pageNum cellIdx s1
                else s1 in
      layout fuel s2
  end.

Definition deleteCell (fuel : nat) (pageNum cellIdx : Z) (s : BTreeVisualizer)
    : option BTreeVisualizer :=
  match nodes s !! pageNum with
  | None => Some s
  | Some node =>
      let s1 := if showTransitions s then animateDeletion pageNum cellIdx s
                else s in
      let cs := (splice (cells node) cellIdx (Some 1) []).1 in
      layout fuel (set_nodes (<[pageNum := set_cells cs node]> (nodes s1)) s1)
  end.

(** [splitPage]: [original] is the node object fetched before [addPage]
    replaces whatever is stored under [newPage]; when [newPage] is
    [originalPage] the object that keeps the first cells is no longer in the
    map. *)
Definition splitPage (fuel : nat) (originalPage newPage splitCell : Z)
    (s : BTreeVisualizer) : option BTreeVisualizer :=
  match nodes s !! originalPage with
  | None => Some s
  | Some original =>
      match addPage fuel newPage (type original) s with
      | None => None
      | Some s1 =>
          match nodes s1 !! newPage with
          | None => Some s1 (* unreachable: [addPage] has just stored it *)
          | Some newNode =>
              let '(kept, cellsToMove) :=
                splice (cells original) splitCell None [] in
              let m1 :=
                if decide (originalPage = newPage) then nodes s1
                else alter (set_cells kept) originalPage (nodes s1) in
              let m2 := <[newPage := set_cells cellsToMove newNode]> m1 in
              let s2 := set_nodes m2 s1 in
              let s3 := if showTransitions s2
                        then animateSplit originalPage newPage splitCell s2
                        else s2 in
              layout fuel s3
          end
      end
  end.

(** The [PAGE_FREE] listener's body. *)
Definition freePage (fuel : nat) (pageNum : Z) (s : BTreeVisualizer)
    : option BTreeVisualizer :=
  layout fuel (set_nodes (delete pageNum (nodes s)) s).

Definition toggleNodeExpansion (fuel : nat) (k : Z) (s : BTreeVisualizer)
    : option BTreeVisualizer :=
  layout fuel (set_nodes (alter (λ n, set_expanded (negb (expanded n)) n) k (nodes s)) s).

Definition clear (s : BTreeVisualizer) : BTreeVisualizer :=
  set_highlights ∅ (timers s) (set_nodes ∅ s).

Definition setAnimationSpeed (speed : Q) (s : BTreeVisualizer) : BTreeVisualizer :=
  {| nodes := nodes s; rootPage := rootPage s; pageSize := pageSize s;
     showTransitions := showTransitions s; animationSpeed := speed;
     highlightedNodes := highlightedNodes s; clientWidth := clientWidth s;
     clock := clock s; timers := timers s |}.

Definition setShowTransitions (show : bool) (s : BTreeVisualizer) : BTreeVisualizer :=
  {| nodes := nodes s; rootPage := rootPage s; pageSize := pageSize s;
     showTransitions := show; animationSpeed := animationSpeed s;
     highlightedNodes := highlightedNodes s; clientWidth := clientWidth s;
     clock := clock s; timers := timers s |}.

(** ** Mutation records: the typed view of the six listeners *)

Inductive MutationRecord :=
| Allocate (pageId kind : Z)
| Free (pageId : Z)
| Insert (pageId cellIndex keyLength : Z)
| Delete (pageId cellIndex : Z)
| Split (fromPageId toPageId splitCellIndex : Z).

(** What the listener of each record calls on the visualizer. *)
Definition apply (fuel : nat) (r : MutationRecord) (s : BTreeVisualizer)
    : option BTreeVisualizer :=
  match r with
  | Allocate p k => addPage fuel p k s
  | Free p => freePage fuel p s
  | Insert p i len => addCell fuel p i len s
  | Delete p i => deleteCell fuel p i s
  | Split p q i => splitPage fuel p q i s
  end.

Fixpoint applyAll (fuel : nat) (rs : list MutationRecord) (s : BTreeVisualizer)
    : option BTreeVisualizer :=
  match rs with
  | [] => Some s
  | r :: rs' =>
      match apply fuel r s with
      | Some s' => applyAll fuel rs' s'
      | None => None
      end
  end.

(** A record is valid in a state when it addresses a page and a cell
    position that exist there. *)
Definition valid (s : BTreeVisualizer) (r : MutationRecord) : Prop :=
  match r with
  | Allocate p k => True
  | Free p => is_Some (nodes s !! p)
  | Insert p i len =>
      ∃ n, nodes s !! p = Some n ∧ 0 ≤ i ≤ Z.of_nat (length (cells n))
  | Delete p i =>
      ∃ n, nodes s !! p = Some n ∧ 0 ≤ i < Z.of_nat (length (cells n))
  | Split p q i =>
      ∃ n, nodes s !! p = Some n ∧ 0 ≤ i ≤ Z.of_nat (length (cells n))
  end.

(** A sequence is valid from [s] when each record is valid in the state the
    records before it produce. *)
Fixpoint validFrom (fuel : nat) (s : BTreeVisualizer) (rs : list MutationRecord)
    : Prop :=
  match rs with
  | [] => True
  | r :: rs' =>
      valid s r ∧
      match apply fuel r s with
      | Some s' => validFrom fuel s' rs'
      | None => True
      end
  end.

(** Allocate, Insert and Delete records. *)
Definition isCellRecord (r : MutationRecord) : bool :=
  match r with
  | Allocate _ _ | Insert _ _ _ | Delete _ _ => true
  | Free _ | Split _ _ _ => false
  end.

(** ** The event intake: [EventManager] and the application's listeners *)

Record Event := {
  ev_id : Z;
  ev_type : Z;
  ev_typeName : string;
  ev_category : string;
  ev_data : JSON.value;
  ev_timestamp : Z
}.

(** The six arrow functions that [connectEvents] passes to [on]. *)
Inductive Callback :=
| OnBtreeOpen
| OnPageAllocate
| OnPageFree
| OnBtreeInsert
| OnBtreeDelete
| OnBtreeSplit.

(** The keys of [listeners] are event codes ([inl]) or the string ['*']
    ([inr ()]). *)
Record EventManager := {
  events : list Event;
  listeners : gmap (Z + ()) (list Callback);
  eventCount : Z;
  autoScroll : bool
}.

(** The application: the global [eventManager], the visualizer, and the
    children of the DOM element [event-log] ([None] when there is no such
    element). *)
Record App := {
  eventManager : EventManager;
  visualizer : BTreeVisualizer;
  eventLog : option (list Event)
}.

Inductive Exception := SyntaxError | TypeError.

(** How a call ends: it returns, it throws, its layout loop is still running
    when the fuel is used up, or it leaves the integers this embedding
    models. *)
Inductive Completion (A : Type) :=
| Normal (a : A)
| Throw (e : Exception)
| Diverge
| Unmodelled.
Arguments Normal {A} a.
Arguments Throw {A} e.
Arguments Diverge {A}.
Arguments Unmodelled {A}.

(** State changes made before a [throw] stay. *)
Definition M (A : Type) : Type := App → App * Completion A.

#[global] Instance M_ret : MRet M := λ A a w, (w, Normal a).
#[global] Instance M_bind : MBind M := λ A B f m w,
  match m w with
  | (w', Normal a) => f a w'
  | (w', Throw e) => (w', Throw e)
  | (w', Diverge) => (w', Diverge)
  | (w', Unmodelled) => (w', Unmodelled)
  end.

Definition throw {A} (e : Exception) : M A := λ w, (w, Throw e).
Definition unmodelled {A} : M A := λ w, (w, Unmodelled).

Definition set_eventManager (em : EventManager) (w : App) : App :=
  {| eventManager := em; visualizer := visualizer w; eventLog := eventLog w |}.
Definition set_visualizer (v : BTreeVisualizer) (w : App) : App :=
  {| eventManager := eventManager w; visualizer := v; eventLog := eventLog w |}.
Definition set_eventLog (l : option (list Event)) (w : App) : App :=
  {| eventManager := eventManager w; visualizer := visualizer w; eventLog := l |}.

(** A visualizer method, run inside the application. *)
Definition onVisualizer (f : BTreeVisualizer → option BTreeVisualizer) : M () :=
  λ w, match f (visualizer w) with
       | Some v => (set_visualizer v w, Normal ())
       | None => (w, Diverge)
       end.

Definition eventTypeNames (eventType : Z) : option string :=
  match eventType with
  | 0 => Some "BTREE_OPEN"%string
  | 1 => Some "BTREE_CLOSE"%string
  | 2 => Some "BTREE_INSERT"%string
  | 3 => Some "BTREE_DELETE"%string
  | 4 => Some "BTREE_SPLIT"%string
  | 5 => Some "BTREE_BALANCE"%string
  | 6 => Some "PAGE_ALLOCATE"%string
  | 7 => Some "PAGE_FREE"%string
  | 8 => Some "PARSE_START"%string
  | 9 => Some "PARSE_TOKEN"%string
  | 10 => Some "PARSE_COMPLETE"%string
  | 11 => Some "VDBE_START"%string
  | 12 => Some "VDBE_OPCODE"%string
  | 13 => Some "VDBE_COMPLETE"%string
  | _ => None
  end.

Definition eventCategories (eventType : Z) : option string :=
  if (0 <=? eventType) && (eventType <=? 7) then Some "btree"%string
  else if (8 <=? eventType) && (eventType <=? 10) then Some "parse"%string
  else if (11 <=? eventType) && (eventType <=? 13) then Some "vdbe"%string
  else None.

(** [data.name] for one of the field names the listeners and the log use
    (none of them is a built-in property): a [TypeError] on [null],
    [undefined] on everything that is not an object with that member. *)
Definition getProp (data : JSON.value) (name : string) : M jsval :=
  match data with
  | JSON.Null => throw TypeError
  | JSON.Obj ms => mret (JSON.member name ms)
  | _ => mret None
  end.

(** [formatEventData]: the text is not modelled, only the property accesses
    that can throw.  The [switch] has no case for [BTREE_CLOSE] and
    [BTREE_BALANCE]; these and [UNKNOWN] go to [JSON.stringify]. *)
Definition formatEventData (event : Event) : M () :=
  let data := ev_data event in
  let reads (names : list string) : M () :=
    foldr (λ name k, _ ← getProp data name; k) (mret ()) names in
  if decide (ev_typeName event = "BTREE_OPEN"%string)
  then reads ["pageSize"; "numPages"]%string
  else if decide (ev_typeName event = "BTREE_INSERT"%string)
  then reads ["page"; "cell"; "keyLen"]%string
  else if decide (ev_typeName event = "BTREE_DELETE"%string)
  then reads ["page"; "cell"]%string
  else if decide (ev_typeName event = "BTREE_SPLIT"%string)
  then reads ["originalPage"; "newPage"; "splitCell"]%string
  else if decide (ev_typeName event = "PAGE_ALLOCATE"%string)
  then reads ["page"; "type"]%string
  else if decide (ev_typeName event = "PAGE_FREE"%string)
  then reads ["page"]%string
  else if decide (ev_typeName event = "PARSE_START"%string)
  then reads ["sql"]%string
  else if decide (ev_typeName event = "PARSE_TOKEN"%string)
  then reads ["token"; "type"]%string
  else if decide (ev_typeName event = "PARSE_COMPLETE"%string)
  then reads ["success"]%string
  else if decide (ev_typeName event = "VDBE_START"%string)
  then reads ["numOpcodes"]%string
  else if decide (ev_typeName event = "VDBE_OPCODE"%string)
  then reads ["pc"; "opcode"; "p1"; "p2"; "p3"]%string
  else if decide (ev_typeName event = "VDBE_COMPLETE"%string)
  then reads ["resultCode"]%string
  else mret ().

(** Drops the oldest items while there are more than [limit]. *)
Definition keepLast {A} (limit : nat) (l : list A) : list A :=
  drop (length l - limit) l.

Definition getEventLog : M (option (list Event)) :=
  λ w, (w, Normal (eventLog w)).

Definition putEventLog (items : list Event) : M () :=
  λ w, (set_eventLog (Some items) w, Normal ()).

Definition logEvent (event : Event) : M () :=
  logElement ← getEventLog;
  match logElement with
  | None => mret ()
  | Some items =>
      _ ← formatEventData event;
      putEventLog (keepLast 1000 (items ++ [event]))
  end.

(** How a listener sees a field it passes on as a page number, a cell index,
    a key length or a page type. *)
Inductive Arg :=
| IntArg (z : Z)      (* an integer that a JavaScript number holds exactly *)
| NotANumber          (* [undefined] or a JSON value that is not a number *)
| OtherNumber.        (* a number outside the modelled integers *)

Definition classify (v : jsval) : Arg :=
  match v with
  | Some (JSON.Num (JSON.Int z)) =>
      if (- 2 ^ 53 <=? z) && (z <=? 2 ^ 53) then IntArg z else OtherNumber
  | Some (JSON.Num (JSON.Real _)) => OtherNumber
  | _ => NotANumber
  end.

(** The body of each listener.  [nodes] only has integer keys, so a page
    that is not a number resolves to no node. *)
Definition runCallback (fuel : nat) (cb : Callback) (e : Event) : M () :=
  let data := ev_data e in
  match cb with
  | OnBtreeOpen =>
      v ← getProp data "pageSize";
      onVisualizer (λ s, Some (set_pageSize v s))
  | OnPageAllocate =>
      p ← getProp data "page";
      t ← getProp data "type";
      match classify p, classify t with
      | IntArg p, IntArg t => onVisualizer (addPage fuel p t)
      | _, _ => unmodelled
      end
  | OnPageFree =>
      p ← getProp data "page";
      match classify p with
      | IntArg p => onVisualizer (freePage fuel p)
      | NotANumber => onVisualizer (layout fuel)
      | OtherNumber => unmodelled
      end
  | OnBtreeInsert =>
      p ← getProp data "page";
      c ← getProp data "cell";
      k ← getProp data "keyLen";
      match classify p, classify c, classify k with
      | IntArg p, IntArg c, IntArg k => onVisualizer (addCell fuel p c k)
      | NotANumber, _, _ => mret ()
      | _, _, _ => unmodelled
      end
  | OnBtreeDelete =>
      p ← getProp data "page";
      c ← getProp data "cell";
      match classify p, classify c with
      | IntArg p, IntArg c => onVisualizer (deleteCell fuel p c)
      | NotANumber, _ => mret ()
      | _, _ => unmodelled
      end
  | OnBtreeSplit =>
      p ← getProp data "originalPage";
      q ← getProp data "newPage";
      c ← getProp data "splitCell";
      match classify p, classify q, classify c with
      | IntArg p, IntArg q, IntArg c => onVisualizer (splitPage fuel p q c)
      | NotANumber, _, _ => mret ()
      | _, _, _ => unmodelled
      end
  end.

(** [callbacks.forEach(callback => callback(event))]. *)
Fixpoint forEachCallback (fuel : nat) (cbs : list Callback) (e : Event) : M () :=
  match cbs with
  | [] => mret ()
  | cb :: cbs' => _ ← runCallback fuel cb e; forEachCallback fuel cbs' e
  end.

(** [this.listeners.get(key) || []]. *)
Definition getListeners (key : Z + ()) : M (list Callback) :=
  λ w, (w, Normal (default [] (listeners (eventManager w) !! key))).

Definition notifyListeners (fuel : nat) (event : Event) : M () :=
  typeListeners ← getListeners (inl (ev_type event));
  _ ← forEachCallback fuel typeListeners event;
  allListeners ← getListeners (inr ());
  forEachCallback fuel allListeners event.

(** [this.eventCount++]: returns the old value. *)
Definition nextEventId : M Z :=
  λ w, let em := eventManager w in
       (set_eventManager
          {| events := events em; listeners := listeners em;
             eventCount := eventCount em + 1; autoScroll := autoScroll em |} w,
        Normal (eventCount em)).

Definition pushEvent (event : Event) : M () :=
  λ w, let em := eventManager w in
       (set_eventManager
          {| events := events em ++ [event]; listeners := listeners em;
             eventCount := eventCount em; autoScroll := autoScroll em |} w,
        Normal ()).

(** [handleEvent(eventType, dataJson)]; [now] is the reading of [Date.now()].
    The members of the object literal are evaluated in order, so the counter
    is advanced before [JSON.parse] runs.  [updateStats] only writes to the
    page. *)
Definition handleEvent (fuel : nat) (now : Z) (eventType : Z) (dataJson : string)
    : M () :=
  id ← nextEventId;
  data ← match JSON.parse dataJson with
         | Some v => mret v
         | None => throw SyntaxError
         end;
  let event :=
    {| ev_id := id; ev_type := eventType;
       ev_typeName := default "UNKNOWN"%string (eventTypeNames eventType);
       ev_category := default "other"%string (eventCategories eventType);
       ev_data := data; ev_timestamp := now |} in
  _ ← pushEvent event;
  _ ← logEvent event;
  notifyListeners fuel event.

(** [on(eventType, callback)]. *)
Definition on (key : Z + ()) (cb : Callback) (em : EventManager) : EventManager :=
  {| events := events em;
     listeners := <[key := default [] (listeners em !! key) ++ [cb]]> (listeners em);
     eventCount := eventCount em; autoScroll := autoScroll em |}.

Definition newEventManager : EventManager :=
  {| events := []; listeners := ∅; eventCount := 0; autoScroll := true |}.

(** [connectEvents], on the global event manager. *)
Definition connectEvents (em : EventManager) : EventManager :=
  on (inl 4) OnBtreeSplit
    (on (inl 3) OnBtreeDelete
       (on (inl 2) OnBtreeInsert
          (on (inl 7) OnPageFree
             (on (inl 6) OnPageAllocate
                (on (inl 0) OnBtreeOpen em))))).

(** The application after [init], on a canvas of width [w] and a page with
    an [event-log] element. *)
Definition newApp (w : Z) : App :=
  {| eventManager := connectEvents newEventManager;
     visualizer := newVisualizer w;
     eventLog := Some [] |}.

(** The listeners are the ones [connectEvents] registers, and no other. *)
Definition connected (w : App) : Prop :=
  listeners (eventManager w) = listeners (connectEvents newEventManager).

(** ** Queries *)

(** The test of [getNodeAtPosition], for a pointer at [(px, py)]. *)
Definition containsPoint (px py : Q) (n : Node) : bool :=
  Qle_bool (x n) px && Qle_bool px (x n + inject_Z nodeWidth)
  && Qle_bool (y n) py && Qle_bool py (y n + inject_Z nodeHeight).

(** [getNodeAtPosition(x, y)]: the first node, in the iteration order
    [order] of [nodes.values()], whose rectangle holds the point. *)
Fixpoint getNodeAtPosition (order : list Z) (m : gmap Z Node) (px py : Q)
    : option Node :=
  match order with
  | [] => None
  | k :: rest =>
      match m !! k with
      | Some n =>
          if containsPoint px py n then Some n
          else getNodeAtPosition rest m px py
      | None => getNodeAtPosition rest m px py
      end
  end.

(** [Array.prototype.slice(start)]: the start index is clamped as in
    [splice]. *)
Definition slice {A} (l : list A) (start : Z) : list A :=
  drop (actualStart (length l) start) l.

Definition getEventsByType (eventType : Z) (em : EventManager) : list Event :=
  filter (λ e, ev_type e = eventType) (events em).

Definition getEventsByCategory (category : string) (em : EventManager)
    : list Event :=
  filter (λ e, ev_category e = category) (events em).

Definition getRecentEvents (count : Z) (em : EventManager) : list Event :=
  slice (events em) (- count).

(** [EventManager.clear]: the log element, when there is one, is emptied. *)
Definition clearEvents (w : App) : App :=
  {| eventManager :=
       {| events := []; listeners := listeners (eventManager w);
          eventCount := 0; autoScroll := autoScroll (eventManager w) |};
     visualizer := visualizer w;
     eventLog := (λ _, []) <$> eventLog w |}.

(** ** The bridge: [src/wasm/sqlite_bridge.c] *)

Module Bridge.

(** C strings are lists of characters; [dq] is the double quote. *)
Definition dq : ascii := "034"%char.

Definition digit (n : N) : ascii := ascii_of_N (48 + n).

(** The decimal digits of [n], the least significant first. *)
Fixpoint digits_rev (fuel : nat) (n : N) : list ascii :=
  match fuel with
  | O => []
  | S f =>
      digit (n mod 10)
        :: (if (n <? 10)%N then [] else digits_rev f (n / 10)%N)
  end.

(** What [%d] prints for an [int]. *)
Definition print_int (z : Z) : list ascii :=
  let n := Z.abs_N z in
  let ds := rev (digits_rev (S (N.to_nat (N.log2 n))) n) in
  if z <? 0 then "-"%char :: ds else ds.

(** The format piece ["name":] followed by a printed value. *)
Definition field (name : string) (value : list ascii) : list ascii :=
  dq :: String.list_ascii_of_string name ++ dq :: ":"%char :: value.

(** [emit_vis_event]: [vsnprintf] into [char buffer[1024]] keeps at most
    1023 characters; [js_emit_event] hands the code and the text, as a
    string, to [window.sqliteVisEventHandler]. *)
Definition emit_vis_event (type : Z) (text : list ascii) : Z * string :=
  (type, String.string_of_list_ascii (take 1023 text)).

Definition btree_open_event (page_size num_pages : Z) : Z * string :=
  emit_vis_event 0
    ("{"%char :: field "pageSize" (print_int page_size)
       ++ ","%char :: field "numPages" (print_int num_pages) ++ ["}"%char]).

Definition btree_insert_event (page_num cell_idx key_len : Z) : Z * string :=
  emit_vis_event 2
    ("{"%char :: field "page" (print_int page_num)
       ++ ","%char :: field "cell" (print_int cell_idx)
       ++ ","%char :: field "keyLen" (print_int key_len) ++ ["}"%char]).

Definition btree_delete_event (page_num cell_idx : Z) : Z * string :=
  emit_vis_event 3
    ("{"%char :: field "page" (print_int page_num)
       ++ ","%char :: field "cell" (print_int cell_idx) ++ ["}"%char]).

Definition btree_split_event (original_page new_page split_cell : Z)
    : Z * string :=
  emit_vis_event 4
    ("{"%char :: field "originalPage" (print_int original_page)
       ++ ","%char :: field "newPage" (print_int new_page)
       ++ ","%char :: field "splitCell" (print_int split_cell) ++ ["}"%char]).

Definition page_allocate_event (page_num page_type : Z) : Z * string :=
  emit_vis_event 6
    ("{"%char :: field "page" (print_int page_num)
       ++ ","%char :: field "type" (print_int page_type) ++ ["}"%char]).

Definition page_free_event (page_num : Z) : Z * string :=
  emit_vis_event 7
    ("{"%char :: field "page" (print_int page_num) ++ ["}"%char]).

(** The loop of [parse_start_event]: a backslash goes before every double
    quote and backslash; it stops at the end of [sql] (its NUL) or when [j]
    reaches [sizeof(escaped_sql) - 2]. *)
Fixpoint escape_sql (sql : list ascii) (j : nat) : list ascii :=
  match sql with
  | [] => []
  | c :: rest =>
      if bool_decide (c = "000"%char) then []
      else if (j <? 510)%nat then
        if bool_decide (c = dq) || bool_decide (c = "\"%char)
        then "\"%char :: c :: escape_sql rest (j + 2)
        else c :: escape_sql rest (j + 1)
      else []
  end.

Definition parse_start_event (sql : list ascii) : Z * string :=
  emit_vis_event 8
    ("{"%char :: dq :: "s"%char :: "q"%char :: "l"%char :: dq :: ":"%char :: dq
       :: escape_sql sql 0 ++ [dq; "}"%char]).

(** The bridge call that reports a mutation record ([int] arguments). *)
Definition event_of (r : MutationRecord) : Z * string :=
  match r with
  | Allocate p k => page_allocate_event p k
  | Free p => page_free_event p
  | Insert p i len => btree_insert_event p i len
  | Delete p i => btree_delete_event p i
  | Split p q i => btree_split_event p q i
  end.

End Bridge.

(** ** The events of the mutation records *)

(** The code under which the listener of a record is registered. *)
Definition eventCode (r : MutationRecord) : Z :=
  match r with
  | Allocate _ _ => 6
  | Free _ => 7
  | Insert _ _ _ => 2
  | Delete _ _ => 3
  | Split _ _ _ => 4
  end.

(** The fields that its listener reads from [e.data], with their values. *)
Definition eventFields (r : MutationRecord) : list (string * Z) :=
  match r with
  | Allocate p k => [("page", p); ("type", k)]
  | Free p => [("page", p)]
  | Insert p i len => [("page", p); ("cell", i); ("keyLen", len)]
  | Delete p i => [("page", p); ("cell", i)]
  | Split p q i => [("originalPage", p); ("newPage", q); ("splitCell", i)]
  end%string.

(** [data] is an object whose members give the fields of [r], as integers
    that a JavaScript number holds exactly. *)
Definition carries (data : JSON.value) (r : MutationRecord) : Prop :=
  ∃ ms, data = JSON.Obj ms
        ∧ Forall (λ f : string * Z,
                    JSON.member f.1 ms = Some (JSON.Num (JSON.Int f.2))
                    ∧ - 2 ^ 53 ≤ f.2 ≤ 2 ^ 53)
            (eventFields r).

(** ** The event stream *)

(** The events of a stream, each with the reading of [Date.now()] at its
    arrival, handled one after the other; an event that throws leaves its
    state to the next one. *)
Fixpoint handleAll (fuel : nat) (evs : list (Z * Z * string)) (w : App) : App :=
  match evs with
  | [] => w
  | (now, eventType, dataJson) :: rest =>
      handleAll fuel rest (handleEvent fuel now eventType dataJson w).1
  end.

(** The stored events carry strictly increasing ids below the counter, and
    the names that the tables give to their code. *)
Definition wellFormedEvents (em : EventManager) : Prop :=
  StronglySorted (λ a b, ev_id a < ev_id b) (events em)
  ∧ Forall (λ e, ev_id e < eventCount em
                 ∧ ev_typeName e
                   = default "UNKNOWN"%string (eventTypeNames (ev_type e))
                 ∧ ev_category e
                   = default "other"%string (eventCategories (ev_type e)))
      (events em).

(** ** Vocabulary of the properties *)

(** [v] is a child reference of [u] that resolves to a node. *)
Definition edge (m : gmap Z Node) (u v : Z) : Prop := v ∈ liveChildren m u.

(** No node that the traversal can reach from [root] lies on a cycle of
    resolvable child references. *)
Definition acyclic (m : gmap Z Node) (root : Z) : Prop :=
  ∀ u, rtc (edge m) root u → ¬ tc (edge m) u u.

(** Every chain of resolvable child references that starts at [u] has fewer
    than [d] nodes. *)
Fixpoint boundedDepth (d : nat) (m : gmap Z Node) (u : Z) : bool :=
  match d with
  | O => false
  | S d' => forallb (boundedDepth d' m) (liveChildren m u)
  end.

(** The number of nodes of the unfolding of [u], cut at depth [d]. *)
Fixpoint treeSize (d : nat) (m : gmap Z Node) (u : Z) : nat :=
  match d with
  | O => O
  | S d' => S (sum_list_with (treeSize d' m) (liveChildren m u))
  end.

(** [isPath m u l]: [l] continues [u] along resolvable child references. *)
Fixpoint isPath (m : gmap Z Node) (u : Z) (l : list Z) : Prop :=
  match l with
  | [] => True
  | v :: l' => edge m u v ∧ isPath m v l'
  end.

(** The levels below and including the level [L]: each next level is the
    concatenation, in order, of the resolvable children of the entries of
    the level before; there is no empty level. *)
Inductive levelsOf (m : gmap Z Node) : list Z → list (list Z) → Prop :=
| levelsOf_done : levelsOf m [] []
| levelsOf_next L rest :
    L ≠ [] →
    levelsOf m (L ≫= liveChildren m) rest →
    levelsOf m L (L :: rest).

(** A node without its position. *)
Definition unplaced (n : Node) : Node := set_position 0 0 n.

(** The stores that the public operations build from the empty one never
    hold a child reference. *)
Definition childless (m : gmap Z Node) : Prop :=
  ∀ k n, m !! k = Some n → children n = [].

(** ** Predicates and examples of the proofs *)

(** Two maps with the same keys and the same child references. *)
Definition sameGraph (m m' : gmap Z Node) : Prop :=
  ∀ k, children <$> (m' !! k) = children <$> (m !! k).

(** A node from which a cycle can be reached. *)
Definition reachesCycle (m : gmap Z Node) (w : Z) : Prop :=
  ∃ u, rtc (edge m) w u ∧ tc (edge m) u u.

(** Validity, as a test. *)
Definition validb (s : BTreeVisualizer) (r : MutationRecord) : bool :=
  match r with
  | Allocate p k => true
  | Free p => bool_decide (is_Some (nodes s !! p))
  | Insert p i len =>
      match nodes s !! p with
      | Some n => (0 <=? i) && (i <=? Z.of_nat (length (cells n)))
      | None => false
      end
  | Delete p i =>
      match nodes s !! p with
      | Some n => (0 <=? i) && (i <? Z.of_nat (length (cells n)))
      | None => false
      end
  | Split p q i =>
      match nodes s !! p with
      | Some n => (0 <=? i) && (i <=? Z.of_nat (length (cells n)))
      | None => false
      end
  end.

(** Validity of every record in the state that it meets, as a test. *)
Fixpoint validFromb (fuel : nat) (s : BTreeVisualizer) (rs : list MutationRecord)
    : bool :=
  match rs with
  | [] => true
  | r :: rs' =>
      validb s r &&
      match apply fuel r s with
      | Some s' => validFromb fuel s' rs'
      | None => true
      end
  end.

(** The recorded [idx] attributes of a node's cells are [0 .. k-1]. *)
Definition indexContiguous (n : Node) : Prop :=
  idx <$> cells n = seqZ 0 (Z.of_nat (length (cells n))).

(** A node with child references, for the examples. *)
Definition linkedNode (pageNum : Z) (kids : list Z) : Node :=
  {| page := pageNum; type := 0; cells := []; parent := None;
     children := kids; x := 0%Q; y := 0%Q; expanded := true |}.

(** A visualizer of width 800 with the given nodes. *)
Definition storeOf (l : list (Z * Node)) : BTreeVisualizer :=
  set_nodes (list_to_map l) (newVisualizer 800).

(** Page 1 and page 2 list each other. *)
Definition twoCycle : BTreeVisualizer :=
  storeOf [(1, linkedNode 1 [2]); (2, linkedNode 2 [1])].

(** Page 4 is a child of page 2 and of page 3. *)
Definition diamond : BTreeVisualizer :=
  storeOf [(1, linkedNode 1 [2; 3]); (2, linkedNode 2 [4]);
           (3, linkedNode 3 [4]); (4, linkedNode 4 [])].

(** The entry [j] of level [l] is the last entry of [k]: [k] stands at no
    later slot of that level and in no later level. *)
Definition lastEntry (levels : list (list Z)) (l j : nat) (k : Z) : Prop :=
  ∃ L, levels !! l = Some L ∧ L !! j = Some k
       ∧ (∀ j', (j < j')%nat → L !! j' ≠ Some k)
       ∧ ∀ l' L', (l < l')%nat → levels !! l' = Some L' → k ∉ L'.

(** Page 5, at [(7, 9)], is referenced by no page. *)
Definition orphaned : BTreeVisualizer :=
  storeOf [(1, linkedNode 1 [2]); (2, linkedNode 2 []);
           (5, set_position 7 9 (linkedNode 5 []))].

(** Every resolvable child reference of [m'] is one of [m]. *)
Definition shrinks (m m' : gmap Z Node) : Prop :=
  ∀ u, liveChildren m' u `sublist_of` liveChildren m u.

(** Root [1] with the single child [2]. *)
Definition parentChild : BTreeVisualizer :=
  storeOf [(1, linkedNode 1 [2]); (2, linkedNode 2 [])].

(** The flip of the flag that [toggleNodeExpansion] performs. *)
Definition flipExpanded (n : Node) : Node := set_expanded (negb (expanded n)) n.

(** A leaf with the cells [0 .. 4], as five Inserts at the end build it. *)
Definition fiveCells : BTreeVisualizer :=
  storeOf [(1, set_cells ((λ i, newCell i 16) <$> [0; 1; 2; 3; 4]) (newNode 1 1))].

(** The timer that an [animate*] method with base duration [base] leaves. *)
Definition highlightTimer (base : Q) (pages : list Z) (s : BTreeVisualizer)
    : Timer :=
  {| due := (clock s + Qmax 0 (base / animationSpeed s))%Q; targets := pages |}.

(** A leaf under the root page, without cells. *)
Definition oneLeaf : BTreeVisualizer := storeOf [(1, newNode 1 1)].


(** Two visualizers that agree on what the store and the layout read. *)
Definition sameStore (s1 s2 : BTreeVisualizer) : Prop :=
  nodes s1 = nodes s2 ∧ rootPage s1 = rootPage s2
  ∧ clientWidth s1 = clientWidth s2.

(** The log holds at most 1000 entries, all of them stored events, in their
    order. *)
Definition logBounded (w : App) : Prop :=
  ∃ items, eventLog w = Some items ∧ (length items ≤ 1000)%nat
           ∧ items `sublist_of` events (eventManager w).

(** The rectangle of [n], borders included, holds the point. *)
Definition inside (px py : Q) (n : Node) : Prop :=
  (x n <= px)%Q ∧ (px <= x n + inject_Z nodeWidth)%Q
  ∧ (y n <= py)%Q ∧ (py <= y n + inject_Z nodeHeight)%Q.

(** The value of a digit string, the least significant digit first. *)
Definition value_rev (l : list ascii) : Z :=
  fold_right (λ c acc, 10 * acc + (JSON.code c - 48)) 0 l.

(** The text after a value in an object: a comma or the closing brace. *)
Definition closing (r : list ascii) : Prop :=
  ∃ sep r', r = sep :: r' ∧ (sep = ","%char ∨ sep = "}"%char).

(** The characters that a string literal holds as they are. *)
Definition plain (c : ascii) : bool :=
  negb (bool_decide (c = "034"%char)) && negb (bool_decide (c = "\"%char))
  && (32 <=? JSON.code c).

(** The text that a format of integer fields prints after the opening
    brace. *)
Fixpoint members_text (fs : list (string * Z)) : list ascii :=
  match fs with
  | [] => ["}"%char]
  | f :: fs' =>
      Bridge.field f.1 (Bridge.print_int f.2)
        ++ match fs' with
           | [] => ["}"%char]
           | _ => ","%char :: members_text fs'
           end
  end.

(** A field name of plain characters. *)
Definition plainName (name : string) : bool :=
  forallb plain (String.list_ascii_of_string name).

(** The values of a C [int]. *)
Definition int32 (z : Z) : Prop := - 2 ^ 31 ≤ z < 2 ^ 31.

(** A printable ASCII character, the delete character included. *)
Definition asciiText (c : ascii) : bool :=
  (32 <=? JSON.code c) && (JSON.code c <? 128).

(** A control character other than NUL, such as a line break or a tab. *)
Definition controlCharacter (c : ascii) : bool :=
  (1 <=? JSON.code c) && (JSON.code c <? 32).

(** ** The payload that [executeSQL] builds itself *)

(** The replacement in [executeSQL]: a backslash goes before every double
    quote, and before nothing else. *)
Definition replaceQuotes (sql : list ascii) : list ascii :=
  sql ≫= λ c, if bool_decide (c = Bridge.dq) then ["\"%char; c] else [c].

(** The text that [executeSQL] passes to [handleEvent] with code 8. *)
Definition executeSQL_payload (sql : list ascii) : string :=
  String.string_of_list_ascii
    ("{"%char :: Bridge.dq :: "s"%char :: "q"%char :: "l"%char :: Bridge.dq
       :: ":"%char :: Bridge.dq :: replaceQuotes sql ++ [Bridge.dq; "}"%char]).

(** A character that a JSON string literal takes raw or, for the double
    quote, after the backslash that [replaceQuotes] adds. *)
Definition literalText (c : ascii) : bool :=
  negb (bool_decide (c = "\"%char)) && (32 <=? JSON.code c).

(** * Properties *)

(** ** [splice] *)

Lemma actualStart_le len start : (actualStart len start ≤ len)%nat.
Proof. unfold actualStart. case_match; lia. Qed.

Lemma actualStart_nonneg len start :
  0 ≤ start → actualStart len start = (Z.to_nat start `min` len)%nat.
Proof. intros H. unfold actualStart. case_match; lia. Qed.

Lemma splice_insert_at {A} (l : list A) (i : Z) (a : A) :
  0 ≤ i ≤ Z.of_nat (length l) →
  (splice l i (Some 0) [a]).1 = take (Z.to_nat i) l ++ a :: drop (Z.to_nat i) l.
Proof.
  intros H. unfold splice, actualDeleteCount. cbn [fst].
  rewrite actualStart_nonneg by lia.
  replace (Z.to_nat i `min` length l)%nat with (Z.to_nat i) by lia.
  replace (Z.to_nat (Z.min _ _)) with O by lia.
  by rewrite Nat.add_0_r.
Qed.

Lemma splice_delete_at {A} (l : list A) (i : Z) :
  0 ≤ i < Z.of_nat (length l) →
  (splice l i (Some 1) []).1 = take (Z.to_nat i) l ++ drop (S (Z.to_nat i)) l.
Proof.
  intros H. unfold splice, actualDeleteCount. cbn [fst].
  rewrite actualStart_nonneg by lia.
  replace (Z.to_nat i `min` length l)%nat with (Z.to_nat i) by lia.
  replace (Z.to_nat (Z.min _ _)) with 1%nat by lia.
  by rewrite Nat.add_1_r.
Qed.

Lemma splice_rest {A} (l : list A) (i : Z) :
  splice l i None [] =
    (take (actualStart (length l) i) l, drop (actualStart (length l) i) l).
Proof.
  unfold splice, actualDeleteCount.
  pose proof (actualStart_le (length l) i).
  f_equal.
  - rewrite drop_ge by lia. by rewrite app_nil_r.
  - rewrite take_ge; [done|]. rewrite length_drop. lia.
Qed.

(** ** What [layout] leaves alone *)

Lemma unplaced_set_position a b n : unplaced (set_position a b n) = unplaced n.
Proof. done. Qed.

Lemma placeLevel_unplaced ks cx cy m :
  unplaced <$> placeLevel ks cx cy m = unplaced <$> m.
Proof.
  revert cx m. induction ks as [|k ks IH]; intros cx m; [done|].
  cbn [placeLevel]. rewrite IH. apply map_eq. intros j.
  rewrite !lookup_fmap, lookup_alter. case_decide; subst; [|done].
  by destruct (m !! j).
Qed.

Lemma placeLevels_unplaced ls w cy m :
  unplaced <$> placeLevels ls w cy m = unplaced <$> m.
Proof.
  revert cy m. induction ls as [|l ls IH]; intros cy m; [done|].
  cbn [placeLevels]. by rewrite IH, placeLevel_unplaced.
Qed.

(** The other fields of the visualizer and, node by node, everything but
    the position survive a layout. *)
Lemma layout_unplaced fuel s s' :
  layout fuel s = Some s' →
  unplaced <$> nodes s' = unplaced <$> nodes s
  ∧ rootPage s' = rootPage s ∧ pageSize s' = pageSize s
  ∧ showTransitions s' = showTransitions s
  ∧ animationSpeed s' = animationSpeed s
  ∧ highlightedNodes s' = highlightedNodes s
  ∧ clientWidth s' = clientWidth s ∧ clock s' = clock s
  ∧ timers s' = timers s.
Proof.
  unfold layout. intros H.
  repeat case_match; simplify_eq; cbn; rewrite ?placeLevels_unplaced; done.
Qed.

Lemma unplaced_lookup (m m' : gmap Z Node) k :
  unplaced <$> m' = unplaced <$> m →
  unplaced <$> (m' !! k) = unplaced <$> (m !! k).
Proof. intros H. by rewrite <- !lookup_fmap, H. Qed.

(** A field that [set_position] does not write reads the same after it. *)
Lemma unplaced_field {A} (f : Node → A) (m m' : gmap Z Node) k :
  (∀ n, f (unplaced n) = f n) →
  unplaced <$> m' = unplaced <$> m →
  f <$> (m' !! k) = f <$> (m !! k).
Proof.
  intros Hf H. apply (unplaced_lookup _ _ k) in H.
  destruct (m' !! k) as [n'|], (m !! k) as [n|]; cbn in *; try done.
  f_equal. rewrite <- (Hf n'), <- (Hf n). congruence.
Qed.

Lemma unplaced_is_Some (m m' : gmap Z Node) k :
  unplaced <$> m' = unplaced <$> m → is_Some (m' !! k) ↔ is_Some (m !! k).
Proof.
  intros H. apply (unplaced_lookup _ _ k) in H.
  destruct (m' !! k), (m !! k); simplify_eq/=; split; intros [? ?]; eauto; done.
Qed.

(** ** The traversal only reads the child references *)

Lemma sameGraph_unplaced m m' :
  unplaced <$> m' = unplaced <$> m → sameGraph m m'.
Proof. intros H k. by apply unplaced_field. Qed.

Lemma sameGraph_alter (f : Node → Node) k m :
  (∀ n, children (f n) = children n) → sameGraph m (alter f k m).
Proof.
  intros Hf j. rewrite lookup_alter. case_decide; subst; [|done].
  destruct (m !! j); cbn; [|done]. by rewrite Hf.
Qed.

Lemma sameGraph_insert k n n' m :
  m !! k = Some n → children n' = children n → sameGraph m (<[k := n']> m).
Proof.
  intros Hk Hc j. rewrite lookup_insert. case_decide; subst; [|done].
  rewrite Hk. cbn. by rewrite Hc.
Qed.

Lemma sameGraph_trans m1 m2 m3 :
  sameGraph m1 m2 → sameGraph m2 m3 → sameGraph m1 m3.
Proof. intros H1 H2 k. by rewrite H2, H1. Qed.

Lemma sameGraph_sym m1 m2 : sameGraph m1 m2 → sameGraph m2 m1.
Proof. intros H k. by rewrite H. Qed.

Lemma sameGraph_liveChildren m m' u :
  sameGraph m m' → liveChildren m' u = liveChildren m u.
Proof.
  intros H. unfold liveChildren.
  assert (childrenOf m' u = childrenOf m u) as ->.
  { unfold childrenOf. specialize (H u).
    destruct (m' !! u), (m !! u); simplify_eq/=; done. }
  apply list_filter_iff. intros c. specialize (H c).
  destruct (m' !! c), (m !! c); simplify_eq/=; split; intros [? ?]; eauto; done.
Qed.

Lemma sameGraph_loop fuel m m' q lv :
  sameGraph m m' → buildLevels_loop fuel m' q lv = buildLevels_loop fuel m q lv.
Proof.
  intros H. revert q lv. induction fuel as [|fuel IH]; intros [|[u l] q] lv;
    cbn; try done.
  by rewrite IH, (sameGraph_liveChildren m m').
Qed.

Lemma sameGraph_buildLevels fuel m m' root :
  sameGraph m m' → buildLevels fuel m' root = buildLevels fuel m root.
Proof. apply sameGraph_loop. Qed.

(** ** Fuel *)

Lemma buildLevels_loop_mono fuel fuel' m q lv r :
  buildLevels_loop fuel m q lv = Some r → (fuel ≤ fuel')%nat →
  buildLevels_loop fuel' m q lv = Some r.
Proof.
  revert fuel' q lv. induction fuel as [|fuel IH]; intros fuel' [|[u l] q] lv H Hle;
    cbn in *; try done.
  - by destruct fuel'.
  - by destruct fuel'.
  - destruct fuel' as [|fuel']; [lia|]. cbn. apply IH; [done|lia].
Qed.

Lemma layout_mono fuel fuel' s s' :
  layout fuel s = Some s' → (fuel ≤ fuel')%nat → layout fuel' s = Some s'.
Proof.
  unfold layout, buildLevels. intros H Hle.
  case_decide; [done|]. destruct (nodes s !! rootPage s); [|done].
  destruct (buildLevels_loop fuel _ _ _) as [r|] eqn:E; [|done].
  by rewrite (buildLevels_loop_mono _ _ _ _ _ _ E Hle).
Qed.

(** The test on [nodes.size] is subsumed by the lookup of the root. *)
Lemma layout_unfold fuel s :
  layout fuel s =
    match nodes s !! rootPage s with
    | None => Some s
    | Some _ =>
        (λ levels,
           set_nodes (placeLevels levels (clientWidth s) (inject_Z topMargin)
                        (nodes s)) s)
          <$> buildLevels fuel (nodes s) (rootPage s)
    end.
Proof.
  unfold layout. case_decide as Hsz.
  - apply map_size_empty_iff in Hsz. by rewrite Hsz, lookup_empty.
  - destruct (nodes s !! rootPage s); [|done].
    by destruct (buildLevels fuel (nodes s) (rootPage s)).
Qed.

(** ** [pushLevel] on the level being filled *)

Lemma pushLevel_new prev c : pushLevel prev (length prev) c = prev ++ [[c]].
Proof. induction prev as [|l prev IH]; cbn; [done|]. by rewrite IH. Qed.

Lemma pushLevel_last prev cur c :
  pushLevel (prev ++ [cur]) (length prev) c = prev ++ [cur ++ [c]].
Proof. induction prev as [|l prev IH]; cbn; [done|]. by rewrite IH. Qed.

(** ** The levels that [buildLevels] returns *)

(** The state of the loop while level [length prev] is being filled: [done]
    are its entries already dequeued, [todo] the ones still queued, followed
    in the queue by the children of [done]. *)
Lemma buildLevels_loop_levels m fuel :
  ∀ todo done prev res,
    buildLevels_loop fuel m
      (map (λ c, (c, length prev)) todo
         ++ map (λ c, (c, S (length prev))) (done ≫= liveChildren m))
      (prev ++ match done with [] => [] | _ => [done] end) = Some res →
    ∃ rest, res = prev ++ rest ∧ levelsOf m (done ++ todo) rest.
Proof.
  induction fuel as [|fuel IH]; intros todo done prev res H.
  - destruct todo as [|c todo]; cbn in H; [|done].
    destruct (done ≫= liveChildren m) as [|c' q] eqn:E; cbn in H; [|done].
    simplify_eq. eexists. split; [done|]. rewrite app_nil_r.
    destruct done; [constructor|].
    constructor; [done|]. rewrite E. constructor.
  - destruct todo as [|c todo]; cbn [map app] in H.
    + destruct (done ≫= liveChildren m) as [|c' q] eqn:E; cbn [map] in H.
      * cbn in H. simplify_eq. eexists. split; [done|]. rewrite app_nil_r.
        destruct done; [constructor|].
        constructor; [done|]. rewrite E. constructor.
      * destruct done as [|d0 done']; [done|].
        set (done := d0 :: done') in *.
        cbn [buildLevels_loop] in H.
        replace (S (length prev)) with (length (prev ++ [done])) in H
          by (rewrite length_app; cbn; lia).
        rewrite pushLevel_new in H.
        specialize (IH q [c'] (prev ++ [done]) res).
        cbn [mbind list_bind app] in IH.
        rewrite app_nil_r in IH.
        destruct (IH H) as (rest & -> & Hrest).
        exists (done :: rest). split; [by rewrite <- app_assoc|].
        rewrite app_nil_r. constructor; [done|]. by rewrite E.
    + cbn [buildLevels_loop] in H.
      assert (pushLevel (prev ++ match done with [] => [] | _ => [done] end)
                (length prev) c = prev ++ [done ++ [c]]) as Hp.
      { destruct done; [by rewrite app_nil_r, pushLevel_new|].
        by rewrite pushLevel_last. }
      rewrite Hp in H. clear Hp.
      specialize (IH todo (done ++ [c]) prev res).
      rewrite bind_app in IH. cbn [mbind list_bind] in IH.
      rewrite app_nil_r, map_app, app_assoc in IH.
      assert (match done ++ [c] with [] => [] | _ => [done ++ [c]] end
              = [done ++ [c]]) as Hd by (by destruct done).
      rewrite Hd in IH.
      destruct (IH H) as (rest & -> & Hrest).
      exists rest. split; [done|]. by rewrite <- app_assoc in Hrest.
Qed.

Lemma buildLevels_levels fuel m root res :
  buildLevels fuel m root = Some res → levelsOf m [root] res.
Proof.
  intros H.
  destruct (buildLevels_loop_levels m fuel [root] [] [] res) as (rest & -> & Hr);
    [exact H|exact Hr].
Qed.

Lemma levelsOf_det m L r1 r2 : levelsOf m L r1 → levelsOf m L r2 → r1 = r2.
Proof.
  intros H1. revert r2. induction H1 as [|L rest HL H1 IH]; intros r2 H2.
  - by inversion H2.
  - inversion H2; subst; [done|]. f_equal. by apply IH.
Qed.

(** ** Termination of the traversal *)

Lemma forallb_false {A} (f : A → bool) (l : list A) :
  forallb f l = false → ∃ a, a ∈ l ∧ f a = false.
Proof.
  induction l as [|a l IH]; cbn; [done|].
  destruct (f a) eqn:E; cbn.
  - intros H. destruct (IH H) as (b & Hb & Hf). exists b. split; [by right|done].
  - intros _. exists a. split; [by left|done].
Qed.

Lemma forallb_elem {A} (f : A → bool) (l : list A) a :
  forallb f l = true → a ∈ l → f a = true.
Proof.
  intros H Ha. rewrite forallb_forall in H. apply H. by apply list_elem_of_In.
Qed.

Lemma boundedDepth_pos d m u : boundedDepth d m u = true → (0 < d)%nat.
Proof. destruct d; [done|lia]. Qed.

Lemma treeSize_queue_children D m l kids :
  sum_list_with (λ e : Z * nat, treeSize (D - e.2) m e.1)
    (map (λ c, (c, S l)) kids)
  = sum_list_with (treeSize (D - S l) m) kids.
Proof. induction kids as [|c kids IH]; cbn; [done|]. by rewrite IH. Qed.

(** A queue whose entry at level [l] has depth below [D - l] is emptied
    within as many iterations as the unfoldings of its entries have nodes. *)
Lemma buildLevels_loop_terminates D m n :
  ∀ q lv,
    Forall (λ e : Z * nat, boundedDepth (D - e.2) m e.1 = true) q →
    (sum_list_with (λ e : Z * nat, treeSize (D - e.2) m e.1) q ≤ n)%nat →
    is_Some (buildLevels_loop n m q lv).
Proof.
  induction n as [|n IH]; intros [|[u l] q] lv Hb Hn; cbn [buildLevels_loop];
    try by eexists.
  - apply Forall_cons in Hb as [Hu _]. cbn in Hu, Hn.
    apply boundedDepth_pos in Hu. destruct (D - l)%nat; [lia|]. cbn in Hn. lia.
  - apply Forall_cons in Hb as [Hu Hq]. cbn [fst snd] in Hu.
    cbn [sum_list_with fst snd] in Hn.
    destruct (D - l)%nat as [|d'] eqn:Ed; [done|].
    cbn [boundedDepth] in Hu. cbn [treeSize] in Hn.
    assert (D - S l = d')%nat as Ed' by lia.
    apply IH.
    + apply Forall_app. split; [done|].
      apply Forall_forall. intros [c l'] Hc.
      apply list_elem_of_fmap in Hc as (c' & [= -> ->] & Hc). cbn [fst snd].
      rewrite Ed'. by eapply forallb_elem.
    + rewrite sum_list_with_app, treeSize_queue_children, Ed'. lia.
Qed.

Lemma reachesCycle_child m w :
  reachesCycle m w → ∃ c, c ∈ liveChildren m w ∧ reachesCycle m c.
Proof.
  intros (u & Hr & Hc). apply rtc_inv in Hr as [->|(c & Hwc & Hr)].
  - inversion Hc as [? ? He|? c ? He Hc']; subst.
    + exists u. split; [done|]. exists u. split; [constructor|done].
    + exists c. split; [done|]. exists u. split; [by apply tc_rtc|done].
  - exists c. split; [done|]. by exists u.
Qed.

(** While the queue holds such a node, it never gets empty. *)
Lemma buildLevels_loop_diverges m fuel :
  ∀ q lv, (∃ e, e ∈ q ∧ reachesCycle m e.1) →
          buildLevels_loop fuel m q lv = None.
Proof.
  induction fuel as [|fuel IH]; intros [|[u l] q] lv (e & He & Hbad);
    cbn [buildLevels_loop]; try done.
  - by apply elem_of_nil in He.
  - by apply elem_of_nil in He.
  - apply IH. apply elem_of_cons in He as [->|He].
    + destruct (reachesCycle_child _ _ Hbad) as (c & Hc & Hcb).
      exists (c, S l). split; [|done]. apply elem_of_app. right.
      apply list_elem_of_fmap. by exists c.
    + exists e. split; [|done]. apply elem_of_app. by left.
Qed.

Lemma boundedDepth_false_path d m u :
  boundedDepth d m u = false → ∃ l, length l = d ∧ isPath m u l.
Proof.
  revert u. induction d as [|d IH]; intros u H.
  - by exists [].
  - cbn in H. apply forallb_false in H as (c & Hc & Hf).
    destruct (IH c Hf) as (l & Hl & Hp).
    exists (c :: l). split; [by cbn; rewrite Hl|done].
Qed.

Lemma edge_live m u v : edge m u v → is_Some (m !! v).
Proof. unfold edge, liveChildren. intros H. by apply list_elem_of_filter in H as [? _]. Qed.

Lemma isPath_live m u l v : isPath m u l → v ∈ l → v ∈ dom m.
Proof.
  revert u. induction l as [|a l IH]; intros u Hp Hv; [by apply elem_of_nil in Hv|].
  destruct Hp as [He Hp]. apply elem_of_cons in Hv as [->|Hv].
  - apply elem_of_dom. by eapply edge_live.
  - by eapply IH.
Qed.

Lemma isPath_split m u l1 v l2 :
  isPath m u (l1 ++ v :: l2) → tc (edge m) u v ∧ isPath m v l2.
Proof.
  revert u. induction l1 as [|a l1 IH]; intros u; cbn.
  - intros [He Hp]. split; [by apply tc_once|done].
  - intros [He Hp]. destruct (IH _ Hp) as [Ht Hp']. split; [|done].
    by eapply tc_l.
Qed.

Lemma duplicate_split (l : list Z) :
  ¬ NoDup l → ∃ l1 v l2 l3, l = l1 ++ v :: l2 ++ v :: l3.
Proof.
  induction l as [|a l IH]; intros H.
  - destruct H. constructor.
  - destruct (decide (a ∈ l)) as [Ha|Ha].
    + apply list_elem_of_split in Ha as (l2 & l3 & ->).
      by exists [], a, l2, l3.
    + destruct IH as (l1 & v & l2 & l3 & ->).
      { intros Hn. apply H. by constructor. }
      by exists (a :: l1), v, l2, l3.
Qed.

Lemma NoDup_live_length (m : gmap Z Node) (l : list Z) :
  NoDup l → (∀ v, v ∈ l → v ∈ dom m) → (length l ≤ size m)%nat.
Proof.
  intros Hn Hl.
  rewrite <- (size_dom (D := gset Z) m), <- (size_list_to_set (C := gset Z) l Hn).
  apply subseteq_size. intros v Hv. apply Hl. by apply elem_of_list_to_set in Hv.
Qed.

(** In a store without reachable cycle, no chain from the root has more
    nodes than the store. *)
Lemma acyclic_boundedDepth m root :
  acyclic m root → boundedDepth (S (size m)) m root = true.
Proof.
  intros Ha. destruct (boundedDepth _ _ _) eqn:E; [done|exfalso].
  apply boundedDepth_false_path in E as (l & Hl & Hp).
  destruct (duplicate_split l) as (l1 & v & l2 & l3 & ->).
  { intros Hn. pose proof (NoDup_live_length m l Hn) as Hle.
    specialize (Hle (λ v, isPath_live m root l v Hp)). lia. }
  apply isPath_split in Hp as [Hrv Hp].
  apply isPath_split in Hp as [Hvv _].
  apply (Ha v); [by apply tc_rtc|done].
Qed.

Lemma buildLevels_terminates m root :
  acyclic m root → ∃ fuel, is_Some (buildLevels fuel m root).
Proof.
  intros Ha. apply acyclic_boundedDepth in Ha.
  exists (treeSize (S (size m)) m root).
  apply (buildLevels_loop_terminates (S (size m))).
  - by constructor.
  - cbn [sum_list_with fst snd]. rewrite Nat.sub_0_r. lia.
Qed.

Lemma buildLevels_cycle_diverges m root u fuel :
  rtc (edge m) root u → tc (edge m) u u → buildLevels fuel m root = None.
Proof.
  intros Hr Hc. apply buildLevels_loop_diverges.
  exists (root, O). split; [by left|]. by exists u.
Qed.

Lemma layout_acyclic fuel s : is_Some (layout fuel s) → acyclic (nodes s) (rootPage s).
Proof.
  intros [s' H] u Hr Hc. unfold layout in H.
  destruct (nodes s !! rootPage s) as [n|] eqn:En.
  - case_decide as Hs.
    + apply map_size_empty_iff in Hs. by rewrite Hs in En.
    + by rewrite (buildLevels_cycle_diverges _ _ u fuel Hr Hc) in H.
  - assert (liveChildren (nodes s) (rootPage s) = []) as Hl.
    { unfold liveChildren, childrenOf. by rewrite En. }
    assert (∀ v, ¬ edge (nodes s) (rootPage s) v) as Hne.
    { intros v Hv. unfold edge in Hv. rewrite Hl in Hv. by apply elem_of_nil in Hv. }
    destruct Hr as [|? v ? He _]; [|by apply Hne in He].
    inversion Hc as [? ? He|? v ? He _]; subst; by apply Hne in He.
Qed.

Lemma layout_terminates s :
  acyclic (nodes s) (rootPage s) → ∃ fuel, is_Some (layout fuel s).
Proof.
  intros Ha. destruct (buildLevels_terminates _ _ Ha) as (fuel & r & Hr).
  exists fuel. unfold layout. case_decide; [done|].
  destruct (nodes s !! rootPage s); [|done]. by rewrite Hr.
Qed.

(** With no child reference anywhere one iteration is enough. *)
Lemma childless_liveChildren m u : childless m → liveChildren m u = [].
Proof.
  intros H. unfold liveChildren, childrenOf.
  destruct (m !! u) as [n|] eqn:E; [|done]. by rewrite (H _ _ E).
Qed.

Lemma childless_buildLevels fuel m root :
  childless m → buildLevels (S fuel) m root = Some [[root]].
Proof.
  intros H. unfold buildLevels. cbn.
  rewrite childless_liveChildren by done. by destruct fuel.
Qed.

Lemma childless_layout fuel s :
  childless (nodes s) → is_Some (layout (S fuel) s).
Proof.
  intros H. unfold layout. case_decide; [done|].
  destruct (nodes s !! rootPage s); [|done].
  by rewrite childless_buildLevels.
Qed.

(** ** The state store: Allocate, Insert, Delete *)

Lemma unplaced_lookup_Some (m m' : gmap Z Node) k n :
  unplaced <$> m' = unplaced <$> m → m !! k = Some n →
  ∃ n', m' !! k = Some n' ∧ unplaced n' = unplaced n.
Proof.
  intros H Hk. apply (unplaced_lookup _ _ k) in H. rewrite Hk in H.
  destruct (m' !! k) as [n'|]; cbn in H; [|done].
  exists n'. split; [done|]. congruence.
Qed.

Lemma unplaced_childless (m m' : gmap Z Node) :
  unplaced <$> m' = unplaced <$> m → childless m → childless m'.
Proof.
  intros H Hc k n' Hk. apply symmetry in H.
  destruct (unplaced_lookup_Some _ _ k n' H Hk) as (n & Hn & Hu).
  rewrite <- (Hc k n Hn). by apply (f_equal children) in Hu.
Qed.

Lemma childless_insert m k n :
  childless m → children n = [] → childless (<[k := n]> m).
Proof.
  intros Hc Hn j nj. rewrite lookup_insert. case_decide; [|by apply Hc].
  by intros [= <-].
Qed.

Lemma applyAll_app fuel l1 l2 s :
  applyAll fuel (l1 ++ l2) s = applyAll fuel l1 s ≫= applyAll fuel l2.
Proof.
  revert s. induction l1 as [|r l1 IH]; intros s; cbn; [done|].
  destruct (apply fuel r s); cbn; [apply IH|done].
Qed.

(** What a valid Delete does to the cells of its page. *)
Lemma deleteCell_cells fuel p i s s' n :
  deleteCell fuel p i s = Some s' → nodes s !! p = Some n →
  0 ≤ i < Z.of_nat (length (cells n)) →
  ∃ n', nodes s' !! p = Some n'
        ∧ cells n' = take (Z.to_nat i) (cells n) ++ drop (S (Z.to_nat i)) (cells n).
Proof.
  unfold deleteCell. intros H Hn Hi. rewrite Hn in H.
  apply layout_unplaced in H as [H _]. cbn [nodes set_nodes] in H.
  destruct (unplaced_lookup_Some _ _ p _ H (lookup_insert_eq _ _ _))
    as (n' & Hn' & Hu).
  exists n'. split; [done|].
  apply (f_equal cells) in Hu. cbn in Hu. rewrite Hu. by apply splice_delete_at.
Qed.

(** What a valid Insert does to the cells of its page. *)
Lemma addCell_cells fuel p i len s s' n :
  addCell fuel p i len s = Some s' → nodes s !! p = Some n →
  0 ≤ i ≤ Z.of_nat (length (cells n)) →
  ∃ n', nodes s' !! p = Some n'
        ∧ cells n' = take (Z.to_nat i) (cells n)
                       ++ newCell i len :: drop (Z.to_nat i) (cells n).
Proof.
  unfold addCell. intros H Hn Hi. rewrite Hn in H.
  apply layout_unplaced in H as [H _].
  assert (∀ v, nodes (if showTransitions v then animateInsertion p i v else v)
               = nodes v) as Hh by (intros v; by destruct (showTransitions v)).
  rewrite Hh in H. cbn [nodes set_nodes] in H.
  destruct (unplaced_lookup_Some _ _ p _ H (lookup_insert_eq _ _ _))
    as (n' & Hn' & Hu).
  exists n'. split; [done|].
  apply (f_equal cells) in Hu. cbn in Hu. rewrite Hu. by apply splice_insert_at.
Qed.

(** Allocate, Insert and Delete keep a store free of child references, and
    then always return. *)
Lemma apply_childless fuel r s :
  isCellRecord r = true → childless (nodes s) →
  ∃ s', apply (S fuel) r s = Some s' ∧ childless (nodes s').
Proof.
  intros Hr Hc.
  assert (∀ v, childless (nodes v) →
            ∃ s', layout (S fuel) v = Some s' ∧ childless (nodes s')) as Hlay.
  { intros v Hv. destruct (childless_layout fuel v Hv) as [s' Hs'].
    exists s'. split; [done|]. apply layout_unplaced in Hs' as [Hs' _].
    by eapply unplaced_childless. }
  destruct r as [p k| |p i len|p i|]; try done; cbn [apply].
  - apply Hlay. by apply childless_insert.
  - unfold addCell. destruct (nodes s !! p) as [n|] eqn:En; [|by exists s].
    apply Hlay.
    assert (∀ v, nodes (if showTransitions v then animateInsertion p i v else v)
                 = nodes v) as Hh by (intros v; by destruct (showTransitions v)).
    rewrite Hh. cbn [nodes set_nodes].
    apply childless_insert; [done|]. cbn. by apply (Hc p).
  - unfold deleteCell. destruct (nodes s !! p) as [n|] eqn:En; [|by exists s].
    apply Hlay. cbn [nodes set_nodes].
    assert (nodes (if showTransitions s then animateDeletion p i s else s)
            = nodes s) as -> by (by destruct (showTransitions s)).
    apply childless_insert; [done|]. cbn. by apply (Hc p).
Qed.

Lemma applyAll_childless fuel rs s :
  forallb isCellRecord rs = true → childless (nodes s) →
  ∃ s', applyAll (S fuel) rs s = Some s' ∧ childless (nodes s').
Proof.
  revert s. induction rs as [|r rs IH]; intros s Hrs Hc; [by exists s|].
  cbn in Hrs. apply andb_prop in Hrs as [Hr Hrs].
  destruct (apply_childless fuel r s Hr Hc) as (s1 & H1 & Hc1).
  cbn. rewrite H1. by apply IH.
Qed.

Lemma validFrom_last fuel rs r s s1 :
  validFrom fuel s (rs ++ [r]) → applyAll fuel rs s = Some s1 → valid s1 r.
Proof.
  revert s. induction rs as [|r0 rs IH]; intros s Hv Ha; cbn in *.
  - simplify_eq. by destruct Hv.
  - destruct Hv as [_ Hv]. destruct (apply fuel r0 s) as [s0|]; [|done].
    by apply (IH s0).
Qed.

Lemma newVisualizer_childless w : childless (nodes (newVisualizer w)).
Proof. intros k n H. cbn in H. by rewrite lookup_empty in H. Qed.

Lemma validb_valid s r : validb s r = true → valid s r.
Proof.
  destruct r as [p k|p|p i len|p i|p q i]; cbn; try done.
  - by intros ?%bool_decide_eq_true.
  - destruct (nodes s !! p) as [n|]; [|done]. intros H. exists n. split; [done|lia].
  - destruct (nodes s !! p) as [n|]; [|done]. intros H. exists n. split; [done|lia].
  - destruct (nodes s !! p) as [n|]; [|done]. intros H. exists n. split; [done|lia].
Qed.

Lemma validFromb_validFrom fuel s rs :
  validFromb fuel s rs = true → validFrom fuel s rs.
Proof.
  revert s. induction rs as [|r rs IH]; intros s; [done|].
  cbn [validFromb validFrom]. intros [Hr Hrs]%andb_prop.
  split; [by apply validb_valid|].
  destruct (apply fuel r s); [by apply IH|done].
Qed.

(** C1, as stated, fails on the recorded index: after Allocate(1),
    Insert(1,0), Insert(1,1), Delete(1,0) the surviving cell of page 1 sits
    at position 0 but still records [idx = 1]. *)
Lemma recorded_index_not_renumbered :
  let rs := [Allocate 1 1; Insert 1 0 16; Insert 1 1 16; Delete 1 0] in
  forallb isCellRecord rs = true
  ∧ validFrom 1 (newVisualizer 800) rs
  ∧ ∃ s n, applyAll 1 rs (newVisualizer 800) = Some s
           ∧ nodes s !! 1 = Some n
           ∧ cells n = [{| idx := 1; keyLen := 16; key := "Key1" |}]
           ∧ ¬ indexContiguous n.
Proof.
  split; [done|]. split; [by apply validFromb_validFrom; vm_compute|].
  eexists _, _. split; [by vm_compute|]. split; [by vm_compute|].
  split; [done|]. by unfold indexContiguous.
Qed.

(** C1 (amended): for every valid sequence of Allocate, Insert and Delete
    records applied to the empty store, each Delete returns and leaves the
    cells of its page at the positions [0 .. k-1] without gap, [k] being one
    less than before: the cell at the deleted position is gone, the cells
    before it keep their position, the cells after it move down by one, and
    every surviving cell is the record it was, its [idx] included. *)
Theorem delete_keeps_cells_dense fuel w pre p i :
  forallb isCellRecord pre = true →
  validFrom (S fuel) (newVisualizer w) (pre ++ [Delete p i]) →
  ∃ s n s' n',
    applyAll (S fuel) pre (newVisualizer w) = Some s
    ∧ nodes s !! p = Some n
    ∧ applyAll (S fuel) (pre ++ [Delete p i]) (newVisualizer w) = Some s'
    ∧ nodes s' !! p = Some n'
    ∧ S (length (cells n')) = length (cells n)
    ∧ (∀ j, is_Some (cells n' !! j) ↔ (j < length (cells n'))%nat)
    ∧ (∀ j, (j < Z.to_nat i)%nat → cells n' !! j = cells n !! j)
    ∧ (∀ j, (Z.to_nat i ≤ j)%nat → cells n' !! j = cells n !! S j).
Proof.
  intros Hpre Hv.
  destruct (applyAll_childless fuel pre _ Hpre (newVisualizer_childless w))
    as (s & Hs & Hc).
  pose proof (validFrom_last _ _ _ _ _ Hv Hs) as (n & Hn & Hi).
  destruct (apply_childless fuel (Delete p i) s eq_refl Hc) as (s' & Hs' & _).
  cbn [apply] in Hs'.
  destruct (deleteCell_cells _ _ _ _ _ _ Hs' Hn Hi) as (n' & Hn' & Hcells).
  exists s, n, s', n'. split; [done|]. split; [done|]. split.
  { rewrite applyAll_app, Hs. cbn. by rewrite Hs'. }
  split; [done|].
  assert (length (take (Z.to_nat i) (cells n)) = Z.to_nat i) as Htake
    by (rewrite length_take; lia).
  split; [|split; [|split]].
  - rewrite Hcells, length_app, Htake, length_drop. lia.
  - intros j. apply lookup_lt_is_Some.
  - intros j Hj. rewrite Hcells, lookup_app_l by lia. by apply lookup_take_lt.
  - intros j Hj. rewrite Hcells, lookup_app_r by lia.
    rewrite Htake, lookup_drop. f_equal. lia.
Qed.

Lemma delete_keeps_cells_dense_witness :
  ∃ s n s' n',
    applyAll 1 [Allocate 1 1; Insert 1 0 16; Insert 1 1 16] (newVisualizer 800)
      = Some s
    ∧ nodes s !! 1 = Some n
    ∧ applyAll 1 ([Allocate 1 1; Insert 1 0 16; Insert 1 1 16] ++ [Delete 1 0])
        (newVisualizer 800) = Some s'
    ∧ nodes s' !! 1 = Some n'
    ∧ S (length (cells n')) = length (cells n)
    ∧ (∀ j, is_Some (cells n' !! j) ↔ (j < length (cells n'))%nat)
    ∧ (∀ j, (j < Z.to_nat 0)%nat → cells n' !! j = cells n !! j)
    ∧ (∀ j, (Z.to_nat 0 ≤ j)%nat → cells n' !! j = cells n !! S j).
Proof.
  apply (delete_keeps_cells_dense 0 800
           [Allocate 1 1; Insert 1 0 16; Insert 1 1 16] 1 0); [reflexivity|].
  apply validFromb_validFrom. vm_compute. reflexivity.
Defined.

(** ** Layout of a single root *)

(** The extent of a level is centred in the width. *)
Lemma levelStartX_centred w ks :
  (levelStartX w ks
   + inject_Z (Z.of_nat (length ks) * (nodeWidth + horizontalSpacing)) / 2
   == inject_Z w / 2)%Q.
Proof.
  unfold levelStartX, Z.sub. rewrite inject_Z_plus, inject_Z_opp. field.
Qed.

(** The store after the layout of a single childless root. *)
Lemma layout_single_root_nodes fuel s n :
  nodes s = {[rootPage s := n]} → children n = [] →
  layout (S fuel) s =
    Some (set_nodes
            {[rootPage s :=
                set_position (levelStartX (clientWidth s) [rootPage s])
                  (inject_Z topMargin) n]} s).
Proof.
  intros Hs Hn.
  assert (childless (nodes s)) as Hc.
  { intros k nk. rewrite Hs. intros [_ <-]%lookup_singleton_Some. done. }
  unfold layout. rewrite (childless_buildLevels fuel _ _ Hc).
  rewrite Hs, map_size_singleton, lookup_singleton_eq.
  case_decide; [done|]. cbn [placeLevels placeLevel].
  by rewrite alter_singleton_eq.
Qed.

(** C8: in a store whose only node is the root, without children, [layout]
    returns and puts the root at [y = topMargin] and at the [x] that centres
    the extent of its level, [1 * (nodeWidth + horizontalSpacing)], in the
    drawing width: [x + extent / 2 = clientWidth / 2]. *)
Theorem layout_single_root fuel s n :
  nodes s = {[rootPage s := n]} → children n = [] →
  ∃ s' n',
    layout (S fuel) s = Some s'
    ∧ nodes s' = {[rootPage s := n']}
    ∧ unplaced n' = unplaced n
    ∧ (x n' + inject_Z (1 * (nodeWidth + horizontalSpacing)) / 2
       == inject_Z (clientWidth s) / 2)%Q
    ∧ y n' = inject_Z topMargin.
Proof.
  intros Hs Hn. eexists _, _.
  split; [by apply layout_single_root_nodes|].
  split; [reflexivity|]. split; [done|]. split; [|done].
  cbn [x set_position]. apply (levelStartX_centred _ [rootPage s]).
Qed.

Lemma layout_single_root_witness :
  ∃ s' n',
    layout 1 (set_nodes {[1 := newNode 1 1]} (newVisualizer 800)) = Some s'
    ∧ nodes s' = {[1 := n']}
    ∧ unplaced n' = unplaced (newNode 1 1)
    ∧ (x n' + inject_Z (1 * (nodeWidth + horizontalSpacing)) / 2
       == inject_Z 800 / 2)%Q
    ∧ y n' = inject_Z topMargin.
Proof.
  apply (layout_single_root 0 (set_nodes {[1 := newNode 1 1]} (newVisualizer 800))
           (newNode 1 1)); reflexivity.
Defined.

(** The rectangle of that node is not centred itself: the extent of the
    level includes the spacing to the right of the node. *)
Lemma layout_single_root_rectangle fuel s n s' n' :
  nodes s = {[rootPage s := n]} → children n = [] →
  layout (S fuel) s = Some s' → nodes s' !! rootPage s = Some n' →
  (x n' + inject_Z nodeWidth / 2
   == inject_Z (clientWidth s) / 2 - inject_Z horizontalSpacing / 2)%Q.
Proof.
  intros Hs Hn Hl Hn'.
  rewrite (layout_single_root_nodes fuel s n Hs Hn) in Hl. simplify_eq.
  cbn [nodes set_nodes] in Hn'. rewrite lookup_singleton_eq in Hn'.
  simplify_eq. cbn [x set_position].
  pose proof (levelStartX_centred (clientWidth s) [rootPage s]) as Hc.
  cbn [length] in Hc. change (Z.of_nat 1 * (nodeWidth + horizontalSpacing))
    with (120 + 40) in Hc. rewrite inject_Z_plus in Hc.
  unfold nodeWidth, horizontalSpacing.
  rewrite <- Hc. field.
Qed.

(** ** Termination of the layout: exactly the stores without reachable cycle *)

Lemma buildLevels_acyclic fuel m root :
  is_Some (buildLevels fuel m root) → acyclic m root.
Proof.
  intros [r Hr] u Hu Hc.
  by rewrite (buildLevels_cycle_diverges m root u fuel Hu Hc) in Hr.
Qed.

(** C10: the loop of [buildLevels] has no visited set; it empties its queue,
    and so [layout] returns, exactly when no node that is reachable from the
    root through resolvable child references lies on a cycle of such
    references.  On a reachable cycle no amount of fuel is enough. *)
Theorem layout_terminates_iff_acyclic s :
  ((∃ fuel, is_Some (buildLevels fuel (nodes s) (rootPage s)))
   ↔ acyclic (nodes s) (rootPage s))
  ∧ ((∃ fuel, is_Some (layout fuel s)) ↔ acyclic (nodes s) (rootPage s))
  ∧ (∀ u, rtc (edge (nodes s)) (rootPage s) u → tc (edge (nodes s)) u u →
          ∀ fuel, buildLevels fuel (nodes s) (rootPage s) = None).
Proof.
  split; [|split].
  - split.
    + intros [fuel H]. by eapply buildLevels_acyclic.
    + apply buildLevels_terminates.
  - split.
    + intros [fuel H]. by eapply layout_acyclic.
    + apply layout_terminates.
  - intros u Hu Hc fuel. by eapply buildLevels_cycle_diverges.
Qed.

Lemma elem_of_liveChildren m u v :
  v ∈ liveChildren m u ↔ v ∈ childrenOf m u ∧ is_Some (m !! v).
Proof. unfold liveChildren. by rewrite list_elem_of_filter, (comm and). Qed.

Example twoCycle_never_laid_out fuel : layout fuel twoCycle = None.
Proof.
  assert (edge (nodes twoCycle) 1 2) as H12.
  { apply elem_of_liveChildren. split; [by left|by eexists]. }
  assert (edge (nodes twoCycle) 2 1) as H21.
  { apply elem_of_liveChildren. split; [by left|by eexists]. }
  unfold layout.
  rewrite (buildLevels_cycle_diverges (nodes twoCycle) (rootPage twoCycle) 1 fuel).
  - done.
  - constructor.
  - eapply tc_l; [exact H12|]. by apply tc_once.
Qed.

(** ** The levels of the traversal *)

Lemma levelsOf_lookup m L levels :
  levelsOf m L levels →
  ∀ i Li, levels !! i = Some Li →
    Li ≠ []
    ∧ (levels !! S i = Some (Li ≫= liveChildren m)
       ∨ (levels !! S i = None ∧ Li ≫= liveChildren m = [])).
Proof.
  induction 1 as [|L rest HL Hrest IH]; intros i Li Hi; [done|].
  destruct i as [|i]; cbn in Hi.
  - simplify_eq. split; [done|]. cbn.
    inversion Hrest as [E|? ? ? ? E1 E2]; subst; [by right|by left].
  - by apply IH.
Qed.

(** ** Where the layout leaves an entry *)

Lemma elem_of_concat (ls : list (list Z)) k :
  k ∈ concat ls ↔ ∃ L, L ∈ ls ∧ k ∈ L.
Proof.
  induction ls as [|l ls IH]; cbn.
  - split; [by intros ?%elem_of_nil|]. by intros (L & ?%elem_of_nil & _).
  - rewrite elem_of_app, IH. split.
    + intros [H|(L & HL & H)]; [exists l; split; [by left|done]|].
      exists L. split; [by right|done].
    + intros (L & [->|HL]%elem_of_cons & H); [by left|]. right. by exists L.
Qed.

Lemma placeLevel_other ks cx cy m k :
  k ∉ ks → placeLevel ks cx cy m !! k = m !! k.
Proof.
  revert cx m. induction ks as [|a ks IH]; intros cx m Hk; [done|].
  apply not_elem_of_cons in Hk as [Hka Hk]. cbn [placeLevel].
  rewrite IH by done. by rewrite lookup_alter_ne.
Qed.

Lemma placeLevels_other ls w cy m k :
  k ∉ concat ls → placeLevels ls w cy m !! k = m !! k.
Proof.
  revert cy m. induction ls as [|l ls IH]; intros cy m Hk; [done|].
  cbn in Hk. apply not_elem_of_app in Hk as [Hl Hk]. cbn [placeLevels].
  rewrite IH by done. by apply placeLevel_other.
Qed.

(** The entries of the levels are the starting level and nodes that
    resolve. *)
Lemma levelsOf_entries m L levels v :
  levelsOf m L levels → v ∈ concat levels → v ∈ L ∨ is_Some (m !! v).
Proof.
  induction 1 as [|L rest HL Hrest IH]; cbn; intros Hv.
  - by apply elem_of_nil in Hv.
  - apply elem_of_app in Hv as [Hv|Hv]; [by left|].
    destruct (IH Hv) as [Hb|Hs]; [|by right]. right.
    apply list_elem_of_bind in Hb as (u & Hu & _).
    by apply elem_of_liveChildren in Hu as [_ Hu].
Qed.

(** A later assignment of the coordinates hides the earlier ones. *)
Lemma placeLevel_overwritten ks cx cy m k px py :
  set_position px py <$> (placeLevel ks cx cy m !! k)
  = set_position px py <$> (m !! k).
Proof.
  revert cx m. induction ks as [|a ks IH]; intros cx m; [done|].
  cbn [placeLevel]. rewrite IH.
  destruct (decide (a = k)) as [->|Hak]; [|by rewrite lookup_alter_ne].
  rewrite lookup_alter_eq. by destruct (m !! k).
Qed.

Lemma placeLevels_overwritten ls w cy m k px py :
  set_position px py <$> (placeLevels ls w cy m !! k)
  = set_position px py <$> (m !! k).
Proof.
  revert cy m. induction ls as [|l ls IH]; intros cy m; [done|].
  cbn [placeLevels]. by rewrite IH, placeLevel_overwritten.
Qed.

(** The last slot of [k] in a level decides its [x]. *)
Lemma placeLevel_last ks cx cy m j k :
  ks !! j = Some k → (∀ j', (j < j')%nat → ks !! j' ≠ Some k) →
  ∃ px, placeLevel ks cx cy m !! k = set_position px cy <$> (m !! k)
        ∧ (px == cx + inject_Z (Z.of_nat j * (nodeWidth + horizontalSpacing)))%Q.
Proof.
  revert cx m j. induction ks as [|a ks IH]; intros cx m j Hj Hlast; [done|].
  cbn [placeLevel]. destruct j as [|j]; cbn in Hj.
  - simplify_eq. exists cx. rewrite placeLevel_other.
    + rewrite lookup_alter_eq. split; [done|].
      change (inject_Z (Z.of_nat 0 * (nodeWidth + horizontalSpacing))) with 0%Q.
      by rewrite Qplus_0_r.
    + intros Hin. apply list_elem_of_lookup_1 in Hin as [j' Hj'].
      apply (Hlast (S j')); [lia|done].
  - destruct (IH (cx + inject_Z (nodeWidth + horizontalSpacing))%Q
                (alter (set_position cx cy) a m) j Hj) as (px & Hl & Hpx).
    { intros j' Hlt. apply (Hlast (S j')). lia. }
    exists px. split.
    + rewrite Hl. destruct (decide (a = k)) as [->|Hak];
        [|by rewrite lookup_alter_ne].
      rewrite lookup_alter_eq. by destruct (m !! k).
    + rewrite Hpx. rewrite Nat2Z.inj_succ.
      replace (Z.succ (Z.of_nat j) * (nodeWidth + horizontalSpacing))
        with ((nodeWidth + horizontalSpacing)
              + Z.of_nat j * (nodeWidth + horizontalSpacing)) by lia.
      rewrite (inject_Z_plus (nodeWidth + horizontalSpacing)). ring.
Qed.

(** The last entry of [k] in the levels decides its position. *)
Lemma placeLevels_last ls w cy m l j k :
  lastEntry ls l j k →
  ∃ L px py,
    ls !! l = Some L
    ∧ placeLevels ls w cy m !! k = set_position px py <$> (m !! k)
    ∧ (px == levelStartX w L
             + inject_Z (Z.of_nat j * (nodeWidth + horizontalSpacing)))%Q
    ∧ (py == cy + inject_Z (Z.of_nat l * levelHeight))%Q.
Proof.
  intros (L & Hl & Hj & Hlast & Hlater). exists L.
  revert cy m l Hl Hlater.
  induction ls as [|L0 ls IH]; intros cy m l Hl Hlater; [done|].
  cbn [placeLevels]. destruct l as [|l]; cbn in Hl.
  - simplify_eq.
    destruct (placeLevel_last L (levelStartX w L) cy m j k Hj Hlast)
      as (px & Hp & Hpx).
    exists px, cy. split; [done|]. rewrite placeLevels_other.
    + split; [done|]. split; [done|].
      change (inject_Z (Z.of_nat 0 * levelHeight)) with 0%Q.
      by rewrite Qplus_0_r.
    + intros (L' & HL' & Hk)%elem_of_concat.
      apply list_elem_of_lookup_1 in HL' as [l' Hl'].
      apply (Hlater (S l') L'); [lia|done|done].
  - destruct (IH (cy + inject_Z levelHeight)%Q
                (placeLevel L0 (levelStartX w L0) cy m) l Hl)
      as (px & py & _ & Hp & Hpx & Hpy).
    { intros l' L' Hlt. apply (Hlater (S l')). lia. }
    exists px, py. split; [done|]. split; [|split; [done|]].
    + by rewrite Hp, placeLevel_overwritten.
    + rewrite Hpy, Nat2Z.inj_succ.
      replace (Z.succ (Z.of_nat l) * levelHeight)
        with (levelHeight + Z.of_nat l * levelHeight) by lia.
      rewrite (inject_Z_plus levelHeight). ring.
Qed.

(** C5, as stated, fails for a node with two parents: the traversal enters
    page 4 of [diamond] twice into level 2, and [layout] leaves it at the
    slot of its last entry (x = 400), not of its first (x = 240). *)
Lemma shared_child_placed_twice :
  buildLevels 5 (nodes diamond) (rootPage diamond) = Some [[1]; [2; 3]; [4; 4]]
  ∧ ¬ NoDup (concat [[1]; [2; 3]; [4; 4]])
  ∧ ∃ s' n4, layout 5 diamond = Some s' ∧ nodes s' !! 4 = Some n4
             ∧ (x n4 == 400)%Q.
Proof.
  split; [by vm_compute|]. split.
  - cbn. rewrite !NoDup_cons. intros (_ & _ & _ & H & _). apply H. by left.
  - eexists _, _. split; [by vm_compute|]. split; [by vm_compute|]. done.
Qed.

(** On [diamond] the last entry of page 4 is the slot 1 of level 2. *)
Example diamond_last_entry : lastEntry [[1]; [2; 3]; [4; 4]] 2 1 4.
Proof.
  exists [4; 4]. split; [done|]. split; [done|]. split.
  - intros [|[|j']] Hlt; [lia|lia|done].
  - intros [|[|[|l']]] L' Hlt; [lia|lia|lia|done].
Qed.

(** C5 (amended): on a store without reachable cycle [buildLevels] returns
    the breadth-first levels of the root: level 0 is the root alone, and each
    next level is the concatenation, in the order of the level before, of the
    resolvable children of its entries, in the order the parent lists them,
    until a level has none.  Every discovery is an entry of its own: a node
    reachable along several paths is entered once for each of them.  When
    the root is stored, [layout] returns with the same fuel and leaves every
    entered node at the slot of its last entry: for the last entry [j] of
    the last level [l] that holds the node,
    [x = (clientWidth - count * 160) / 2 + j * 160] and [y = 50 + l * 120],
    [count] being the number of entries of that level; nothing else of the
    node changes. *)
Theorem buildLevels_breadth_first s :
  acyclic (nodes s) (rootPage s) →
  ∃ fuel levels,
    buildLevels fuel (nodes s) (rootPage s) = Some levels
    ∧ levels !! O = Some [rootPage s]
    ∧ (∀ i Li, levels !! i = Some Li →
         Li ≠ []
         ∧ (levels !! S i = Some (Li ≫= liveChildren (nodes s))
            ∨ (levels !! S i = None ∧ Li ≫= liveChildren (nodes s) = [])))
    ∧ (is_Some (nodes s !! rootPage s) →
       ∃ s',
         layout fuel s = Some s'
         ∧ ∀ l j k, lastEntry levels l j k →
             ∃ L n n',
               levels !! l = Some L
               ∧ nodes s !! k = Some n ∧ nodes s' !! k = Some n'
               ∧ unplaced n' = unplaced n
               ∧ (x n' == inject_Z (clientWidth s
                                    - Z.of_nat (length L)
                                      * (nodeWidth + horizontalSpacing)) / 2
                          + inject_Z (Z.of_nat j
                                      * (nodeWidth + horizontalSpacing)))%Q
               ∧ (y n' == inject_Z (topMargin + Z.of_nat l * levelHeight))%Q).
Proof.
  intros Ha.
  destruct (buildLevels_terminates _ _ Ha) as (fuel & levels & H).
  exists fuel, levels. split; [done|].
  pose proof (buildLevels_levels _ _ _ _ H) as Hlv. split; [by inversion Hlv|].
  split; [by eapply levelsOf_lookup|].
  intros [nr Hr]. rewrite layout_unfold, Hr, H. cbn.
  eexists. split; [done|]. intros l j k Hlast. cbn [nodes set_nodes].
  destruct (placeLevels_last levels (clientWidth s) (inject_Z topMargin)
              (nodes s) l j k Hlast) as (L & px & py & Hl & Hp & Hpx & Hpy).
  destruct Hlast as (L' & Hl' & Hj & _). rewrite Hl in Hl'. simplify_eq.
  assert (is_Some (nodes s !! k)) as [n Hn].
  { assert (k ∈ concat levels) as Hin.
    { apply elem_of_concat. exists L'.
      split; by eapply list_elem_of_lookup_2. }
    destruct (levelsOf_entries _ _ _ _ Hlv Hin)
      as [->%list_elem_of_singleton|Hs]; [by eexists|done]. }
  rewrite Hn in Hp. exists L', n, (set_position px py n).
  split; [done|]. split; [done|]. split; [done|]. split; [done|]. cbn.
  split; [done|]. rewrite Hpy, inject_Z_plus. reflexivity.
Qed.

Lemma buildLevels_breadth_first_witness :
  ∃ fuel levels,
    buildLevels fuel (nodes diamond) (rootPage diamond) = Some levels
    ∧ levels !! O = Some [rootPage diamond]
    ∧ (∀ i Li, levels !! i = Some Li →
         Li ≠ []
         ∧ (levels !! S i = Some (Li ≫= liveChildren (nodes diamond))
            ∨ (levels !! S i = None
               ∧ Li ≫= liveChildren (nodes diamond) = [])))
    ∧ (is_Some (nodes diamond !! rootPage diamond) →
       ∃ s',
         layout fuel diamond = Some s'
         ∧ ∀ l j k, lastEntry levels l j k →
             ∃ L n n',
               levels !! l = Some L
               ∧ nodes diamond !! k = Some n ∧ nodes s' !! k = Some n'
               ∧ unplaced n' = unplaced n
               ∧ (x n' == inject_Z (clientWidth diamond
                                    - Z.of_nat (length L)
                                      * (nodeWidth + horizontalSpacing)) / 2
                          + inject_Z (Z.of_nat j
                                      * (nodeWidth + horizontalSpacing)))%Q
               ∧ (y n' == inject_Z (topMargin + Z.of_nat l * levelHeight))%Q).
Proof.
  apply (buildLevels_breadth_first diamond).
  apply (buildLevels_acyclic 5). vm_compute. by eexists.
Defined.

(** ** Free: dangling child references *)

Lemma filter_sublist_impl {A} (P Q : A → Prop)
    `{∀ a, Decision (P a)} `{∀ a, Decision (Q a)} (l : list A) :
  (∀ a, P a → Q a) → filter P l `sublist_of` filter Q l.
Proof.
  intros HPQ. induction l as [|a l IH]; [done|].
  rewrite !filter_cons. destruct (decide (P a)) as [HP|HP].
  - rewrite decide_True by auto. by constructor.
  - destruct (decide (Q a)); [by constructor|done].
Qed.

Lemma shrinks_delete p m : shrinks m (delete p m).
Proof.
  intros u. unfold liveChildren, childrenOf.
  destruct (decide (u = p)) as [->|Hu].
  - rewrite lookup_delete_eq. apply sublist_nil_l.
  - rewrite lookup_delete_ne by done.
    apply filter_sublist_impl. intros c [n Hc].
    apply lookup_delete_Some in Hc as [_ Hc]. by exists n.
Qed.

(** A queue with fewer entries, over a store with fewer resolvable
    references, is emptied within the same fuel. *)
Lemma buildLevels_loop_shrinks m m' fuel :
  shrinks m m' →
  ∀ q q' lv lv', q' `sublist_of` q →
    is_Some (buildLevels_loop fuel m q lv) →
    is_Some (buildLevels_loop fuel m' q' lv').
Proof.
  intros Hm. induction fuel as [|fuel IH]; intros q q' lv lv' Hq [r Hr].
  - destruct q as [|[u l] q]; [|done].
    apply sublist_nil_r in Hq as ->. by eexists.
  - destruct q as [|[u l] q].
    { apply sublist_nil_r in Hq as ->. by eexists. }
    cbn [buildLevels_loop] in Hr.
    apply sublist_cons_r in Hq as [Hq|(q'' & -> & Hq)].
    + destruct (IH _ q' _ lv' (sublist_inserts_r _ _ _ Hq) (mk_is_Some _ _ Hr))
        as [r' Hr'].
      exists r'. eapply buildLevels_loop_mono; [exact Hr'|lia].
    + cbn [buildLevels_loop]. eapply IH; [|by eexists].
      apply sublist_app; [done|]. apply (fmap_sublist _), Hm.
Qed.

Lemma freePage_returns fuel p s :
  is_Some (layout fuel s) → is_Some (freePage fuel p s).
Proof.
  unfold freePage. rewrite !layout_unfold. cbn [nodes set_nodes rootPage].
  intros Hl.
  destruct (delete p (nodes s) !! rootPage s) as [n|] eqn:En; [|done].
  apply lookup_delete_Some in En as [Hne En]. rewrite En in Hl.
  destruct (buildLevels fuel (nodes s) (rootPage s)) as [r|] eqn:Er;
    [|by destruct Hl].
  destruct (buildLevels_loop_shrinks _ _ fuel (shrinks_delete p (nodes s))
              [(rootPage s, O)] [(rootPage s, O)] [] [] (reflexivity _)
              (mk_is_Some _ _ Er)) as [r' Hr'].
  unfold buildLevels. by rewrite Hr'.
Qed.

(** The lines of a node go to its children that resolve, and to no other. *)
Lemma drawConnections_targets m n :
  target <$> drawConnections m n = filter (λ c, is_Some (m !! c)) (children n).
Proof.
  unfold drawConnections. induction (children n) as [|c l IH]; [done|].
  cbn [omap list_omap]. rewrite filter_cons.
  destruct (m !! c) eqn:E; cbn.
  - rewrite decide_True by (by eexists). cbn. by rewrite <- IH.
  - rewrite decide_False by (by intros [? ?]). exact IH.
Qed.

(** C4: [Free(pageId)] (whenever the layout of the store before it returns)
    returns; afterwards no node is stored under [pageId], every other node is
    still there with the child references it had, the one to [pageId]
    included; no node gets a connecting line to [pageId], and the layout
    traversal has no entry for it. *)
Theorem free_leaves_dangling_references fuel s p :
  is_Some (layout fuel s) →
  ∃ s',
    freePage fuel p s = Some s'
    ∧ nodes s' !! p = None
    ∧ (∀ q n, q ≠ p → nodes s !! q = Some n →
         ∃ n', nodes s' !! q = Some n' ∧ children n' = children n)
    ∧ (∀ n, p ∉ target <$> drawConnections (nodes s') n)
    ∧ (is_Some (nodes s' !! rootPage s') →
         ∃ levels, buildLevels fuel (nodes s') (rootPage s') = Some levels
                   ∧ p ∉ concat levels).
Proof.
  intros Hl. destruct (freePage_returns fuel p s Hl) as [s' Hs'].
  exists s'. split; [done|].
  pose proof Hs' as Hfree. unfold freePage in Hs'.
  apply layout_unplaced in Hs' as (Hu & Hroot & _). cbn [nodes set_nodes] in Hu.
  assert (nodes s' !! p = None) as Hp.
  { apply (unplaced_lookup _ _ p) in Hu. rewrite lookup_delete_eq in Hu.
    by destruct (nodes s' !! p). }
  split; [done|]. split; [|split].
  - intros q n Hq Hn.
    destruct (unplaced_lookup_Some _ _ q n Hu) as (n' & Hn' & He).
    { by rewrite lookup_delete_ne. }
    exists n'. split; [done|]. by apply (f_equal children) in He.
  - intros n. rewrite drawConnections_targets.
    intros Hin%list_elem_of_filter. destruct Hin as [[? Hin] _]. congruence.
  - intros Hr. unfold freePage in Hfree. rewrite layout_unfold in Hfree.
    cbn [nodes set_nodes rootPage] in *.
    rewrite Hroot in Hr.
    apply (unplaced_is_Some _ _ (rootPage s) Hu) in Hr. destruct Hr as [nr Hr].
    rewrite Hr in Hfree.
    destruct (buildLevels fuel (delete p (nodes s)) (rootPage s)) as [levels|]
      eqn:El; [|done].
    exists levels. rewrite Hroot.
    rewrite (sameGraph_buildLevels _ _ _ _ (sameGraph_unplaced _ _ Hu)).
    split; [done|]. intros Hin.
    apply buildLevels_levels in El.
    destruct (levelsOf_entries _ _ _ _ El Hin) as [He|[n He]].
    + apply list_elem_of_singleton in He as ->. by rewrite lookup_delete_eq in Hr.
    + by rewrite lookup_delete_eq in He.
Qed.

Lemma free_leaves_dangling_references_witness :
  ∃ s',
    freePage 5 2 parentChild = Some s'
    ∧ nodes s' !! 2 = None
    ∧ (∀ q n, q ≠ 2 → nodes parentChild !! q = Some n →
         ∃ n', nodes s' !! q = Some n' ∧ children n' = children n)
    ∧ (∀ n, 2 ∉ target <$> drawConnections (nodes s') n)
    ∧ (is_Some (nodes s' !! rootPage s') →
         ∃ levels, buildLevels 5 (nodes s') (rootPage s') = Some levels
                   ∧ 2 ∉ concat levels).
Proof.
  apply (free_leaves_dangling_references 5 parentChild 2).
  vm_compute. by eexists.
Defined.

(** On [parentChild], after [Free(2)], page 1 still lists page 2, no line is
    drawn and the traversal stops at the root. *)
Example free_child_of_root :
  ∃ s' n1, freePage 5 2 parentChild = Some s'
           ∧ nodes s' !! 1 = Some n1 ∧ children n1 = [2]
           ∧ drawConnections (nodes s') n1 = []
           ∧ draw_connections (nodes s') = []
           ∧ buildLevels 5 (nodes s') 1 = Some [[1]].
Proof.
  eexists _, _. split; [by vm_compute|]. split; [by vm_compute|].
  split; [done|]. split; [by vm_compute|]. split; by vm_compute.
Qed.

(** ** Click: the [expanded] flag *)

Lemma alter_flip_set_position k j a b (m : gmap Z Node) :
  alter (set_position a b) j (alter flipExpanded k m)
  = alter flipExpanded k (alter (set_position a b) j m).
Proof.
  apply map_eq. intros i. rewrite !lookup_alter.
  repeat case_decide; subst; try done; rewrite ?lookup_alter_eq, ?lookup_alter_ne by done;
    try done.
  by destruct (m !! i).
Qed.

Lemma placeLevel_flip ks cx cy k m :
  placeLevel ks cx cy (alter flipExpanded k m)
  = alter flipExpanded k (placeLevel ks cx cy m).
Proof.
  revert cx m. induction ks as [|j ks IH]; intros cx m; [done|].
  cbn [placeLevel]. by rewrite alter_flip_set_position, IH.
Qed.

Lemma placeLevels_flip ls w cy k m :
  placeLevels ls w cy (alter flipExpanded k m)
  = alter flipExpanded k (placeLevels ls w cy m).
Proof.
  revert cy m. induction ls as [|l ls IH]; intros cy m; [done|].
  cbn [placeLevels]. by rewrite placeLevel_flip, IH.
Qed.

Lemma toggleNodeExpansion_layout fuel s k s0 :
  layout fuel s = Some s0 →
  toggleNodeExpansion fuel k s
  = Some (set_nodes (alter flipExpanded k (nodes s0)) s0).
Proof.
  unfold toggleNodeExpansion. fold flipExpanded.
  rewrite !layout_unfold. cbn [nodes set_nodes rootPage clientWidth].
  rewrite (sameGraph_buildLevels fuel (nodes s) (alter flipExpanded k (nodes s)))
    by (by apply sameGraph_alter).
  intros H. destruct (nodes s !! rootPage s) as [nr|] eqn:Er.
  - destruct (alter flipExpanded k (nodes s) !! rootPage s) as [nr'|] eqn:Er'.
    2: { apply lookup_alter_None in Er'. congruence. }
    destruct (buildLevels fuel (nodes s) (rootPage s)) as [levels|]; [|done].
    cbn in *. simplify_eq. cbn. by rewrite placeLevels_flip.
  - rewrite (proj2 (lookup_alter_None _ _ _ _) Er). by simplify_eq.
Qed.

(** C9, as stated, fails: after the click that collapses the root of
    [parentChild], the layout still enters page 2, the root's subtree, into
    level 1 and positions it there. *)
Lemma collapsed_subtree_still_laid_out :
  ∃ s' n1 n2,
    toggleNodeExpansion 5 1 parentChild = Some s'
    ∧ nodes s' !! 1 = Some n1 ∧ expanded n1 = false
    ∧ buildLevels 5 (nodes s') (rootPage s') = Some [[1]; [2]]
    ∧ nodes s' !! 2 = Some n2
    ∧ (x n2 == 320)%Q ∧ (y n2 == 170)%Q.
Proof.
  eexists _, _, _. split; [by vm_compute|]. split; [by vm_compute|].
  split; [done|]. split; [by vm_compute|]. split; [by vm_compute|]. done.
Qed.

(** C9 (amended): a click on a node flips its [expanded] flag and nothing
    else: the store after it is the store that the layout alone produces,
    with that one flag flipped.  Every node is still in the store, and the
    layout does not read the flag: its levels, and so all positions, are the
    ones of the store before the click. *)
Theorem toggle_flips_flag_only fuel s k :
  is_Some (layout fuel s) →
  ∃ s0 s',
    layout fuel s = Some s0
    ∧ toggleNodeExpansion fuel k s = Some s'
    ∧ s' = set_nodes (alter flipExpanded k (nodes s0)) s0
    ∧ (∀ j, is_Some (nodes s' !! j) ↔ is_Some (nodes s !! j))
    ∧ (∀ n, nodes s !! k = Some n →
         ∃ n', nodes s' !! k = Some n' ∧ expanded n' = negb (expanded n))
    ∧ buildLevels fuel (nodes s') (rootPage s')
      = buildLevels fuel (nodes s) (rootPage s).
Proof.
  intros [s0 H0]. exists s0. eexists. split; [done|].
  split; [by apply toggleNodeExpansion_layout|]. split; [done|].
  apply layout_unplaced in H0 as (Hu & Hroot & _).
  cbn [nodes set_nodes rootPage]. split; [|split].
  - intros j. rewrite lookup_alter_is_Some. by apply unplaced_is_Some.
  - intros n Hn. destruct (unplaced_lookup_Some _ _ k n Hu Hn) as (n0 & Hn0 & He).
    exists (flipExpanded n0). rewrite lookup_alter_eq, Hn0. split; [done|].
    apply (f_equal expanded) in He. cbn in *. by rewrite He.
  - rewrite Hroot. apply sameGraph_buildLevels.
    eapply sameGraph_trans; [by apply sameGraph_unplaced|].
    by apply sameGraph_alter.
Qed.

Lemma toggle_flips_flag_only_witness :
  ∃ s0 s',
    layout 5 parentChild = Some s0
    ∧ toggleNodeExpansion 5 1 parentChild = Some s'
    ∧ s' = set_nodes (alter flipExpanded 1 (nodes s0)) s0
    ∧ (∀ j, is_Some (nodes s' !! j) ↔ is_Some (nodes parentChild !! j))
    ∧ (∀ n, nodes parentChild !! 1 = Some n →
         ∃ n', nodes s' !! 1 = Some n' ∧ expanded n' = negb (expanded n))
    ∧ buildLevels 5 (nodes s') (rootPage s')
      = buildLevels 5 (nodes parentChild) (rootPage parentChild).
Proof.
  apply (toggle_flips_flag_only 5 parentChild 1).
  vm_compute. by eexists.
Defined.

(** ** Split *)

(** Everything [layout] reads but the positions is the same in two stores. *)
Lemma layout_sameGraph fuel s s' :
  sameGraph (nodes s) (nodes s') → rootPage s' = rootPage s →
  is_Some (layout fuel s) → is_Some (layout fuel s').
Proof.
  intros Hg Hr. rewrite !layout_unfold, Hr.
  rewrite (sameGraph_buildLevels _ _ _ _ Hg).
  specialize (Hg (rootPage s)).
  destruct (nodes s' !! rootPage s), (nodes s !! rootPage s); simplify_eq/=; try done.
  by destruct (buildLevels fuel (nodes s) (rootPage s)).
Qed.

Lemma tc_first_step {A} (R : relation A) a b : tc R a b → ∃ c, R a c.
Proof. intros H. destruct H; eauto. Qed.

Lemma liveChildren_insert_leaf m q n :
  children n = [] → liveChildren (<[q := n]> m) q = [].
Proof.
  intros Hn. unfold liveChildren, childrenOf. by rewrite lookup_insert_eq, Hn.
Qed.

Lemma edge_insert_leaf m q n u v :
  children n = [] → edge (<[q := n]> m) u v → u ≠ q ∧ (v ≠ q → edge m u v).
Proof.
  intros Hn He. assert (u ≠ q) as Hu.
  { intros ->. unfold edge in He. rewrite liveChildren_insert_leaf in He by done.
    by apply elem_of_nil in He. }
  split; [done|]. intros Hv. apply elem_of_liveChildren in He as [Hc Hl].
  apply elem_of_liveChildren. unfold childrenOf in *.
  rewrite lookup_insert_ne in Hc by done. rewrite lookup_insert_ne in Hl by done.
  done.
Qed.

(** A fresh node without children closes no cycle. *)
Lemma acyclic_insert_leaf m q n root :
  children n = [] → acyclic m root → acyclic (<[q := n]> m) root.
Proof.
  intros Hn Ha.
  assert (∀ u, rtc (edge (<[q := n]> m)) root u → u ≠ q → rtc (edge m) root u)
    as Hreach.
  { apply (rtc_ind_r (λ u, u ≠ q → rtc (edge m) root u)); [constructor|].
    intros w u Hw He IH Hq. destruct (edge_insert_leaf _ _ _ _ _ Hn He) as [Hwq He'].
    eapply rtc_r; [by apply IH|by apply He']. }
  assert (∀ u v, tc (edge (<[q := n]> m)) u v → v ≠ q → tc (edge m) u v)
    as Hcyc.
  { intros u v Ht. induction Ht as [u v He|u w v He Ht IH]; intros Hq.
    - apply tc_once. by apply (edge_insert_leaf _ _ _ _ _ Hn He).
    - destruct (tc_first_step _ _ _ Ht) as [c Hc].
      destruct (edge_insert_leaf _ _ _ _ _ Hn Hc) as [Hwq _].
      eapply tc_l; [by apply (edge_insert_leaf _ _ _ _ _ Hn He)|by apply IH]. }
  intros u Hu Hc.
  destruct (tc_first_step _ _ _ Hc) as [c Hc'].
  destruct (edge_insert_leaf _ _ _ _ _ Hn Hc') as [Huq _].
  apply (Ha u); [by apply Hreach|by apply Hcyc].
Qed.

(** [splitPage] returns as soon as the layout with the new page does. *)
Lemma splitPage_returns fuel p q i s n :
  nodes s !! p = Some n →
  is_Some (layout fuel (set_nodes (<[q := newNode q (type n)]> (nodes s)) s)) →
  is_Some (splitPage fuel p q i s).
Proof.
  intros Hn Hl. pose proof Hl as [s1 H1].
  unfold splitPage, addPage. rewrite Hn, H1.
  pose proof (layout_unplaced _ _ _ H1) as (Hu & Hroot & _).
  cbn [nodes set_nodes rootPage] in Hu, Hroot.
  destruct (unplaced_lookup_Some _ _ q _ Hu (lookup_insert_eq _ _ _))
    as (nq & Hq & Hnq).
  rewrite Hq, splice_rest.
  refine (layout_sameGraph fuel _ _ _ _ Hl).
  - assert (∀ v, nodes (if showTransitions v then animateSplit p q i v else v)
                 = nodes v) as Hh by (intros v; by destruct (showTransitions v)).
    rewrite Hh. cbn [nodes set_nodes].
    eapply sameGraph_trans; [by apply sameGraph_unplaced|].
    case_decide as Hpq.
    + by apply (sameGraph_insert q nq).
    + eapply sameGraph_trans;
        [apply (sameGraph_alter (set_cells (take (actualStart (length (cells n)) i)
                                              (cells n))) p); done|].
      apply (sameGraph_insert q nq); [|done].
      by rewrite lookup_alter_ne.
  - cbn [rootPage set_nodes]. by destruct (showTransitions _).
Qed.

Lemma animateSplit_nodes p q i v :
  nodes (if showTransitions v then animateSplit p q i v else v) = nodes v.
Proof. by destruct (showTransitions v). Qed.

(** The nodes after a split into another page. *)
Lemma splitPage_nodes fuel p q i s s' n :
  splitPage fuel p q i s = Some s' → nodes s !! p = Some n → p ≠ q →
  unplaced <$> nodes s'
  = unplaced <$>
      <[q := set_cells (drop (actualStart (length (cells n)) i) (cells n))
               (newNode q (type n))]>
        (<[p := set_cells (take (actualStart (length (cells n)) i) (cells n)) n]>
           (nodes s)).
Proof.
  intros H Hn Hpq. unfold splitPage, addPage in H. rewrite Hn in H.
  destruct (layout fuel _) as [s1|] eqn:H1; [|done].
  apply layout_unplaced in H1 as (Hu & _). cbn [nodes set_nodes] in Hu.
  destruct (unplaced_lookup_Some _ _ q _ Hu (lookup_insert_eq _ _ _))
    as (nq & Hq & Hnq).
  rewrite Hq, splice_rest in H. rewrite decide_False in H by done.
  apply layout_unplaced in H as (Hu' & _).
  rewrite animateSplit_nodes in Hu'. cbn [nodes set_nodes] in Hu'.
  rewrite Hu'. apply map_eq. intros j. rewrite !lookup_fmap.
  destruct (decide (j = q)) as [->|Hjq].
  - rewrite !lookup_insert_eq. cbn. f_equal.
    change (unplaced (set_cells ?c ?a)) with (set_cells c (unplaced a)).
    by rewrite Hnq.
  - rewrite !(lookup_insert_ne _ q) by done.
    apply (unplaced_lookup _ _ j) in Hu. rewrite lookup_insert_ne in Hu by done.
    destruct (decide (j = p)) as [->|Hjp].
    + rewrite lookup_alter_eq, lookup_insert_eq. rewrite Hn in Hu.
      destruct (nodes s1 !! p) as [n1|]; [|done]. cbn in *. f_equal.
      change (unplaced (set_cells ?c ?a)) with (set_cells c (unplaced a)).
      congruence.
    + by rewrite lookup_alter_ne, lookup_insert_ne.
Qed.

(** C2, as stated, fails on the recorded index: after [Split(1, 2, 2)] of a
    node with the cells 0..4, the moved cells sit at the positions 0, 1, 2 of
    page 2 and still record [idx] 2, 3, 4.  (It also fails on "only if
    absent": a node that is already stored under the target page is replaced
    by a fresh one, see [split_replaces_target].) *)
Lemma split_keeps_recorded_index :
  ∃ s' n1 n2,
    splitPage 5 1 2 2 fiveCells = Some s'
    ∧ nodes s' !! 1 = Some n1 ∧ nodes s' !! 2 = Some n2
    ∧ idx <$> cells n1 = [0; 1]
    ∧ idx <$> cells n2 = [2; 3; 4]
    ∧ ¬ indexContiguous n2.
Proof.
  eexists _, _, _. split; [by vm_compute|]. split; [by vm_compute|].
  split; [by vm_compute|]. split; [done|]. split; [done|].
  by unfold indexContiguous.
Qed.

(** C2 (amended): on a store without reachable cycle that holds a node under
    [fromPageId], [splitPage(fromPageId, toPageId, splitCellIndex)] with
    another [toPageId] returns (given enough fuel for its layouts) and stores
    a fresh, childless node of the kind of the source under [toPageId],
    whatever was stored there.  Exactly the cells at the positions from the
    (clamped) split index on move to it, in order; the source keeps the cells
    before; every cell keeps its record, its [idx] included, so both nodes
    hold their cells at the positions 0.. without gap while the recorded
    indices are the old ones.  No other node changes but in position. *)
Theorem splitPage_moves_tail s p q i n :
  nodes s !! p = Some n → p ≠ q → acyclic (nodes s) (rootPage s) →
  ∃ f0, ∀ fuel, (f0 ≤ fuel)%nat →
    ∃ s' np nq,
      splitPage fuel p q i s = Some s'
      ∧ nodes s' !! p = Some np ∧ nodes s' !! q = Some nq
      ∧ type nq = type n ∧ children nq = [] ∧ page nq = q
      ∧ cells np = take (actualStart (length (cells n)) i) (cells n)
      ∧ cells nq = drop (actualStart (length (cells n)) i) (cells n)
      ∧ cells np ++ cells nq = cells n
      ∧ (0 ≤ i → actualStart (length (cells n)) i
                 = (Z.to_nat i `min` length (cells n))%nat)
      ∧ (∀ j, j ≠ p → j ≠ q →
           unplaced <$> (nodes s' !! j) = unplaced <$> (nodes s !! j)).
Proof.
  intros Hn Hpq Ha.
  destruct (layout_terminates
              (set_nodes (<[q := newNode q (type n)]> (nodes s)) s))
    as (f0 & s1 & H1).
  { cbn [nodes set_nodes rootPage]. by apply acyclic_insert_leaf. }
  exists f0. intros fuel Hfuel.
  destruct (splitPage_returns fuel p q i s n Hn) as [s' Hs'].
  { exists s1. by eapply layout_mono. }
  pose proof (splitPage_nodes _ _ _ _ _ _ _ Hs' Hn Hpq) as Hu.
  destruct (unplaced_lookup_Some _ _ q _ Hu (lookup_insert_eq _ _ _))
    as (nq & Hq & Hnq).
  destruct (unplaced_lookup_Some _ _ p _ Hu
              (eq_trans (lookup_insert_ne _ _ _ _ (not_eq_sym Hpq))
                        (lookup_insert_eq _ _ _)))
    as (np & Hp & Hnp).
  exists s', np, nq. split; [done|]. split; [done|]. split; [done|].
  pose proof (f_equal type Hnq) as Ht. pose proof (f_equal children Hnq) as Hc.
  pose proof (f_equal page Hnq) as Hpg.
  pose proof (f_equal cells Hnq) as Hcq. pose proof (f_equal cells Hnp) as Hcp.
  cbn in Ht, Hc, Hpg, Hcq, Hcp.
  split; [done|]. split; [done|]. split; [done|]. split; [done|].
  split; [done|]. split; [by rewrite Hcq, Hcp, take_drop|].
  split; [apply actualStart_nonneg|].
  intros j Hjp Hjq. apply (unplaced_lookup _ _ j) in Hu.
  by rewrite !lookup_insert_ne in Hu.
Qed.

Lemma splitPage_moves_tail_witness :
  ∃ f0, ∀ fuel, (f0 ≤ fuel)%nat →
    ∃ s' np nq,
      splitPage fuel 1 2 2 fiveCells = Some s'
      ∧ nodes s' !! 1 = Some np ∧ nodes s' !! 2 = Some nq
      ∧ type nq = 1 ∧ children nq = [] ∧ page nq = 2
      ∧ cells np = take (actualStart 5 2) ((λ i, newCell i 16) <$> [0; 1; 2; 3; 4])
      ∧ cells nq = drop (actualStart 5 2) ((λ i, newCell i 16) <$> [0; 1; 2; 3; 4])
      ∧ cells np ++ cells nq = (λ i, newCell i 16) <$> [0; 1; 2; 3; 4]
      ∧ (0 ≤ 2 → actualStart 5 2 = (Z.to_nat 2 `min` 5)%nat)
      ∧ (∀ j, j ≠ 1 → j ≠ 2 →
           unplaced <$> (nodes s' !! j) = unplaced <$> (nodes fiveCells !! j)).
Proof.
  refine (splitPage_moves_tail fiveCells 1 2 2
            (set_cells ((λ i, newCell i 16) <$> [0; 1; 2; 3; 4]) (newNode 1 1))
            _ _ _).
  - vm_compute. reflexivity.
  - discriminate.
  - apply (layout_acyclic 5). vm_compute. by eexists.
Defined.

(** A node that is already stored under the target page is replaced: its
    cells and child references are gone after the split. *)
Example split_replaces_target :
  ∃ s' n2, splitPage 5 1 2 0 diamond = Some s'
           ∧ nodes diamond !! 2 = Some (linkedNode 2 [4])
           ∧ nodes s' !! 2 = Some n2 ∧ children n2 = [].
Proof.
  eexists _, _. split; [by vm_compute|]. split; [by vm_compute|].
  split; [by vm_compute|]. done.
Qed.

(** ** Highlights *)

Lemma layout_highlights fuel s s' :
  layout fuel s = Some s' →
  highlightedNodes s' = highlightedNodes s ∧ timers s' = timers s
  ∧ clock s' = clock s.
Proof.
  intros H. by apply layout_unplaced in H as (_ & _ & _ & _ & _ & ? & _ & ? & ?).
Qed.

Lemma addCell_highlights fuel p i len s s' n :
  addCell fuel p i len s = Some s' → nodes s !! p = Some n →
  showTransitions s = true →
  highlightedNodes s' = {[p]} ∪ highlightedNodes s
  ∧ timers s' = timers s ++ [highlightTimer 500 [p] s].
Proof.
  unfold addCell. intros H Hn Ht. rewrite Hn in H. cbn [showTransitions set_nodes] in H.
  rewrite Ht in H. apply layout_highlights in H as (-> & -> & _). cbn.
  by rewrite (right_id_L ∅ (∪)).
Qed.

Lemma deleteCell_highlights fuel p i s s' n :
  deleteCell fuel p i s = Some s' → nodes s !! p = Some n →
  showTransitions s = true →
  highlightedNodes s' = {[p]} ∪ highlightedNodes s
  ∧ timers s' = timers s ++ [highlightTimer 500 [p] s].
Proof.
  unfold deleteCell. intros H Hn Ht. rewrite Hn, Ht in H.
  apply layout_highlights in H as (-> & -> & _). cbn.
  by rewrite (right_id_L ∅ (∪)).
Qed.

Lemma splitPage_highlights fuel p q i s s' n :
  splitPage fuel p q i s = Some s' → nodes s !! p = Some n →
  showTransitions s = true →
  highlightedNodes s' = {[p; q]} ∪ highlightedNodes s
  ∧ timers s' = timers s ++ [highlightTimer 1000 [p; q] s].
Proof.
  unfold splitPage, addPage. intros H Hn Ht. rewrite Hn in H.
  destruct (layout fuel _) as [s1|] eqn:H1; [|done].
  apply layout_unplaced in H1 as (Hu & _ & _ & Ht1 & Hsp & Hh1 & _ & Hc1 & Htm1).
  cbn in Ht1, Hsp, Hh1, Hc1, Htm1.
  destruct (unplaced_lookup_Some _ _ q _ Hu (lookup_insert_eq _ _ _))
    as (nq & Hq & _).
  rewrite Hq, splice_rest in H. cbn [showTransitions set_nodes] in H.
  rewrite Ht1, Ht in H.
  apply layout_highlights in H as (-> & -> & _). cbn.
  rewrite Hh1, Htm1, Hc1, Hsp. by rewrite (right_id_L ∅ (∪)).
Qed.

(** After the clock has reached [now], a page is highlighted when it was and
    no timer that is due by then names it. *)
Lemma advance_highlighted now s p :
  p ∈ highlightedNodes (advance now s)
  ↔ p ∈ highlightedNodes s
    ∧ ∀ t, t ∈ timers s → p ∈ targets t → ¬ (due t <= now)%Q.
Proof.
  unfold advance. cbn. rewrite elem_of_difference, elem_of_list_to_set.
  split; intros [Hp Ht]; (split; [done|]).
  - intros t Hin Hpt Hdue. apply Ht. apply list_elem_of_bind. exists t.
    split; [done|]. apply list_elem_of_filter. split; [|done].
    by apply Qle_bool_iff.
  - intros (t & Hpt & Hin)%list_elem_of_bind.
    apply list_elem_of_filter in Hin as [Hdue Hin].
    apply (Ht t Hin Hpt). by apply Qle_bool_iff.
Qed.

Lemma highlightTimer_speed_1 base pages s :
  (animationSpeed s == 1)%Q → (0 <= base)%Q →
  (due (highlightTimer base pages s) == clock s + base)%Q.
Proof.
  intros Hs Hb. cbn. rewrite Hs.
  assert (base / 1 == base)%Q as -> by field.
  by rewrite Q.max_r.
Qed.

(** C6, as stated, fails on an Insert that addresses no node: [addCell]
    returns before it highlights anything.  It also fails when highlights of
    one page overlap: the timer of the Insert at time 0 removes page 1 from
    the set at time 500, so the highlight that the Insert at time 450 creates
    is not active at 450 + 100. *)
Lemma no_highlight_without_node :
  (showTransitions (newVisualizer 800) = true
   ∧ ∃ s', addCell 5 7 0 16 (newVisualizer 800) = Some s'
           ∧ highlightedNodes s' = ∅ ∧ timers s' = [])
  ∧ ∃ s1 s3,
      addCell 5 1 0 16 oneLeaf = Some s1
      ∧ addCell 5 1 1 16 (advance 450 s1) = Some s3
      ∧ clock (advance 450 s1) = 450%Q
      ∧ highlightedNodes s3 = {[1]}
      ∧ highlightedNodes (advance 550 s3) = ∅.
Proof.
  split.
  - split; [done|]. eexists. split; [by vm_compute|]. done.
  - eexists _, _. split; [by vm_compute|]. split; [by vm_compute|].
    split; [done|]. split; by vm_compute.
Qed.

(** C6 (amended): with transitions enabled, an Insert or a Delete on a page
    that is in the store adds the page to the highlight set and schedules
    exactly one removal, [500 / animationSpeed] after the current time; a
    Split from such a page adds the old and the new page and schedules one
    removal of both, [1000 / animationSpeed] after the current time.  A page
    stays highlighted until a removal that names it is due, [now - start >=
    duration / animationSpeed].  So a highlight created at time T by an
    Insert at speed 1, on a page that no pending removal names, is active at
    T + 100 and gone at T + 600. *)
Theorem highlights_of_mutations fuel s p n :
  childless (nodes s) → showTransitions s = true → nodes s !! p = Some n →
  (∀ i len, ∃ s',
      addCell (S fuel) p i len s = Some s'
      ∧ highlightedNodes s' = {[p]} ∪ highlightedNodes s
      ∧ timers s' = timers s ++ [highlightTimer 500 [p] s])
  ∧ (∀ i, ∃ s',
      deleteCell (S fuel) p i s = Some s'
      ∧ highlightedNodes s' = {[p]} ∪ highlightedNodes s
      ∧ timers s' = timers s ++ [highlightTimer 500 [p] s])
  ∧ (∀ q i, ∃ s',
      splitPage (S fuel) p q i s = Some s'
      ∧ highlightedNodes s' = {[p; q]} ∪ highlightedNodes s
      ∧ timers s' = timers s ++ [highlightTimer 1000 [p; q] s])
  ∧ (∀ s' now r,
      r ∈ highlightedNodes (advance now s')
      ↔ r ∈ highlightedNodes s'
        ∧ ∀ t, t ∈ timers s' → r ∈ targets t → ¬ (due t <= now)%Q)
  ∧ ((animationSpeed s == 1)%Q →
     (∀ t, t ∈ timers s → p ∉ targets t) →
     ∀ i len, ∃ s',
       addCell (S fuel) p i len s = Some s'
       ∧ p ∈ highlightedNodes (advance (clock s + 100) s')
       ∧ p ∉ highlightedNodes (advance (clock s + 600) s')).
Proof.
  intros Hc Ht Hn.
  assert (∀ i len, ∃ s',
      addCell (S fuel) p i len s = Some s'
      ∧ highlightedNodes s' = {[p]} ∪ highlightedNodes s
      ∧ timers s' = timers s ++ [highlightTimer 500 [p] s]) as Hins.
  { intros i len.
    destruct (apply_childless fuel (Insert p i len) s eq_refl Hc) as (s' & Hs' & _).
    exists s'. split; [done|]. by eapply addCell_highlights. }
  split; [done|]. split; [|split; [|split]].
  - intros i.
    destruct (apply_childless fuel (Delete p i) s eq_refl Hc) as (s' & Hs' & _).
    exists s'. split; [done|]. by eapply deleteCell_highlights.
  - intros q i. destruct (splitPage_returns (S fuel) p q i s n Hn) as [s' Hs'].
    { apply childless_layout. cbn [nodes set_nodes]. by apply childless_insert. }
    exists s'. split; [done|]. by eapply splitPage_highlights.
  - intros s' now r. apply advance_highlighted.
  - intros Hsp Hfree i len. destruct (Hins i len) as (s' & Hs' & Hh & Htm).
    exists s'. split; [done|].
    pose proof (highlightTimer_speed_1 500 [p] s Hsp) as Hdue.
    rewrite !advance_highlighted, Hh, Htm. split.
    + split; [apply elem_of_union; left; by apply elem_of_singleton|].
      intros t [Hin|Hin]%elem_of_app Hp.
      * by apply Hfree in Hin.
      * apply list_elem_of_singleton in Hin as ->. lra.
    + intros [_ Hno]. apply (Hno (highlightTimer 500 [p] s)).
      * apply elem_of_app. right. by left.
      * by left.
      * lra.
Qed.

Lemma highlights_of_mutations_witness :
  (∀ i len, ∃ s',
      addCell 1 1 i len oneLeaf = Some s'
      ∧ highlightedNodes s' = {[1]} ∪ highlightedNodes oneLeaf
      ∧ timers s' = timers oneLeaf ++ [highlightTimer 500 [1] oneLeaf])
  ∧ (∀ i, ∃ s',
      deleteCell 1 1 i oneLeaf = Some s'
      ∧ highlightedNodes s' = {[1]} ∪ highlightedNodes oneLeaf
      ∧ timers s' = timers oneLeaf ++ [highlightTimer 500 [1] oneLeaf])
  ∧ (∀ q i, ∃ s',
      splitPage 1 1 q i oneLeaf = Some s'
      ∧ highlightedNodes s' = {[1; q]} ∪ highlightedNodes oneLeaf
      ∧ timers s' = timers oneLeaf ++ [highlightTimer 1000 [1; q] oneLeaf])
  ∧ (∀ s' now r,
      r ∈ highlightedNodes (advance now s')
      ↔ r ∈ highlightedNodes s'
        ∧ ∀ t, t ∈ timers s' → r ∈ targets t → ¬ (due t <= now)%Q)
  ∧ ((animationSpeed oneLeaf == 1)%Q →
     (∀ t, t ∈ timers oneLeaf → 1 ∉ targets t) →
     ∀ i len, ∃ s',
       addCell 1 1 i len oneLeaf = Some s'
       ∧ 1 ∈ highlightedNodes (advance (clock oneLeaf + 100) s')
       ∧ 1 ∉ highlightedNodes (advance (clock oneLeaf + 600) s')).
Proof.
  refine (highlights_of_mutations 0 oneLeaf 1 (newNode 1 1) _ _ _).
  - exact (childless_insert ∅ 1 (newNode 1 1) (newVisualizer_childless 0) eq_refl).
  - reflexivity.
  - vm_compute. reflexivity.
Defined.

(** ** The event intake *)

Lemma connectEvents_listeners :
  listeners (connectEvents newEventManager)
  = <[inl 4 := [OnBtreeSplit]]>
      (<[inl 3 := [OnBtreeDelete]]>
         (<[inl 2 := [OnBtreeInsert]]>
            (<[inl 7 := [OnPageFree]]>
               (<[inl 6 := [OnPageAllocate]]>
                  (<[inl 0 := [OnBtreeOpen]]> ∅))))).
Proof. by vm_compute. Qed.


Lemma listeners_wildcard :
  listeners (connectEvents newEventManager) !! inr () = None.
Proof. rewrite connectEvents_listeners. by rewrite !lookup_insert_ne. Qed.





(** What [handleEvent] does on a payload that [JSON.parse] rejects. *)
Lemma handleEvent_unparseable fuel now eventType dataJson w :
  JSON.parse dataJson = None →
  handleEvent fuel now eventType dataJson w
  = (set_eventManager
       {| events := events (eventManager w);
          listeners := listeners (eventManager w);
          eventCount := eventCount (eventManager w) + 1;
          autoScroll := autoScroll (eventManager w) |} w,
     Throw SyntaxError).
Proof.
  intros H. unfold handleEvent, nextEventId, mbind, M_bind. by rewrite H.
Qed.

(** C3, as stated, fails: on the payload ["{"] (for an Insert, code 2)
    [handleEvent] ends by throwing the [SyntaxError] of [JSON.parse] to its
    caller. *)
Lemma malformed_payload_throws :
  JSON.parse "{" = None
  ∧ (handleEvent 5 0 2 "{" (newApp 800)).2 = Throw SyntaxError.
Proof. split; by vm_compute. Qed.

(** C3 (amended): when the payload is not parseable, [handleEvent] throws
    [JSON.parse]'s [SyntaxError] to its caller; nothing catches it and
    nothing is logged.  The record is discarded: it is not stored, no
    listener runs, and the visualizer (the State Store and the highlights)
    is unchanged; only the event counter has advanced.  The event manager is
    left ready for the next event. *)
Theorem unparseable_payload_throws fuel now eventType dataJson w :
  JSON.parse dataJson = None →
  ∃ w',
    handleEvent fuel now eventType dataJson w = (w', Throw SyntaxError)
    ∧ visualizer w' = visualizer w
    ∧ eventLog w' = eventLog w
    ∧ events (eventManager w') = events (eventManager w)
    ∧ listeners (eventManager w') = listeners (eventManager w)
    ∧ eventCount (eventManager w') = eventCount (eventManager w) + 1.
Proof.
  intros H. eexists. split; [by apply handleEvent_unparseable|]. done.
Qed.

Lemma unparseable_payload_throws_witness :
  ∃ w',
    handleEvent 5 0 2 "{" (newApp 800) = (w', Throw SyntaxError)
    ∧ visualizer w' = visualizer (newApp 800)
    ∧ eventLog w' = eventLog (newApp 800)
    ∧ events (eventManager w') = events (eventManager (newApp 800))
    ∧ listeners (eventManager w') = listeners (eventManager (newApp 800))
    ∧ eventCount (eventManager w') = eventCount (eventManager (newApp 800)) + 1.
Proof.
  apply (unparseable_payload_throws 5 0 2 "{" (newApp 800)).
  vm_compute. reflexivity.
Defined.




(** * Further properties of the code *)

(** ** Insert and Delete at any index *)

Lemma addCell_nodes fuel p i len s s' n :
  addCell fuel p i len s = Some s' → nodes s !! p = Some n →
  unplaced <$> nodes s'
  = unplaced <$>
      <[p := set_cells (splice (cells n) i (Some 0) [newCell i len]).1 n]>
        (nodes s).
Proof.
  unfold addCell. intros H Hn. rewrite Hn in H.
  apply layout_unplaced in H as [H _].
  by destruct (showTransitions _) in H.
Qed.

Lemma deleteCell_nodes fuel p i s s' n :
  deleteCell fuel p i s = Some s' → nodes s !! p = Some n →
  unplaced <$> nodes s'
  = unplaced <$> <[p := set_cells (splice (cells n) i (Some 1) []).1 n]> (nodes s).
Proof.
  unfold deleteCell. intros H Hn. rewrite Hn in H.
  apply layout_unplaced in H as [H _].
  by destruct (showTransitions s) in H.
Qed.

(** Insert and Delete on a page of the store return within the fuel that the
    layout of the store before them needs. *)
Lemma addCell_returns fuel p i len s :
  is_Some (layout fuel s) → is_Some (addCell fuel p i len s).
Proof.
  intros Hl. unfold addCell. destruct (nodes s !! p) as [n|] eqn:Hn; [|done].
  refine (layout_sameGraph fuel s _ _ _ Hl).
  - assert (∀ v, nodes (if showTransitions v then animateInsertion p i v else v)
                 = nodes v) as -> by (intros v; by destruct (showTransitions v)).
    by apply (sameGraph_insert p n).
  - by destruct (showTransitions _).
Qed.

Lemma deleteCell_returns fuel p i s :
  is_Some (layout fuel s) → is_Some (deleteCell fuel p i s).
Proof.
  intros Hl. unfold deleteCell. destruct (nodes s !! p) as [n|] eqn:Hn; [|done].
  refine (layout_sameGraph fuel s _ _ _ Hl).
  - cbn [nodes set_nodes].
    assert (nodes (if showTransitions s then animateDeletion p i s else s)
            = nodes s) as -> by (by destruct (showTransitions s)).
    by apply (sameGraph_insert p n).
  - by destruct (showTransitions s).
Qed.

(** X1: an Insert at a position of the page puts the new cell there: the
    cells before keep their position, the cells from there on move up by one,
    and no other node changes but in position. *)
Theorem addCell_inserts_at fuel s p i len n :
  is_Some (layout fuel s) → nodes s !! p = Some n →
  0 ≤ i ≤ Z.of_nat (length (cells n)) →
  ∃ s' n',
    addCell fuel p i len s = Some s'
    ∧ nodes s' !! p = Some n'
    ∧ length (cells n') = S (length (cells n))
    ∧ cells n' !! Z.to_nat i
      = Some {| idx := i; keyLen := len; key := "Key" +:+ pretty i |}
    ∧ (∀ j, (j < Z.to_nat i)%nat → cells n' !! j = cells n !! j)
    ∧ (∀ j, (Z.to_nat i ≤ j)%nat → cells n' !! S j = cells n !! j)
    ∧ (∀ k, k ≠ p → unplaced <$> (nodes s' !! k) = unplaced <$> (nodes s !! k)).
Proof.
  intros Hl Hn Hi. destruct (addCell_returns fuel p i len s Hl) as [s' Hs'].
  destruct (addCell_cells _ _ _ _ _ _ _ Hs' Hn Hi) as (n' & Hn' & Hc).
  exists s', n'. split; [done|]. split; [done|].
  assert (length (take (Z.to_nat i) (cells n)) = Z.to_nat i) as Htake
    by (rewrite length_take; lia).
  split; [|split; [|split; [|split]]].
  - rewrite Hc, length_app, Htake. cbn. rewrite length_drop. lia.
  - rewrite Hc, lookup_app_r by lia. by rewrite Htake, Nat.sub_diag.
  - intros j Hj. rewrite Hc, lookup_app_l by lia. by apply lookup_take_lt.
  - intros j Hj. rewrite Hc, lookup_app_r by lia. rewrite Htake.
    replace (S j - Z.to_nat i)%nat with (S (j - Z.to_nat i)) by lia.
    change ((newCell i len :: ?l) !! S ?k) with (l !! k).
    rewrite lookup_drop. f_equal. lia.
  - intros k Hk. pose proof (addCell_nodes _ _ _ _ _ _ _ Hs' Hn) as Hu.
    apply (unplaced_lookup _ _ k) in Hu. by rewrite lookup_insert_ne in Hu.
Qed.

Lemma addCell_inserts_at_witness :
  ∃ s' n',
    addCell 5 1 2 16 fiveCells = Some s'
    ∧ nodes s' !! 1 = Some n'
    ∧ length (cells n') = 6%nat
    ∧ cells n' !! Z.to_nat 2
      = Some {| idx := 2; keyLen := 16; key := "Key" +:+ pretty 2 |}
    ∧ (∀ j, (j < Z.to_nat 2)%nat →
         cells n' !! j = ((λ i, newCell i 16) <$> [0; 1; 2; 3; 4]) !! j)
    ∧ (∀ j, (Z.to_nat 2 ≤ j)%nat →
         cells n' !! S j = ((λ i, newCell i 16) <$> [0; 1; 2; 3; 4]) !! j)
    ∧ (∀ k, k ≠ 1 →
         unplaced <$> (nodes s' !! k) = unplaced <$> (nodes fiveCells !! k)).
Proof.
  refine (addCell_inserts_at 5 fiveCells 1 2 16
            (set_cells ((λ i, newCell i 16) <$> [0; 1; 2; 3; 4]) (newNode 1 1))
            _ _ _).
  - vm_compute. by eexists.
  - vm_compute. reflexivity.
  - cbn. lia.
Defined.

(** X2: on a store without reachable cycle of child references, a Delete
    on a stored page returns for every integer index, also one that is no
    position of the page, and still highlights the page.  An index at or
    past the end removes nothing; a negative index counts from the end, so
    [-1] removes the last cell, and an index below [-length] removes the
    first. *)
Theorem deleteCell_any_index s p i n :
  acyclic (nodes s) (rootPage s) → nodes s !! p = Some n →
  ∃ f0, ∀ fuel, (f0 ≤ fuel)%nat →
    ∃ s' n',
      deleteCell fuel p i s = Some s'
      ∧ nodes s' !! p = Some n'
      ∧ (Z.of_nat (length (cells n)) ≤ i → cells n' = cells n)
      ∧ (- Z.of_nat (length (cells n)) ≤ i < 0 →
         cells n'
         = delete (Z.to_nat (Z.of_nat (length (cells n)) + i)) (cells n))
      ∧ (i < - Z.of_nat (length (cells n)) → cells n' = drop 1 (cells n))
      ∧ (showTransitions s = true → p ∈ highlightedNodes s').
Proof.
  intros Ha Hn. destruct (layout_terminates s Ha) as (f0 & s0 & H0).
  exists f0. intros fuel Hf.
  assert (is_Some (layout fuel s)) as Hl
    by (exists s0; by apply (layout_mono f0)).
  destruct (deleteCell_returns fuel p i s Hl) as [s' Hs'].
  pose proof (deleteCell_nodes _ _ _ _ _ _ Hs' Hn) as Hu.
  destruct (unplaced_lookup_Some _ _ p _ Hu (lookup_insert_eq _ _ _))
    as (n' & Hn' & He).
  apply (f_equal cells) in He. cbn in He.
  exists s', n'. split; [done|]. split; [done|].
  unfold splice, actualDeleteCount, actualStart in He. cbn [fst] in He.
  split; [|split; [|split]].
  - intros Hi. rewrite He.
    destruct (Z.ltb_spec i 0); [lia|].
    replace (Z.to_nat (Z.min i _)) with (length (cells n)) by lia.
    rewrite take_ge, drop_ge by lia. by rewrite app_nil_r.
  - intros Hi. rewrite He.
    destruct (Z.ltb_spec i 0); [|lia].
    replace (Z.to_nat (Z.max _ 0)) with (Z.to_nat (Z.of_nat (length (cells n)) + i))
      by lia.
    replace (Z.to_nat (Z.min _ _)) with 1%nat by lia.
    rewrite Nat.add_1_r. symmetry. apply delete_take_drop.
  - intros Hi. rewrite He.
    destruct (Z.ltb_spec i 0); [|lia].
    replace (Z.to_nat (Z.max _ 0)) with O by lia.
    destruct (cells n) as [|c cs]; [done|].
    replace (Z.to_nat (Z.min _ _)) with 1%nat by (cbn [length]; lia). done.
  - intros Ht. destruct (deleteCell_highlights _ _ _ _ _ _ Hs' Hn Ht) as [-> _].
    apply elem_of_union. left. by apply elem_of_singleton.
Qed.

Lemma deleteCell_any_index_witness :
  ∃ f0, ∀ fuel, (f0 ≤ fuel)%nat →
    ∃ s' n',
      deleteCell fuel 1 (-1) fiveCells = Some s'
      ∧ nodes s' !! 1 = Some n'
      ∧ (Z.of_nat 5 ≤ -1 → cells n' = (λ i, newCell i 16) <$> [0; 1; 2; 3; 4])
      ∧ (- Z.of_nat 5 ≤ -1 < 0 →
         cells n' = delete (Z.to_nat (Z.of_nat 5 + -1))
                      ((λ i, newCell i 16) <$> [0; 1; 2; 3; 4]))
      ∧ (-1 < - Z.of_nat 5 →
         cells n' = drop 1 ((λ i, newCell i 16) <$> [0; 1; 2; 3; 4]))
      ∧ (showTransitions fiveCells = true → 1 ∈ highlightedNodes s').
Proof.
  refine (deleteCell_any_index fiveCells 1 (-1)
            (set_cells ((λ i, newCell i 16) <$> [0; 1; 2; 3; 4]) (newNode 1 1))
            _ _).
  - apply (layout_acyclic 5). vm_compute. by eexists.
  - vm_compute. reflexivity.
Defined.

(** ** Allocate over an existing page, Split onto the source page *)

(** X3: [addPage] on a store without reachable cycle returns and stores an
    empty, childless, expanded node of the given type under the page, also
    when a node was stored there before (its cells and child references are
    gone); the other nodes change in position at most, and the highlights
    not at all. *)
Theorem addPage_replaces s p t :
  acyclic (nodes s) (rootPage s) →
  ∃ f0, ∀ fuel, (f0 ≤ fuel)%nat →
    ∃ s' n',
      addPage fuel p t s = Some s'
      ∧ nodes s' !! p = Some n'
      ∧ page n' = p ∧ type n' = t ∧ cells n' = [] ∧ children n' = []
      ∧ expanded n' = true
      ∧ (∀ k, k ≠ p → unplaced <$> (nodes s' !! k) = unplaced <$> (nodes s !! k))
      ∧ highlightedNodes s' = highlightedNodes s ∧ timers s' = timers s.
Proof.
  intros Ha.
  destruct (layout_terminates (set_nodes (<[p := newNode p t]> (nodes s)) s))
    as (f0 & s1 & H1).
  { cbn [nodes set_nodes rootPage]. by apply acyclic_insert_leaf. }
  exists f0. intros fuel Hf. apply (layout_mono _ fuel) in H1; [|done].
  pose proof (layout_unplaced _ _ _ H1) as (Hu & _ & _ & _ & _ & Hh & _ & _ & Ht).
  cbn [nodes set_nodes] in Hu.
  destruct (unplaced_lookup_Some _ _ p _ Hu (lookup_insert_eq _ _ _))
    as (n' & Hn' & He).
  exists s1, n'. split; [done|]. split; [done|].
  pose proof (f_equal page He). pose proof (f_equal type He).
  pose proof (f_equal cells He). pose proof (f_equal children He).
  pose proof (f_equal expanded He).
  do 5 (split; [done|]). split; [|done].
  intros k Hk. apply (unplaced_lookup _ _ k) in Hu.
  by rewrite lookup_insert_ne in Hu.
Qed.

Lemma addPage_replaces_witness :
  ∃ f0, ∀ fuel, (f0 ≤ fuel)%nat →
    ∃ s' n',
      addPage fuel 1 0 fiveCells = Some s'
      ∧ nodes s' !! 1 = Some n'
      ∧ page n' = 1 ∧ type n' = 0 ∧ cells n' = [] ∧ children n' = []
      ∧ expanded n' = true
      ∧ (∀ k, k ≠ 1 →
           unplaced <$> (nodes s' !! k) = unplaced <$> (nodes fiveCells !! k))
      ∧ highlightedNodes s' = highlightedNodes fiveCells
      ∧ timers s' = timers fiveCells.
Proof.
  apply (addPage_replaces fiveCells 1 0).
  apply (layout_acyclic 5). vm_compute. by eexists.
Defined.

Lemma splitPage_self_nodes fuel p i s s' n :
  splitPage fuel p p i s = Some s' → nodes s !! p = Some n →
  unplaced <$> nodes s'
  = unplaced <$>
      <[p := set_cells (drop (actualStart (length (cells n)) i) (cells n))
               (newNode p (type n))]> (nodes s).
Proof.
  intros H Hn. unfold splitPage, addPage in H. rewrite Hn in H.
  destruct (layout fuel _) as [s1|] eqn:H1; [|done].
  apply layout_unplaced in H1 as (Hu & _). cbn [nodes set_nodes] in Hu.
  destruct (unplaced_lookup_Some _ _ p _ Hu (lookup_insert_eq _ _ _))
    as (nq & Hq & Hnq).
  rewrite Hq, splice_rest in H. rewrite decide_True in H by done.
  apply layout_unplaced in H as (Hu' & _).
  rewrite animateSplit_nodes in Hu'. cbn [nodes set_nodes] in Hu'.
  rewrite Hu'. apply map_eq. intros j. rewrite !lookup_fmap.
  destruct (decide (j = p)) as [->|Hj].
  - rewrite !lookup_insert_eq. cbn. f_equal.
    change (unplaced (set_cells ?c ?a)) with (set_cells c (unplaced a)).
    by rewrite Hnq.
  - rewrite !lookup_insert_ne by done.
    apply (unplaced_lookup _ _ j) in Hu. by rewrite lookup_insert_ne in Hu.
Qed.

(** X4: a Split whose target is the source page itself leaves, under that
    page, a fresh childless node that holds only the cells from the split
    index on: the cells before it and the child references of the page are
    lost. *)
Theorem splitPage_onto_itself s p i n :
  nodes s !! p = Some n → acyclic (nodes s) (rootPage s) →
  ∃ f0, ∀ fuel, (f0 ≤ fuel)%nat →
    ∃ s' n',
      splitPage fuel p p i s = Some s'
      ∧ nodes s' !! p = Some n'
      ∧ cells n' = drop (actualStart (length (cells n)) i) (cells n)
      ∧ children n' = [] ∧ type n' = type n
      ∧ (∀ k, k ≠ p → unplaced <$> (nodes s' !! k) = unplaced <$> (nodes s !! k)).
Proof.
  intros Hn Ha.
  destruct (layout_terminates
              (set_nodes (<[p := newNode p (type n)]> (nodes s)) s))
    as (f0 & s1 & H1).
  { cbn [nodes set_nodes rootPage]. by apply acyclic_insert_leaf. }
  exists f0. intros fuel Hf.
  destruct (splitPage_returns fuel p p i s n Hn) as [s' Hs'].
  { exists s1. by eapply layout_mono. }
  pose proof (splitPage_self_nodes _ _ _ _ _ _ Hs' Hn) as Hu.
  destruct (unplaced_lookup_Some _ _ p _ Hu (lookup_insert_eq _ _ _))
    as (n' & Hn' & He).
  exists s', n'. split; [done|]. split; [done|].
  pose proof (f_equal cells He). pose proof (f_equal children He).
  pose proof (f_equal type He).
  do 3 (split; [done|]).
  intros k Hk. apply (unplaced_lookup _ _ k) in Hu.
  by rewrite lookup_insert_ne in Hu.
Qed.

Lemma splitPage_onto_itself_witness :
  ∃ f0, ∀ fuel, (f0 ≤ fuel)%nat →
    ∃ s' n',
      splitPage fuel 1 1 2 fiveCells = Some s'
      ∧ nodes s' !! 1 = Some n'
      ∧ cells n' = drop (actualStart 5 2) ((λ i, newCell i 16) <$> [0; 1; 2; 3; 4])
      ∧ children n' = [] ∧ type n' = 1
      ∧ (∀ k, k ≠ 1 →
           unplaced <$> (nodes s' !! k) = unplaced <$> (nodes fiveCells !! k)).
Proof.
  refine (splitPage_onto_itself fiveCells 1 2
            (set_cells ((λ i, newCell i 16) <$> [0; 1; 2; 3; 4]) (newNode 1 1))
            _ _).
  - vm_compute. reflexivity.
  - apply (layout_acyclic 5). vm_compute. by eexists.
Defined.

(** ** Transitions and the state store *)

Lemma layout_sameStore fuel s1 s2 :
  sameStore s1 s2 → option_Forall2 sameStore (layout fuel s1) (layout fuel s2).
Proof.
  intros (Hn & Hr & Hw). rewrite !layout_unfold, Hn, Hr, Hw.
  destruct (nodes s2 !! rootPage s2); [|by constructor].
  destruct (buildLevels fuel (nodes s2) (rootPage s2)); constructor.
  done.
Qed.

Lemma sameStore_animate (f : BTreeVisualizer → BTreeVisualizer) s1 s2 b1 b2 :
  (∀ v, nodes (f v) = nodes v ∧ rootPage (f v) = rootPage v
        ∧ clientWidth (f v) = clientWidth v) →
  sameStore s1 s2 →
  sameStore (if b1 : bool then f s1 else s1) (if b2 : bool then f s2 else s2).
Proof.
  intros Hf (Hn & Hr & Hw). unfold sameStore.
  destruct b1, b2; rewrite ?(proj1 (Hf _)), ?(proj1 (proj2 (Hf _))),
    ?(proj2 (proj2 (Hf _))); done.
Qed.

Lemma apply_sameStore fuel r s1 s2 :
  sameStore s1 s2 →
  option_Forall2 sameStore (apply fuel r s1) (apply fuel r s2).
Proof.
  intros Hs. pose proof Hs as (Hn & Hr & Hw).
  destruct r as [p k|p|p i len|p i|p q i]; cbn [apply].
  - apply layout_sameStore. unfold sameStore. cbn. by rewrite ?Hn.
  - apply layout_sameStore. unfold sameStore. cbn. by rewrite ?Hn.
  - unfold addCell. rewrite Hn. destruct (nodes s2 !! p); [|by constructor].
    apply layout_sameStore. cbn [showTransitions set_nodes].
    apply (sameStore_animate (animateInsertion p i)); [done|].
    unfold sameStore. cbn. by rewrite ?Hn.
  - unfold deleteCell. rewrite Hn. destruct (nodes s2 !! p); [|by constructor].
    apply layout_sameStore. unfold sameStore.
    destruct (showTransitions s1), (showTransitions s2); cbn;
      by rewrite ?Hn, ?Hr, ?Hw.
  - unfold splitPage. rewrite Hn. destruct (nodes s2 !! p) as [n|]; [|by constructor].
    assert (option_Forall2 sameStore (addPage fuel q (type n) s1)
              (addPage fuel q (type n) s2)) as Ha.
    { apply layout_sameStore. unfold sameStore. cbn. by rewrite ?Hn. }
    destruct Ha as [s1' s2' Hs'|]; [|by constructor].
    pose proof Hs' as (Hn' & Hr' & Hw'). rewrite Hn'.
    destruct (nodes s2' !! q); [|by constructor].
    destruct (splice (cells n) i None []) as [kept moved].
    apply layout_sameStore. cbn [showTransitions set_nodes].
    apply (sameStore_animate (animateSplit p q i)); [done|].
    unfold sameStore. cbn. by rewrite ?Hn'.
Qed.

Lemma applyAll_sameStore fuel rs s1 s2 :
  sameStore s1 s2 →
  option_Forall2 sameStore (applyAll fuel rs s1) (applyAll fuel rs s2).
Proof.
  revert s1 s2. induction rs as [|r rs IH]; intros s1 s2 Hs; [by constructor|].
  cbn. destruct (apply_sameStore fuel r s1 s2 Hs); [by apply IH|constructor].
Qed.

(** With transitions off a record leaves the highlights alone. *)
Lemma apply_without_transitions fuel r s s' :
  apply fuel r s = Some s' → showTransitions s = false →
  showTransitions s' = false
  ∧ highlightedNodes s' = highlightedNodes s ∧ timers s' = timers s.
Proof.
  intros H Ht.
  assert (∀ v v', layout fuel v = Some v' →
            showTransitions v' = showTransitions v
            ∧ highlightedNodes v' = highlightedNodes v ∧ timers v' = timers v)
    as Hlay.
  { intros v v' Hv.
    by apply layout_unplaced in Hv as (_ & _ & _ & ? & _ & ? & _ & _ & ?). }
  destruct r as [p k|p|p i len|p i|p q i]; cbn [apply] in H.
  - apply Hlay in H as (-> & -> & ->). done.
  - apply Hlay in H as (-> & -> & ->). done.
  - unfold addCell in H. destruct (nodes s !! p); [|by simplify_eq].
    cbn [showTransitions set_nodes] in H. rewrite Ht in H.
    apply Hlay in H as (-> & -> & ->). done.
  - unfold deleteCell in H. destruct (nodes s !! p); [|by simplify_eq].
    rewrite Ht in H. apply Hlay in H as (-> & -> & ->). done.
  - unfold splitPage, addPage in H. destruct (nodes s !! p) as [n|]; [|by simplify_eq].
    destruct (layout fuel _) as [s1|] eqn:H1; [|done].
    apply Hlay in H1 as (Ht1 & Hh1 & Htm1). cbn in Ht1, Hh1, Htm1.
    destruct (nodes s1 !! q); [|simplify_eq; by rewrite Ht1].
    destruct (splice (cells n) i None []) as [kept moved].
    cbn [showTransitions set_nodes] in H. rewrite Ht1, Ht in H.
    apply Hlay in H as (-> & -> & ->). cbn. by rewrite Ht1, Hh1, Htm1.
Qed.

(** X5: the nodes that a sequence of records produces do not depend on
    [showTransitions]; with transitions off the highlight set and the
    pending removals are never touched. *)
Theorem transitions_do_not_reach_the_store fuel rs s b :
  nodes <$> applyAll fuel rs (setShowTransitions b s)
  = nodes <$> applyAll fuel rs s
  ∧ ∀ s', applyAll fuel rs (setShowTransitions false s) = Some s' →
          highlightedNodes s' = highlightedNodes s ∧ timers s' = timers s.
Proof.
  split.
  - assert (sameStore (setShowTransitions b s) s) as Hs by done.
    destruct (applyAll_sameStore fuel rs _ _ Hs) as [s1 s2 (Hn & _)|]; [|done].
    cbn. by rewrite Hn.
  - change (highlightedNodes s) with (highlightedNodes (setShowTransitions false s)).
    change (timers s) with (timers (setShowTransitions false s)).
    assert (showTransitions (setShowTransitions false s) = false) as Ht by done.
    revert Ht. generalize (setShowTransitions false s). clear s.
    induction rs as [|r rs IH]; intros s Ht s' H; cbn in H; [by simplify_eq|].
    destruct (apply fuel r s) as [s1|] eqn:H1; [|done].
    destruct (apply_without_transitions _ _ _ _ H1 Ht) as (Ht1 & <- & <-).
    by apply IH.
Qed.

(** ** What the layout visits and where it puts it *)

Lemma levelsOf_reach m L levels k :
  levelsOf m L levels →
  k ∈ concat levels ↔ ∃ u, u ∈ L ∧ rtc (edge m) u k.
Proof.
  induction 1 as [|L rest HL Hrest IH]; cbn.
  - split; [by intros ?%elem_of_nil|]. by intros (u & ?%elem_of_nil & _).
  - rewrite elem_of_app, IH. split.
    + intros [Hk|(c & Hc & Hr)]; [by exists k|].
      apply list_elem_of_bind in Hc as (u & Hc & Hu).
      exists u. split; [done|]. by eapply rtc_l.
    + intros (u & Hu & Hr). apply rtc_inv in Hr as [->|(c & Hc & Hr)]; [by left|].
      right. exists c. split; [|done]. apply list_elem_of_bind. by exists u.
Qed.

(** X6: the levels that [buildLevels] returns hold exactly the nodes that
    are reachable from the root through child references that resolve. *)
Theorem buildLevels_visits_reachable fuel m root levels k :
  buildLevels fuel m root = Some levels →
  k ∈ concat levels ↔ rtc (edge m) root k.
Proof.
  intros H. apply buildLevels_levels in H.
  rewrite (levelsOf_reach _ _ _ _ H). split.
  - by intros (u & ->%list_elem_of_singleton & Hr).
  - intros Hr. exists root. split; [by left|done].
Qed.

Lemma buildLevels_visits_reachable_witness :
  4 ∈ concat [[1]; [2; 3]; [4; 4]] ↔ rtc (edge (nodes diamond)) 1 4.
Proof.
  apply (buildLevels_visits_reachable 5 (nodes diamond) 1 [[1]; [2; 3]; [4; 4]] 4).
  vm_compute. reflexivity.
Defined.

(** X7: [layout] writes the coordinates of the nodes that are reachable from
    the root and of no other: a node that no chain of resolving child
    references connects to the root keeps the coordinates it had. *)
Theorem layout_leaves_unreachable fuel s :
  is_Some (layout fuel s) →
  ∃ s', layout fuel s = Some s'
        ∧ ∀ k, ¬ rtc (edge (nodes s)) (rootPage s) k →
               nodes s' !! k = nodes s !! k.
Proof.
  intros [s' H]. exists s'. split; [done|]. intros k Hk.
  rewrite layout_unfold in H. destruct (nodes s !! rootPage s); [|by simplify_eq].
  destruct (buildLevels fuel (nodes s) (rootPage s)) as [levels|] eqn:El;
    [|done].
  cbn in H. simplify_eq. cbn [nodes set_nodes].
  apply placeLevels_other. intros Hin. apply Hk.
  apply buildLevels_levels in El.
  by apply (levelsOf_reach _ _ _ _ El) in Hin
    as (u & ->%list_elem_of_singleton & Hr).
Qed.

Lemma layout_leaves_unreachable_witness :
  nodes orphaned !! 5 = Some (set_position 7 9 (linkedNode 5 []))
  ∧ ¬ rtc (edge (nodes orphaned)) (rootPage orphaned) 5
  ∧ ∃ s', layout 5 orphaned = Some s'
          ∧ ∀ k, ¬ rtc (edge (nodes orphaned)) (rootPage orphaned) k →
                 nodes s' !! k = nodes orphaned !! k.
Proof.
  split; [by vm_compute|]. split.
  - intros Hr.
    assert (buildLevels 5 (nodes orphaned) (rootPage orphaned)
            = Some [[1]; [2]]) as H by (by vm_compute).
    apply buildLevels_levels in H.
    assert (5 ∈ concat [[1]; [2]]) as Hin.
    { apply (levelsOf_reach _ _ _ 5 H). exists (rootPage orphaned).
      split; [by left|done]. }
    cbn in Hin. repeat (apply elem_of_cons in Hin as [Hin|Hin]; [done|]).
    by apply elem_of_nil in Hin.
  - apply (layout_leaves_unreachable 5 orphaned).
    vm_compute. by eexists.
Defined.

(** The [x] of the slot [j] of a level that starts at [cx]. *)
Lemma placeLevel_slot ks cx cy m j k :
  NoDup ks → ks !! j = Some k →
  ∃ px, placeLevel ks cx cy m !! k = set_position px cy <$> (m !! k)
        ∧ (px == cx + inject_Z (Z.of_nat j * (nodeWidth + horizontalSpacing)))%Q.
Proof.
  revert cx m j. induction ks as [|a ks IH]; intros cx m j Hnd Hj; [done|].
  apply NoDup_cons in Hnd as [Ha Hnd]. cbn [placeLevel].
  destruct j as [|j]; cbn in Hj.
  - simplify_eq. exists cx. rewrite placeLevel_other by done.
    rewrite lookup_alter_eq. split; [done|].
    change (inject_Z (Z.of_nat 0 * (nodeWidth + horizontalSpacing))) with 0%Q.
    by rewrite Qplus_0_r.
  - destruct (IH (cx + inject_Z (nodeWidth + horizontalSpacing))%Q
                (alter (set_position cx cy) a m) j Hnd Hj) as (px & Hl & Hpx).
    exists px. rewrite Hl. split.
    + rewrite lookup_alter_ne; [done|]. intros ->. apply Ha.
      by eapply list_elem_of_lookup_2.
    + rewrite Hpx. rewrite Nat2Z.inj_succ.
      replace (Z.succ (Z.of_nat j) * (nodeWidth + horizontalSpacing))
        with ((nodeWidth + horizontalSpacing)
              + Z.of_nat j * (nodeWidth + horizontalSpacing)) by lia.
      rewrite (inject_Z_plus (nodeWidth + horizontalSpacing)). ring.
Qed.

Lemma placeLevels_slot ls w cy m l L j k :
  NoDup (concat ls) → ls !! l = Some L → L !! j = Some k →
  ∃ px py,
    placeLevels ls w cy m !! k = set_position px py <$> (m !! k)
    ∧ (px == levelStartX w L
             + inject_Z (Z.of_nat j * (nodeWidth + horizontalSpacing)))%Q
    ∧ (py == cy + inject_Z (Z.of_nat l * levelHeight))%Q.
Proof.
  revert cy m l. induction ls as [|L0 ls IH]; intros cy m l Hnd Hl Hj; [done|].
  cbn in Hnd. apply NoDup_app in Hnd as (Hnd0 & Hdisj & Hnd).
  cbn [placeLevels]. destruct l as [|l]; cbn in Hl.
  - simplify_eq.
    destruct (placeLevel_slot L (levelStartX w L) cy m j k Hnd0 Hj)
      as (px & Hp & Hpx).
    exists px, cy. rewrite placeLevels_other.
    + split; [done|]. split; [done|].
      change (inject_Z (Z.of_nat 0 * levelHeight)) with 0%Q.
      by rewrite Qplus_0_r.
    + apply Hdisj. by eapply list_elem_of_lookup_2.
  - destruct (IH (cy + inject_Z levelHeight)%Q
                (placeLevel L0 (levelStartX w L0) cy m) l Hnd Hl Hj)
      as (px & py & Hp & Hpx & Hpy).
    exists px, py. rewrite Hp. split; [|split; [done|]].
    + rewrite placeLevel_other; [done|]. intros Hin. apply (Hdisj k Hin).
      apply elem_of_concat. exists L. split; [by eapply list_elem_of_lookup_2|].
      by eapply list_elem_of_lookup_2.
    + rewrite Hpy, Nat2Z.inj_succ.
      replace (Z.succ (Z.of_nat l) * levelHeight)
        with (levelHeight + Z.of_nat l * levelHeight) by lia.
      rewrite (inject_Z_plus levelHeight). ring.
Qed.

(** X8: when no node is entered twice (the reachable part of the store is a
    tree), [layout] puts the entry [j] of level [l] at
    [x = (clientWidth - count * 160) / 2 + j * 160] and
    [y = 50 + l * 120], [count] being the number of entries of its level, and
    changes nothing else of the node. *)
Theorem layout_positions fuel s levels :
  is_Some (nodes s !! rootPage s) →
  buildLevels fuel (nodes s) (rootPage s) = Some levels →
  NoDup (concat levels) →
  ∃ s',
    layout fuel s = Some s'
    ∧ ∀ l L j k, levels !! l = Some L → L !! j = Some k →
        ∃ n n',
          nodes s !! k = Some n ∧ nodes s' !! k = Some n'
          ∧ unplaced n' = unplaced n
          ∧ (x n' == inject_Z (clientWidth s
                               - Z.of_nat (length L)
                                 * (nodeWidth + horizontalSpacing)) / 2
                     + inject_Z (Z.of_nat j * (nodeWidth + horizontalSpacing)))%Q
          ∧ (y n' == inject_Z (topMargin + Z.of_nat l * levelHeight))%Q.
Proof.
  intros [nr Hr] Hb Hnd. rewrite layout_unfold, Hr, Hb. cbn.
  eexists. split; [done|]. intros l L j k Hl Hj. cbn [nodes set_nodes].
  destruct (placeLevels_slot levels (clientWidth s) (inject_Z topMargin)
              (nodes s) l L j k Hnd Hl Hj) as (px & py & Hp & Hpx & Hpy).
  assert (is_Some (nodes s !! k)) as [n Hn].
  { assert (k ∈ concat levels) as Hin.
    { apply elem_of_concat. exists L.
      split; by eapply list_elem_of_lookup_2. }
    destruct (levelsOf_entries _ _ _ _ (buildLevels_levels _ _ _ _ Hb) Hin)
      as [->%list_elem_of_singleton|Hs]; [by eexists|done]. }
  rewrite Hn in Hp. exists n, (set_position px py n).
  split; [done|]. split; [done|]. split; [done|]. cbn. split; [done|].
  rewrite Hpy, inject_Z_plus. reflexivity.
Qed.

Lemma layout_positions_witness :
  ∃ s',
    layout 5 parentChild = Some s'
    ∧ ∀ l L j k, [[1]; [2]] !! l = Some L → L !! j = Some k →
        ∃ n n',
          nodes parentChild !! k = Some n ∧ nodes s' !! k = Some n'
          ∧ unplaced n' = unplaced n
          ∧ (x n' == inject_Z (clientWidth parentChild
                               - Z.of_nat (length L)
                                 * (nodeWidth + horizontalSpacing)) / 2
                     + inject_Z (Z.of_nat j * (nodeWidth + horizontalSpacing)))%Q
          ∧ (y n' == inject_Z (topMargin + Z.of_nat l * levelHeight))%Q.
Proof.
  refine (layout_positions 5 parentChild [[1]; [2]] _ _ _).
  - vm_compute. by eexists.
  - vm_compute. reflexivity.
  - cbn. rewrite !NoDup_cons. repeat split; try apply NoDup_nil_2;
      rewrite ?elem_of_cons, ?elem_of_nil; intros H; decompose [or] H; done.
Defined.

(** ** From an event to the visualizer *)

Lemma M_bind_unfold {A B} (m : M A) (f : A → M B) w :
  (m ≫= f) w =
    match m w with
    | (w', Normal a) => f a w'
    | (w', Throw e) => (w', Throw e)
    | (w', Diverge) => (w', Diverge)
    | (w', Unmodelled) => (w', Unmodelled)
    end.
Proof. reflexivity. Qed.

(** The listeners write to the visualizer only. *)
Lemma runCallback_frame fuel cb e w :
  eventManager (runCallback fuel cb e w).1 = eventManager w
  ∧ eventLog (runCallback fuel cb e w).1 = eventLog w.
Proof.
  destruct cb; unfold runCallback, getProp, onVisualizer, unmodelled, throw,
    mbind, M_bind, mret, M_ret;
    repeat (case_match; simplify_eq/=; try done).
Qed.

Lemma forEachCallback_frame fuel cbs e w :
  eventManager (forEachCallback fuel cbs e w).1 = eventManager w
  ∧ eventLog (forEachCallback fuel cbs e w).1 = eventLog w.
Proof.
  revert w. induction cbs as [|cb cbs IH]; intros w; [done|].
  cbn [forEachCallback]. unfold mbind, M_bind.
  pose proof (runCallback_frame fuel cb e w) as [H1 H2].
  destruct (runCallback fuel cb e w) as [w' [[]| | |]]; cbn in *; try done.
  destruct (IH w') as [H3 H4]. split; congruence.
Qed.

Lemma notifyListeners_frame fuel e w :
  eventManager (notifyListeners fuel e w).1 = eventManager w
  ∧ eventLog (notifyListeners fuel e w).1 = eventLog w.
Proof.
  unfold notifyListeners, getListeners, mbind, M_bind.
  match goal with |- context [forEachCallback fuel ?l e w] =>
    pose proof (forEachCallback_frame fuel l e w) as [H1 H2];
    destruct (forEachCallback fuel l e w) as [w' [[]| | |]]
  end; cbn in *; try done.
  match goal with |- context [forEachCallback fuel ?l e w'] =>
    destruct (forEachCallback_frame fuel l e w') as [H3 H4]
  end.
  split; congruence.
Qed.

Lemma formatEventData_object event ms w :
  ev_data event = JSON.Obj ms → formatEventData event w = (w, Normal ()).
Proof.
  intros H. unfold formatEventData. rewrite H.
  repeat case_decide; reflexivity.
Qed.

Lemma listeners_connected :
  let l := listeners (connectEvents newEventManager) in
  l !! inl 6 = Some [OnPageAllocate] ∧ l !! inl 7 = Some [OnPageFree]
  ∧ l !! inl 2 = Some [OnBtreeInsert] ∧ l !! inl 3 = Some [OnBtreeDelete]
  ∧ l !! inl 4 = Some [OnBtreeSplit] ∧ l !! inl 0 = Some [OnBtreeOpen].
Proof. repeat split; by vm_compute. Qed.

(** With one listener for the code and no wildcard listener, notifying is
    running that listener. *)
Lemma notifyListeners_single fuel e cb w :
  listeners (eventManager w) !! inl (ev_type e) = Some [cb] →
  listeners (eventManager w) !! inr () = None →
  notifyListeners fuel e w = runCallback fuel cb e w.
Proof.
  intros H1 H2. unfold notifyListeners, getListeners.
  rewrite !M_bind_unfold, H1. cbn [default id forEachCallback].
  rewrite M_bind_unfold.
  pose proof (runCallback_frame fuel cb e w) as [He _].
  destruct (runCallback fuel cb e w) as [w' [[]| | |]]; cbn [fst] in He;
    try reflexivity.
  cbn [mret M_ret]. rewrite M_bind_unfold, He, H2. reflexivity.
Qed.

(** Up to the notification, an event with an object payload only touches the
    event list and the log. *)
Lemma handleEvent_object fuel now eventType dataJson ms w :
  JSON.parse dataJson = Some (JSON.Obj ms) →
  ∃ w1 e,
    handleEvent fuel now eventType dataJson w = notifyListeners fuel e w1
    ∧ visualizer w1 = visualizer w
    ∧ listeners (eventManager w1) = listeners (eventManager w)
    ∧ ev_type e = eventType ∧ ev_data e = JSON.Obj ms.
Proof.
  intros Hp. unfold handleEvent, nextEventId, pushEvent, mbind, M_bind.
  rewrite Hp. cbn [mret M_ret].
  match goal with |- context [logEvent ?e ?w0] =>
    exists (logEvent e w0).1, e;
    assert (logEvent e w0 = ((logEvent e w0).1, Normal ())
            ∧ visualizer (logEvent e w0).1 = visualizer w
            ∧ listeners (eventManager (logEvent e w0).1)
              = listeners (eventManager w)) as (Hl & Hv & Hls)
  end.
  { unfold logEvent, getEventLog, putEventLog, mbind, M_bind. cbn.
    destruct (eventLog w); [|done].
    by rewrite (formatEventData_object _ ms). }
  by rewrite Hl at 1.
Qed.

Lemma classify_int z :
  - 2 ^ 53 ≤ z ≤ 2 ^ 53 → classify (Some (JSON.Num (JSON.Int z))) = IntArg z.
Proof.
  intros H. unfold classify.
  destruct (Z.leb_spec (- 2 ^ 53) z), (Z.leb_spec z (2 ^ 53)); try done; lia.
Qed.

(** X9: the way from an event to the store.  When the application has the
    listeners of [connectEvents] and the payload parses to an object that
    gives the fields of a record as integers, [handleEvent] with the code of
    that record does to the visualizer what the operation of the record
    does, and returns normally when that operation returns. *)
Theorem handleEvent_applies_record fuel now dataJson data r w :
  connected w → JSON.parse dataJson = Some data → carries data r →
  (∀ v, apply fuel r (visualizer w) = Some v →
        (handleEvent fuel now (eventCode r) dataJson w).2 = Normal ()
        ∧ visualizer (handleEvent fuel now (eventCode r) dataJson w).1 = v)
  ∧ (apply fuel r (visualizer w) = None →
     (handleEvent fuel now (eventCode r) dataJson w).2 = Diverge).
Proof.
  intros Hc Hp (ms & -> & Hf).
  destruct (handleEvent_object fuel now (eventCode r) dataJson ms w Hp)
    as (w1 & e & -> & Hv & Hl & Ht & Hd).
  pose proof listeners_connected as (L6 & L7 & L2 & L3 & L4 & _).
  pose proof listeners_wildcard as Lw.
  unfold connected in Hc. rewrite <- Hc, <- Hl in L6, L7, L2, L3, L4, Lw.
  destruct r as [p k|p|p i len|p i|p q i]; cbn [eventCode eventFields] in *;
    repeat (apply Forall_cons in Hf as [[? ?] Hf]); cbn [fst snd] in *.
  all: first
    [ rewrite (notifyListeners_single fuel e OnPageAllocate w1)
        by (by rewrite ?Ht)
    | rewrite (notifyListeners_single fuel e OnPageFree w1) by (by rewrite ?Ht)
    | rewrite (notifyListeners_single fuel e OnBtreeInsert w1)
        by (by rewrite ?Ht)
    | rewrite (notifyListeners_single fuel e OnBtreeDelete w1)
        by (by rewrite ?Ht)
    | rewrite (notifyListeners_single fuel e OnBtreeSplit w1)
        by (by rewrite ?Ht) ].
  all: unfold runCallback, getProp; rewrite Hd;
    repeat (rewrite M_bind_unfold; cbn [mret M_ret]);
    repeat match goal with
           | H : JSON.member _ _ = _ |- _ => rewrite H; clear H
           end;
    rewrite !classify_int by assumption;
    unfold onVisualizer; rewrite Hv; cbn [apply];
    (split; [by intros v ->|by intros ->]).
Qed.

Lemma handleEvent_applies_record_witness :
  (∀ v, apply 5 (Insert 1 0 16) (visualizer (set_visualizer oneLeaf (newApp 800)))
        = Some v →
        (handleEvent 5 0 (eventCode (Insert 1 0 16))
           (Bridge.btree_insert_event 1 0 16).2
           (set_visualizer oneLeaf (newApp 800))).2 = Normal ()
        ∧ visualizer
            (handleEvent 5 0 (eventCode (Insert 1 0 16))
               (Bridge.btree_insert_event 1 0 16).2
               (set_visualizer oneLeaf (newApp 800))).1 = v)
  ∧ (apply 5 (Insert 1 0 16) (visualizer (set_visualizer oneLeaf (newApp 800)))
     = None →
     (handleEvent 5 0 (eventCode (Insert 1 0 16))
        (Bridge.btree_insert_event 1 0 16).2
        (set_visualizer oneLeaf (newApp 800))).2 = Diverge).
Proof.
  refine (handleEvent_applies_record 5 0 (Bridge.btree_insert_event 1 0 16).2
            (JSON.Obj [("page", JSON.Num (JSON.Int 1));
                       ("cell", JSON.Num (JSON.Int 0));
                       ("keyLen", JSON.Num (JSON.Int 16))]%string)
            (Insert 1 0 16) (set_visualizer oneLeaf (newApp 800)) _ _ _).
  - reflexivity.
  - vm_compute. reflexivity.
  - eexists. split; [reflexivity|].
    repeat constructor; cbn; lia.
Defined.

(** ** The event list, the counter and the log *)

(** [logEvent] writes to the log only. *)
Lemma logEvent_frame event w :
  eventManager (logEvent event w).1 = eventManager w
  ∧ visualizer (logEvent event w).1 = visualizer w.
Proof.
  unfold logEvent, getEventLog, putEventLog. rewrite M_bind_unfold.
  destruct (eventLog w); [|done]. rewrite M_bind_unfold.
  assert (formatEventData event w = (w, Normal ())
          ∨ formatEventData event w = (w, Throw TypeError)) as [->| ->];
    [|done|done].
  unfold formatEventData, getProp, throw.
  destruct (ev_data event); repeat case_decide; auto.
Qed.

Lemma handleEvent_eventManager fuel now eventType dataJson w :
  eventManager (handleEvent fuel now eventType dataJson w).1
  = match JSON.parse dataJson with
    | Some data =>
        {| events :=
             events (eventManager w)
               ++ [{| ev_id := eventCount (eventManager w);
                      ev_type := eventType;
                      ev_typeName :=
                        default "UNKNOWN"%string (eventTypeNames eventType);
                      ev_category :=
                        default "other"%string (eventCategories eventType);
                      ev_data := data; ev_timestamp := now |}];
           listeners := listeners (eventManager w);
           eventCount := eventCount (eventManager w) + 1;
           autoScroll := autoScroll (eventManager w) |}
    | None =>
        {| events := events (eventManager w);
           listeners := listeners (eventManager w);
           eventCount := eventCount (eventManager w) + 1;
           autoScroll := autoScroll (eventManager w) |}
    end.
Proof.
  destruct (JSON.parse dataJson) as [data|] eqn:Hp.
  - unfold handleEvent, nextEventId, pushEvent. rewrite !M_bind_unfold, Hp.
    cbn [mret M_ret]. rewrite !M_bind_unfold.
    match goal with |- context [logEvent ?e ?w0] =>
      pose proof (logEvent_frame e w0) as [Hl _];
      destruct (logEvent e w0) as [w1 [[]| | |]]; cbn [fst] in Hl
    end; try (cbn [fst]; rewrite Hl; reflexivity).
    match goal with |- context [notifyListeners fuel ?e w1] =>
      destruct (notifyListeners_frame fuel e w1) as [Hn _]
    end.
    rewrite Hn, Hl. reflexivity.
  - by rewrite handleEvent_unparseable.
Qed.

Lemma wellFormedEvents_handleEvent fuel now eventType dataJson w :
  wellFormedEvents (eventManager w) →
  wellFormedEvents (eventManager (handleEvent fuel now eventType dataJson w).1).
Proof.
  intros [Hs Hf]. rewrite handleEvent_eventManager.
  destruct (JSON.parse dataJson) as [data|]; unfold wellFormedEvents;
    cbn [events eventCount].
  - split.
    + apply StronglySorted_app_2; [|done|repeat constructor].
      intros a b Ha ->%list_elem_of_singleton. cbn.
      rewrite Forall_forall in Hf. by apply Hf.
    + apply Forall_app. split.
      * eapply Forall_impl; [exact Hf|]. cbn. intros e (? & ? & ?).
        split; [lia|done].
      * constructor; [|constructor]. cbn. split; [lia|done].
  - split; [done|]. eapply Forall_impl; [exact Hf|]. cbn. intros e (? & ? & ?).
    split; [lia|done].
Qed.

(** X10: for every stream of events handled by the application, parseable
    or not, the event counter equals the number of events received, and the
    stored events carry strictly increasing ids below the counter, with the
    type name and the category that the tables give to their code
    ([UNKNOWN] and [other] outside 0..13). *)
Theorem event_ids_increase fuel evs w0 :
  wellFormedEvents (eventManager (handleAll fuel evs (newApp w0)))
  ∧ eventCount (eventManager (handleAll fuel evs (newApp w0)))
    = Z.of_nat (length evs).
Proof.
  assert (∀ w, wellFormedEvents (eventManager w) →
            wellFormedEvents (eventManager (handleAll fuel evs w))
            ∧ eventCount (eventManager (handleAll fuel evs w))
              = eventCount (eventManager w) + Z.of_nat (length evs)) as H.
  { induction evs as [|[[now c] d] evs IH]; intros w Hw.
    - split; [done|]. cbn. lia.
    - cbn [handleAll length].
      destruct (IH _ (wellFormedEvents_handleEvent fuel now c d w Hw)) as [H1 H2].
      split; [done|]. rewrite H2, handleEvent_eventManager.
      destruct (JSON.parse d); cbn [eventCount]; lia. }
  destruct (H (newApp w0)) as [H1 H2].
  - split; [constructor|constructor].
  - split; [done|]. rewrite H2. done.
Qed.

Lemma keepLast_length {A} (limit : nat) (l : list A) :
  (length (keepLast limit l) ≤ limit)%nat.
Proof. unfold keepLast. rewrite length_drop. lia. Qed.

Lemma logEvent_eventLog event w :
  eventLog (logEvent event w).1 = eventLog w
  ∨ ∃ items, eventLog w = Some items
             ∧ eventLog (logEvent event w).1
               = Some (keepLast 1000 (items ++ [event])).
Proof.
  unfold logEvent, getEventLog, putEventLog. rewrite M_bind_unfold.
  destruct (eventLog w) as [items|] eqn:E; [|by left]. rewrite M_bind_unfold.
  assert (formatEventData event w = (w, Normal ())
          ∨ formatEventData event w = (w, Throw TypeError)) as [->| ->].
  { unfold formatEventData, getProp, throw.
    destruct (ev_data event); repeat case_decide; auto. }
  - right. by exists items.
  - by left.
Qed.

Lemma logBounded_handleEvent fuel now eventType dataJson w :
  logBounded w → logBounded (handleEvent fuel now eventType dataJson w).1.
Proof.
  intros (items & Hi & Hlen & Hsub). unfold logBounded.
  rewrite handleEvent_eventManager.
  destruct (JSON.parse dataJson) as [data|] eqn:Hp.
  - unfold handleEvent, nextEventId, pushEvent. rewrite !M_bind_unfold, Hp.
    cbn [mret M_ret]. rewrite !M_bind_unfold. cbn [events].
    match goal with |- context [logEvent ?e ?w0] =>
      pose proof (logEvent_eventLog e w0) as Hl;
      assert (eventLog w0 = Some items) as Hi0 by done;
      destruct (logEvent e w0) as [w1 c]; cbn [fst] in Hl;
      assert (∃ items', eventLog w1 = Some items'
                        ∧ (length items' ≤ 1000)%nat
                        ∧ items' `sublist_of` events (eventManager w) ++ [e])
        as (items' & Hi' & Hlen' & Hsub');
      [|destruct c as [[]| | |]; cbn [fst]; try (by exists items');
        destruct (notifyListeners_frame fuel e w1) as [_ Hn];
        exists items'; by rewrite Hn]
    end.
    destruct Hl as [Hl|(its & Hits & Hl)].
    + exists items. rewrite Hl, Hi0. split; [done|]. split; [done|].
      by apply sublist_inserts_r.
    + rewrite Hi0 in Hits. simplify_eq. eexists. split; [exact Hl|].
      split; [apply keepLast_length|].
      etrans; [apply sublist_drop|]. by apply sublist_app.
  - rewrite handleEvent_unparseable by done. cbn. by exists items.
Qed.

(** X11: whatever the stream, the log element ends up with at most 1000
    entries, and every entry is one of the stored events, in their order. *)
Theorem event_log_bounded fuel evs w0 :
  ∃ items,
    eventLog (handleAll fuel evs (newApp w0)) = Some items
    ∧ (length items ≤ 1000)%nat
    ∧ items `sublist_of` events (eventManager (handleAll fuel evs (newApp w0))).
Proof.
  assert (∀ w, logBounded w → logBounded (handleAll fuel evs w)) as H.
  { induction evs as [|[[now c] d] evs IH]; intros w Hw; [done|].
    cbn [handleAll]. by apply IH, logBounded_handleEvent. }
  apply H. exists []. split; [done|]. split; [cbn; lia|done].
Qed.

(** X12: [getRecentEvents(count)] returns the last [count] stored events
    when [count] is positive and smaller than their number, and all of them
    when it is larger; for [count = 0] it returns all of them too, because
    [slice(-0)] is [slice(0)]. *)
Theorem getRecentEvents_last em count :
  (0 < count ≤ Z.of_nat (length (events em)) →
   length (getRecentEvents count em) = Z.to_nat count
   ∧ ∃ older, events em = older ++ getRecentEvents count em)
  ∧ (Z.of_nat (length (events em)) ≤ count → getRecentEvents count em = events em)
  ∧ (count = 0 → getRecentEvents count em = events em).
Proof.
  unfold getRecentEvents, slice, actualStart. split; [|split].
  - intros H. destruct (Z.ltb_spec (- count) 0); [|lia]. split.
    + rewrite length_drop. lia.
    + eexists. symmetry. apply take_drop.
  - intros H. destruct (Z.ltb_spec (- count) 0).
    + replace (Z.to_nat _) with O by lia. done.
    + replace (Z.to_nat _) with O by lia. done.
  - intros ->. destruct (Z.ltb_spec (- 0) 0); [lia|].
    replace (Z.to_nat _) with O by lia. done.
Qed.

(** ** The hit test *)

Lemma containsPoint_inside px py n : containsPoint px py n = true ↔ inside px py n.
Proof.
  unfold containsPoint, inside.
  rewrite !andb_true_iff, !Qle_bool_iff. tauto.
Qed.

(** X13: [getNodeAtPosition] returns the first node, in the iteration order
    of the map, whose rectangle (borders included) holds the point, and none
    exactly when no node of the order does. *)
Theorem getNodeAtPosition_first order m px py :
  (∀ n, getNodeAtPosition order m px py = Some n ↔
        ∃ before k after,
          order = before ++ k :: after ∧ m !! k = Some n ∧ inside px py n
          ∧ ∀ j nj, j ∈ before → m !! j = Some nj → ¬ inside px py nj)
  ∧ (getNodeAtPosition order m px py = None ↔
     ∀ k n, k ∈ order → m !! k = Some n → ¬ inside px py n).
Proof.
  induction order as [|k order [IH1 IH2]]; cbn [getNodeAtPosition].
  - split.
    + intros n. split; [done|]. intros (b & k & a & H & _). by destruct b.
    + split; [|done]. intros _ k n Hk. by apply elem_of_nil in Hk.
  - destruct (m !! k) as [nk|] eqn:Ek.
    + destruct (containsPoint px py nk) eqn:Ec.
      * apply containsPoint_inside in Ec. split.
        -- intros n. split.
           ++ intros [= <-]. exists [], k, order. split; [done|].
              split; [done|]. split; [done|]. intros j nj Hj.
              by apply elem_of_nil in Hj.
           ++ intros ([|b0 b] & k' & a & Ho & Hk & Hin & Hb); cbn in Ho;
                injection Ho as <- Ho.
              ** congruence.
              ** destruct (Hb k nk); [by left|done|done].
        -- split; [done|]. intros H. destruct (H k nk); [by left|done|done].
      * assert (¬ inside px py nk) as Hnk.
        { rewrite <- containsPoint_inside. by rewrite Ec. }
        split.
        -- intros n. rewrite IH1. split.
           ++ intros (b & k' & a & -> & Hk & Hin & Hb).
              exists (k :: b), k', a. split; [done|]. split; [done|].
              split; [done|]. intros j nj [->|Hj]%elem_of_cons Hlk; [|by eauto].
              by simplify_eq.
           ++ intros ([|b0 b] & k' & a & Ho & Hk & Hin & Hb); cbn in Ho;
                injection Ho as <- Ho.
              ** rewrite Ek in Hk. by simplify_eq.
              ** exists b, k', a. split; [done|]. split; [done|].
                 split; [done|]. intros j nj Hj. apply Hb. by right.
        -- rewrite IH2. split.
           ++ intros H j nj [->|Hj]%elem_of_cons Hlk; [by simplify_eq|by eauto].
           ++ intros H j nj Hj. apply H. by right.
    + split.
      * intros n. rewrite IH1. split.
        -- intros (b & k' & a & -> & Hk & Hin & Hb).
           exists (k :: b), k', a. split; [done|]. split; [done|].
           split; [done|]. intros j nj [->|Hj]%elem_of_cons Hlk; [|by eauto].
           by simplify_eq.
        -- intros ([|b0 b] & k' & a & Ho & Hk & Hin & Hb); cbn in Ho;
             injection Ho as <- Ho.
           ++ by rewrite Ek in Hk.
           ++ exists b, k', a. split; [done|]. split; [done|]. split; [done|].
              intros j nj Hj. apply Hb. by right.
      * rewrite IH2. split.
        -- intros H j nj [->|Hj]%elem_of_cons Hlk; [by simplify_eq|by eauto].
        -- intros H j nj Hj. apply H. by right.
Qed.

(** ** The bridge's numbers, read back by [JSON.parse] *)

Lemma code_digit n : (n < 10)%N → JSON.code (Bridge.digit n) = 48 + Z.of_N n.
Proof.
  intros H. unfold JSON.code, Bridge.digit.
  rewrite N_ascii_embedding by lia. lia.
Qed.

Lemma is_digit_digit n : (n < 10)%N → JSON.is_digit (Bridge.digit n) = true.
Proof.
  intros H. unfold JSON.is_digit. rewrite code_digit by done.
  apply andb_true_intro. split; lia.
Qed.

Lemma digits_val_rev l : JSON.digits_val (rev l) = value_rev l.
Proof.
  unfold JSON.digits_val, value_rev.
  by rewrite <- fold_left_rev_right, rev_involutive.
Qed.

Lemma digits_rev_value f n :
  (n < 2 ^ N.of_nat f)%N → value_rev (Bridge.digits_rev f n) = Z.of_N n.
Proof.
  revert n. induction f as [|f IH]; intros n Hn.
  - cbn in *. lia.
  - cbn [Bridge.digits_rev value_rev fold_right].
    fold (value_rev (if (n <? 10)%N then [] else Bridge.digits_rev f (n / 10)%N)).
    assert (n mod 10 < 10)%N as Hm by (apply N.mod_lt; lia).
    rewrite code_digit by done.
    destruct (N.ltb_spec n 10) as [Hlt|Hge].
    + cbn. rewrite N.mod_small by done. lia.
    + rewrite IH.
      * rewrite (N.div_mod n 10) at 3 by lia. lia.
      * rewrite Nat2N.inj_succ, N.pow_succ_r' in Hn.
        assert (n / 10 ≤ n / 2)%N by (apply N.div_le_compat_l; lia).
        assert (n / 2 < 2 ^ N.of_nat f)%N by (apply N.Div0.div_lt_upper_bound; lia).
        lia.
Qed.

Lemma digits_rev_digits f n :
  Forall (λ c, JSON.is_digit c = true) (Bridge.digits_rev f n).
Proof.
  revert n. induction f as [|f IH]; intros n; [constructor|].
  cbn [Bridge.digits_rev]. constructor.
  - apply is_digit_digit, N.mod_lt. lia.
  - destruct (n <? 10)%N; [constructor|apply IH].
Qed.

Lemma digits_rev_length f n : (length (Bridge.digits_rev f n) ≤ f)%nat.
Proof.
  revert n. induction f as [|f IH]; intros n; [done|].
  cbn [Bridge.digits_rev length].
  destruct (n <? 10)%N; [cbn; lia|]. specialize (IH (n / 10)%N). lia.
Qed.

(** The most significant digit of a positive number is not [0]. *)
Lemma digits_rev_leading f n :
  (0 < n < 2 ^ N.of_nat f)%N →
  ∃ l d, Bridge.digits_rev f n = l ++ [Bridge.digit d] ∧ (0 < d < 10)%N.
Proof.
  revert n. induction f as [|f IH]; intros n Hn.
  - cbn in Hn. lia.
  - cbn [Bridge.digits_rev]. destruct (N.ltb_spec n 10) as [Hlt|Hge].
    + exists [], n. rewrite N.mod_small by done. split; [done|lia].
    + destruct (IH (n / 10)%N) as (l & d & -> & Hd).
      * rewrite Nat2N.inj_succ, N.pow_succ_r' in Hn. split.
        -- apply N.div_str_pos. lia.
        -- assert (n / 10 ≤ n / 2)%N by (apply N.div_le_compat_l; lia).
           assert (n / 2 < 2 ^ N.of_nat f)%N
             by (apply N.Div0.div_lt_upper_bound; lia).
           lia.
      * exists (Bridge.digit (n mod 10) :: l), d. done.
Qed.

Lemma log2_fuel n : (n < 2 ^ N.of_nat (S (N.to_nat (N.log2 n))))%N.
Proof.
  rewrite Nat2N.inj_succ, N2Nat.id.
  destruct (decide (n = 0%N)) as [->|Hn]; [done|].
  apply N.log2_spec. lia.
Qed.

(** What [print_int] prints: an optional minus sign and the digits of the
    absolute value, without leading zero. *)
Lemma print_int_shape z :
  ∃ c ds,
    Bridge.print_int z = (if z <? 0 then ["-"%char] else []) ++ c :: ds
    ∧ JSON.is_digit c = true
    ∧ Forall (λ c, JSON.is_digit c = true) ds
    ∧ (c = "0"%char → ds = [])
    ∧ JSON.digits_val (c :: ds) = Z.abs z.
Proof.
  unfold Bridge.print_int.
  set (n := Z.abs_N z). set (f := S (N.to_nat (N.log2 n))).
  assert (JSON.digits_val (rev (Bridge.digits_rev f n)) = Z.abs z) as Hv.
  { rewrite digits_val_rev, digits_rev_value by apply log2_fuel.
    subst n. apply N2Z.inj_abs_N. }
  assert (Forall (λ c, JSON.is_digit c = true) (rev (Bridge.digits_rev f n)))
    as Hd by (apply Forall_rev, digits_rev_digits).
  destruct (decide (n = 0%N)) as [Hn|Hn].
  - exists "0"%char, []. subst f. rewrite Hn in *. cbn in Hv |- *.
    destruct (z <? 0); repeat split; try done; by constructor.
  - destruct (digits_rev_leading f n) as (l & d & Hl & Hd0).
    { split; [lia|apply log2_fuel]. }
    rewrite Hl, rev_app_distr in Hv, Hd |- *. cbn [rev app] in Hv, Hd |- *.
    exists (Bridge.digit d), (rev l). apply Forall_cons in Hd as [Hc Hds].
    split; [by destruct (z <? 0)|]. split; [done|]. split; [done|].
    split; [|done]. intros H0. apply (f_equal JSON.code) in H0.
    rewrite code_digit in H0 by lia.
    change (JSON.code "0") with 48 in H0. lia.
Qed.

Lemma print_int_length z :
  - 2 ^ 31 ≤ z < 2 ^ 31 → (length (Bridge.print_int z) ≤ 33)%nat.
Proof.
  intros Hz. unfold Bridge.print_int.
  assert (N.log2 (Z.abs_N z) ≤ 31)%N as Hl.
  { change 31%N with (N.log2 (2 ^ 31)). apply N.log2_le_mono. lia. }
  pose proof (digits_rev_length (S (N.to_nat (N.log2 (Z.abs_N z)))) (Z.abs_N z)).
  destruct (z <? 0); cbn [length]; rewrite length_rev; lia.
Qed.

Lemma take_digits_app ds r :
  Forall (λ c, JSON.is_digit c = true) ds →
  match r with c :: _ => JSON.is_digit c = false | [] => True end →
  JSON.take_digits (ds ++ r) = (ds, r).
Proof.
  intros Hds Hr. induction Hds as [|c ds Hc _ IH]; cbn [app JSON.take_digits].
  - destruct r as [|c r]; [done|]. cbn [JSON.take_digits]. by rewrite Hr.
  - by rewrite Hc, IH.
Qed.

Lemma is_digit_cases c :
  JSON.is_digit c = true →
  c ∈ ["0"; "1"; "2"; "3"; "4"; "5"; "6"; "7"; "8"; "9"]%char.
Proof.
  destruct c as [[] [] [] [] [] [] [] []]; intros H; vm_compute in H;
    try discriminate H; repeat constructor.
Qed.

Lemma parse_number_digits (neg : bool) c ds r :
  JSON.is_digit c = true →
  Forall (λ c, JSON.is_digit c = true) ds →
  (c = "0"%char → ds = []) →
  closing r →
  JSON.parse_number ((if neg then ["-"%char] else []) ++ c :: ds ++ r)
  = Some (JSON.Int (if neg then - JSON.digits_val (c :: ds)
                    else JSON.digits_val (c :: ds)), r).
Proof.
  intros Hc Hds H0 (sep & r' & -> & Hsep).
  assert (JSON.take_digits (c :: ds ++ sep :: r') = (c :: ds, sep :: r')) as Ht.
  { apply (take_digits_app (c :: ds)); [by constructor|].
    by destruct Hsep as [-> | ->]. }
  apply is_digit_cases in Hc.
  repeat (apply elem_of_cons in Hc as [-> | Hc]); [..|by apply elem_of_nil in Hc];
    destruct neg; unfold JSON.parse_number; cbn [app]; rewrite Ht;
    try (rewrite (H0 eq_refl)); by destruct Hsep as [-> | ->].
Qed.

Lemma parse_value_number f c s :
  c ∈ ["-"; "0"; "1"; "2"; "3"; "4"; "5"; "6"; "7"; "8"; "9"]%char →
  JSON.parse_value (S f) (c :: s)
  = match JSON.parse_number (c :: s) with
    | Some (n, r') => Some (JSON.Num n, r')
    | None => None
    end.
Proof.
  intros Hc.
  repeat (apply elem_of_cons in Hc as [-> | Hc]); [..|by apply elem_of_nil in Hc];
    reflexivity.
Qed.

(** [JSON.parse] reads back what [%d] printed. *)
Lemma parse_value_int f z r :
  closing r →
  JSON.parse_value (S f) (Bridge.print_int z ++ r)
  = Some (JSON.Num (JSON.Int z), r).
Proof.
  intros Hr. destruct (print_int_shape z) as (c & ds & -> & Hc & Hds & H0 & Hv).
  pose proof (parse_number_digits (z <? 0) c ds r Hc Hds H0 Hr) as Hn.
  rewrite <- app_assoc. cbn [app] in Hn |- *.
  assert (∀ s, JSON.parse_value (S f)
                 ((if z <? 0 then ["-"%char] else []) ++ c :: s)
               = match JSON.parse_number
                         ((if z <? 0 then ["-"%char] else []) ++ c :: s) with
                 | Some (n, r') => Some (JSON.Num n, r')
                 | None => None
                 end) as Hv'.
  { intros s. destruct (z <? 0); cbn [app]; apply parse_value_number.
    - repeat constructor.
    - apply list_elem_of_further, is_digit_cases, Hc. }
  rewrite Hv', Hn, Hv. do 3 f_equal.
  destruct (Z.ltb_spec z 0); f_equal; lia.
Qed.

Lemma parse_string_body_plain name r acc :
  Forall (λ c, plain c = true) name →
  JSON.parse_string_body (name ++ Bridge.dq :: r) acc
  = Some (String.string_of_list_ascii (rev acc ++ name), r).
Proof.
  intros Hn. revert acc.
  induction Hn as [|c name Hc _ IH]; intros acc;
    cbn [app JSON.parse_string_body].
  - unfold Bridge.dq. rewrite bool_decide_eq_true_2 by done.
    by rewrite app_nil_r.
  - unfold plain in Hc. apply andb_prop in Hc as [[H1 H2]%andb_prop H3].
    apply negb_true_iff in H1, H2. rewrite H1, H2.
    destruct (Z.ltb_spec (JSON.code c) 32); [lia|].
    rewrite IH. cbn [rev]. by rewrite <- app_assoc.
Qed.

(** ** The bridge's objects, read back by [JSON.parse] *)

Lemma parse_members_field f name z r acc :
  plainName name = true →
  closing r →
  JSON.parse_members (S (S f)) (Bridge.field name (Bridge.print_int z) ++ r) acc
  = match r with
    | ","%char :: r' =>
        JSON.parse_members (S f) r' ((name, JSON.Num (JSON.Int z)) :: acc)
    | _ => Some (JSON.Obj (rev ((name, JSON.Num (JSON.Int z)) :: acc)), tail r)
    end.
Proof.
  intros Hname Hr. unfold Bridge.field. cbn [app]. rewrite <- app_assoc.
  cbn [app].
  change (JSON.parse_members (S (S f)) (Bridge.dq :: ?s) acc)
    with (match JSON.parse_string_body s [] with
          | Some (k, r1) =>
              match JSON.skip_ws r1 with
              | ":"%char :: r2 =>
                  match JSON.parse_value (S f) r2 with
                  | Some (v, r3) =>
                      match JSON.skip_ws r3 with
                      | ","%char :: r4 =>
                          JSON.parse_members (S f) r4 ((k, v) :: acc)
                      | "}"%char :: r4 =>
                          Some (JSON.Obj (rev ((k, v) :: acc)), r4)
                      | _ => None
                      end
                  | None => None
                  end
              | _ => None
              end
          | None => None
          end).
  rewrite parse_string_body_plain
    by (apply Forall_forall; intros c Hc;
        by apply (proj1 (forallb_forall _ _) Hname), list_elem_of_In).
  cbn [rev app]. rewrite String.string_of_list_ascii_of_string.
  change (JSON.skip_ws (":"%char :: ?s)) with (":"%char :: s). cbv iota beta.
  rewrite parse_value_int by done.
  destruct Hr as (sep & r' & -> & [-> | ->]); reflexivity.
Qed.

Lemma parse_members_text fs : ∀ f acc,
  fs ≠ [] →
  Forall (λ x : string * Z, plainName x.1 = true) fs →
  (length fs < f)%nat →
  JSON.parse_members f (members_text fs) acc
  = Some (JSON.Obj (rev acc ++ ((λ x, (x.1, JSON.Num (JSON.Int x.2))) <$> fs)),
          []).
Proof.
  induction fs as [|x fs IH]; intros f acc Hne Hnames Hf; [done|].
  apply Forall_cons in Hnames as [Hx Hnames].
  destruct f as [|[|f]]; cbn [length] in Hf; [lia..|].
  cbn [members_text]. destruct fs as [|y fs].
  - rewrite parse_members_field; [done|done|].
    exists "}"%char, []. auto.
  - rewrite parse_members_field; [|done|].
    + rewrite IH; [|done|done|cbn [length] in *; lia].
      cbn [rev fmap list_fmap]. by rewrite <- app_assoc.
    + eexists _, _. eauto.
Qed.

Lemma length_list_ascii_of_string (s : string) :
  length (String.list_ascii_of_string s) = String.length s.
Proof. induction s as [|c s IH]; [done|]. cbn. by rewrite IH. Qed.

Lemma members_text_length fs :
  Forall (λ x : string * Z, int32 x.2) fs →
  (length (members_text fs)
   ≤ 1 + sum_list_with (λ x, String.length x.1 + 37) fs)%nat.
Proof.
  induction 1 as [|x fs Hx _ IH]; [cbn; lia|].
  cbn [members_text sum_list_with]. unfold Bridge.field.
  pose proof (print_int_length _ Hx).
  assert (length (match fs with
                  | [] => ["}"%char]
                  | _ => ","%char :: members_text fs
                  end) ≤ 1 + length (members_text fs))%nat
    by (destruct fs; cbn [length]; lia).
  cbn [length app]. rewrite !length_app. cbn [length].
  rewrite length_list_ascii_of_string. lia.
Qed.

Lemma members_text_fields fs : (length fs ≤ length (members_text fs))%nat.
Proof.
  induction fs as [|x fs IH]; [cbn; lia|].
  cbn [members_text length]. unfold Bridge.field. cbn [length app].
  destruct fs; cbn [length] in *; rewrite ?length_app; cbn [length]; lia.
Qed.

(** The text of an event of integer fields parses to the object of these
    fields. *)
Lemma parse_members_object type fs :
  fs ≠ [] →
  Forall (λ x : string * Z, plainName x.1 = true) fs →
  Forall (λ x : string * Z, int32 x.2) fs →
  (sum_list_with (λ x, String.length x.1 + 37) fs ≤ 1000)%nat →
  JSON.parse (Bridge.emit_vis_event type ("{"%char :: members_text fs)).2
  = Some (JSON.Obj ((λ x, (x.1, JSON.Num (JSON.Int x.2))) <$> fs)).
Proof.
  intros Hne Hnames Hints Hlen. unfold Bridge.emit_vis_event, JSON.parse.
  cbn [snd]. pose proof (members_text_length fs Hints).
  pose proof (members_text_fields fs).
  rewrite String.list_ascii_of_string_of_list_ascii.
  rewrite take_ge by (cbn [length]; lia).
  destruct (2 * length ("{"%char :: members_text fs) + 2)%nat as [|F] eqn:HF;
    [lia|].
  assert (JSON.parse_value (S F) ("{"%char :: members_text fs)
          = JSON.parse_members F (members_text fs) []) as ->.
  { destruct fs as [|x fs]; [done|]. reflexivity. }
  rewrite parse_members_text; [done|done|done|].
  cbn [length] in HF. lia.
Qed.

(** X14: what the bridge prints for a mutation record is read back by
    [JSON.parse].  For a record whose fields are C [int]s, the bridge call
    hands over the code under which the listener of the record is
    registered, and a text that parses to an object giving every field of
    the record as the same integer. *)
Theorem bridge_event_parses r :
  Forall (λ f : string * Z, int32 f.2) (eventFields r) →
  (Bridge.event_of r).1 = eventCode r
  ∧ ∃ data, JSON.parse (Bridge.event_of r).2 = Some data ∧ carries data r.
Proof.
  intros Hints. split; [by destruct r|].
  exists (JSON.Obj ((λ x, (x.1, JSON.Num (JSON.Int x.2))) <$> eventFields r)).
  split.
  - rewrite <- (parse_members_object (eventCode r));
      [by destruct r|by destruct r|destruct r; by repeat constructor|done|].
    destruct r; cbn; lia.
  - eexists; split; [done|].
    destruct r; cbn [eventFields fmap list_fmap fst snd] in *;
      repeat (apply Forall_cons in Hints as [? Hints]);
      repeat (apply Forall_cons; split;
              [split; [reflexivity|unfold int32 in *; cbn [snd] in *; lia]|]);
      by apply Forall_nil.
Qed.

Lemma bridge_event_parses_witness :
  (Bridge.event_of (Split 3 4 (-1))).1 = eventCode (Split 3 4 (-1))
  ∧ ∃ data, JSON.parse (Bridge.event_of (Split 3 4 (-1))).2 = Some data
            ∧ carries data (Split 3 4 (-1)).
Proof.
  apply (bridge_event_parses (Split 3 4 (-1))).
  repeat constructor; cbn; lia.
Defined.

(** ** The SQL text of [parse_start_event] *)

Lemma escape_sql_length sql : ∀ j,
  (length (Bridge.escape_sql sql j) ≤ 511 - j)%nat.
Proof.
  induction sql as [|c sql IH]; intros j; cbn [Bridge.escape_sql]; [cbn; lia|].
  destruct (bool_decide (c = "000"%char)); [cbn; lia|].
  destruct (Nat.ltb_spec j 510); [|cbn; lia].
  destruct (_ || _); cbn [length];
    [specialize (IH (j + 2)%nat)|specialize (IH (j + 1)%nat)]; lia.
Qed.

Lemma parse_string_body_escape c s acc :
  c = Bridge.dq ∨ c = "\"%char →
  JSON.parse_string_body ("\"%char :: c :: s) acc
  = JSON.parse_string_body s (c :: acc).
Proof. intros [-> | ->]; reflexivity. Qed.

Lemma parse_string_body_step c s acc :
  plain c = true →
  JSON.parse_string_body (c :: s) acc = JSON.parse_string_body s (c :: acc).
Proof.
  intros Hc. unfold plain in Hc.
  apply andb_prop in Hc as [[H1 H2]%andb_prop H3].
  apply negb_true_iff in H1, H2. cbn [JSON.parse_string_body].
  rewrite H1, H2. by destruct (Z.ltb_spec (JSON.code c) 32); [lia|].
Qed.

Lemma asciiText_not_nul c : asciiText c = true → c ≠ "000"%char.
Proof. by intros H ->. Qed.

Lemma escape_sql_body sql : ∀ j r acc,
  Forall (λ c, asciiText c = true) sql →
  ∃ kept,
    kept `prefix_of` sql
    ∧ ((j + 2 * length sql ≤ 510)%nat → kept = sql)
    ∧ JSON.parse_string_body (Bridge.escape_sql sql j ++ Bridge.dq :: r) acc
      = Some (String.string_of_list_ascii (rev acc ++ kept), r).
Proof.
  induction sql as [|c sql IH]; intros j r acc Hs.
  - exists []. split; [done|]. split; [done|].
    cbn [Bridge.escape_sql app JSON.parse_string_body]. unfold Bridge.dq.
    rewrite bool_decide_eq_true_2 by done. by rewrite app_nil_r.
  - apply Forall_cons in Hs as [Hc Hs]. cbn [Bridge.escape_sql].
    rewrite (bool_decide_eq_false_2 _ (asciiText_not_nul c Hc)).
    destruct (Nat.ltb_spec j 510) as [Hj|Hj].
    + destruct (decide (c = Bridge.dq ∨ c = "\"%char)) as [Hq|Hq].
      * assert (bool_decide (c = Bridge.dq) || bool_decide (c = "\"%char)
                = true) as ->.
        { destruct Hq as [-> | ->]; reflexivity. }
        cbn [app]. rewrite parse_string_body_escape by done.
        destruct (IH (j + 2)%nat r (c :: acc) Hs) as (kept & Hp & Hk & ->).
        exists (c :: kept). split; [by apply prefix_cons|].
        split; [intros Hl; cbn [length] in Hl; rewrite Hk; [done|lia]|].
        cbn [rev]. by rewrite <- app_assoc.
      * assert (c ≠ Bridge.dq ∧ c ≠ "\"%char) as [Hq1 Hq2] by tauto.
        rewrite !bool_decide_eq_false_2 by done. cbn [orb app].
        rewrite parse_string_body_step.
        2:{ unfold plain. unfold Bridge.dq in Hq1.
            rewrite !bool_decide_eq_false_2 by done.
            unfold asciiText in Hc. apply andb_prop in Hc as [Hc _].
            by rewrite Hc. }
        destruct (IH (j + 1)%nat r (c :: acc) Hs) as (kept & Hp & Hk & ->).
        exists (c :: kept). split; [by apply prefix_cons|].
        split; [intros Hl; cbn [length] in Hl; rewrite Hk; [done|lia]|].
        cbn [rev]. by rewrite <- app_assoc.
    + exists []. split; [apply prefix_nil|].
      split; [cbn [length]; lia|].
      cbn [app JSON.parse_string_body]. unfold Bridge.dq.
      rewrite bool_decide_eq_true_2 by done. by rewrite app_nil_r.
Qed.

(** A raw control character inside the copied part ends the literal with an
    error. *)
Lemma escape_sql_control pre : ∀ c rest j r acc,
  Forall (λ c, asciiText c = true) pre →
  controlCharacter c = true →
  (j + 2 * length pre < 510)%nat →
  JSON.parse_string_body
    (Bridge.escape_sql (pre ++ c :: rest) j ++ r) acc = None.
Proof.
  induction pre as [|a pre IH]; intros c rest j r acc Hp Hc Hj.
  - cbn [app Bridge.escape_sql length] in *.
    assert (c ≠ "000"%char ∧ c ≠ Bridge.dq ∧ c ≠ "\"%char) as (H0 & H1 & H2).
    { repeat split; by intros ->. }
    rewrite !bool_decide_eq_false_2 by done.
    destruct (Nat.ltb_spec j 510); [|lia].
    cbn [orb app JSON.parse_string_body]. unfold Bridge.dq in H1.
    rewrite !bool_decide_eq_false_2 by done.
    unfold controlCharacter in Hc. apply andb_prop in Hc as [_ Hc].
    by rewrite Hc.
  - apply Forall_cons in Hp as [Ha Hp]. cbn [app Bridge.escape_sql length] in *.
    rewrite (bool_decide_eq_false_2 _ (asciiText_not_nul a Ha)).
    destruct (Nat.ltb_spec j 510); [|lia].
    destruct (decide (a = Bridge.dq ∨ a = "\"%char)) as [Hq|Hq].
    + assert (bool_decide (a = Bridge.dq) || bool_decide (a = "\"%char)
              = true) as ->.
      { destruct Hq as [-> | ->]; reflexivity. }
      cbn [app]. rewrite parse_string_body_escape by done.
      apply IH; [done|done|lia].
    + assert (a ≠ Bridge.dq ∧ a ≠ "\"%char) as [Hq1 Hq2] by tauto.
      rewrite !bool_decide_eq_false_2 by done. cbn [orb app].
      rewrite parse_string_body_step.
      2:{ unfold plain. unfold Bridge.dq in Hq1.
          rewrite !bool_decide_eq_false_2 by done.
          unfold asciiText in Ha. apply andb_prop in Ha as [Ha _].
          by rewrite Ha. }
      apply IH; [done|done|lia].
Qed.

Lemma parse_start_event_text sql :
  String.list_ascii_of_string (Bridge.parse_start_event sql).2
  = "{"%char :: Bridge.dq :: "s"%char :: "q"%char :: "l"%char :: Bridge.dq
      :: ":"%char :: Bridge.dq
      :: Bridge.escape_sql sql 0 ++ [Bridge.dq; "}"%char].
Proof.
  unfold Bridge.parse_start_event, Bridge.emit_vis_event. cbn [snd].
  rewrite String.list_ascii_of_string_of_list_ascii.
  apply take_ge. cbn [length]. rewrite length_app. cbn [length].
  pose proof (escape_sql_length sql 0). lia.
Qed.

Lemma parse_value_sql F body :
  JSON.parse_value (S (S (S F)))
    ("{"%char :: Bridge.dq :: "s"%char :: "q"%char :: "l"%char :: Bridge.dq
       :: ":"%char :: Bridge.dq :: body)
  = match JSON.parse_string_body body [] with
    | Some (str, r) =>
        match JSON.skip_ws r with
        | ","%char :: r' =>
            JSON.parse_members (S F) r' [("sql"%string, JSON.Str str)]
        | "}"%char :: r' =>
            Some (JSON.Obj [("sql"%string, JSON.Str str)], r')
        | _ => None
        end
    | None => None
    end.
Proof.
  change (JSON.parse_value (S (S (S F))) _)
    with (match
             match JSON.parse_string_body body [] with
             | Some (str, r') => Some (JSON.Str str, r')
             | None => None
             end
           with
           | Some (v, r3) =>
               match JSON.skip_ws r3 with
               | ","%char :: r4 =>
                   JSON.parse_members (S F) r4 [("sql"%string, v)]
               | "}"%char :: r4 => Some (JSON.Obj [("sql"%string, v)], r4)
               | _ => None
               end
           | None => None
           end).
  by destruct (JSON.parse_string_body body []) as [[str r]|].
Qed.

Lemma parse_fuel (s : list ascii) :
  (8 ≤ length s)%nat → ∃ F, (2 * length s + 2)%nat = S (S (S F)).
Proof. intros H. exists (2 * length s - 1)%nat. lia. Qed.

(** X15: the SQL text of a statement survives [parse_start_event].  For a
    text of printable ASCII characters the payload always parses, to an
    object whose [sql] is a prefix of the text: the whole text when it has
    at most 255 characters, which the buffer of 512 holds even when every
    character is escaped. *)
Theorem parse_start_event_parses sql :
  Forall (λ c, asciiText c = true) sql →
  ∃ kept,
    kept `prefix_of` sql
    ∧ ((length sql ≤ 255)%nat → kept = sql)
    ∧ JSON.parse (Bridge.parse_start_event sql).2
      = Some (JSON.Obj [("sql"%string,
                         JSON.Str (String.string_of_list_ascii kept))]).
Proof.
  intros Hs.
  destruct (escape_sql_body sql 0 ["}"%char] [] Hs) as (kept & Hp & Hk & Hb).
  exists kept. split; [done|]. split; [intros Hl; apply Hk; lia|].
  unfold JSON.parse. rewrite parse_start_event_text.
  destruct (parse_fuel
              ("{"%char :: Bridge.dq :: "s"%char :: "q"%char :: "l"%char
                 :: Bridge.dq :: ":"%char :: Bridge.dq
                 :: Bridge.escape_sql sql 0 ++ [Bridge.dq; "}"%char]))
    as [F ->]; [cbn [length]; lia|].
  rewrite parse_value_sql, Hb. reflexivity.
Qed.

Lemma parse_start_event_parses_witness :
  ∃ kept,
    kept `prefix_of` String.list_ascii_of_string "SELECT 'a\b'"
    ∧ ((length (String.list_ascii_of_string "SELECT 'a\b'") ≤ 255)%nat →
       kept = String.list_ascii_of_string "SELECT 'a\b'")
    ∧ JSON.parse
        (Bridge.parse_start_event
           (String.list_ascii_of_string "SELECT 'a\b'")).2
      = Some (JSON.Obj [("sql"%string,
                         JSON.Str (String.string_of_list_ascii kept))]).
Proof.
  apply (parse_start_event_parses (String.list_ascii_of_string "SELECT 'a\b'")).
  apply Forall_forall. intros c Hc.
  repeat (apply elem_of_cons in Hc as [-> | Hc]); try reflexivity.
  by apply elem_of_nil in Hc.
Defined.

(** X16: a statement with a line break makes [handleEvent] throw.  When a
    control character stands in the SQL text, after printable ASCII
    characters that do not fill the buffer, [parse_start_event] copies it
    raw into the string literal, and [JSON.parse] rejects the payload. *)
Theorem parse_start_event_control_character pre c rest :
  Forall (λ c, asciiText c = true) pre →
  controlCharacter c = true →
  (length pre < 255)%nat →
  JSON.parse (Bridge.parse_start_event (pre ++ c :: rest)).2 = None.
Proof.
  intros Hp Hc Hl. unfold JSON.parse. rewrite parse_start_event_text.
  destruct (parse_fuel
              ("{"%char :: Bridge.dq :: "s"%char :: "q"%char :: "l"%char
                 :: Bridge.dq :: ":"%char :: Bridge.dq
                 :: Bridge.escape_sql (pre ++ c :: rest) 0
                      ++ [Bridge.dq; "}"%char]))
    as [F ->]; [cbn [length]; lia|].
  rewrite parse_value_sql, escape_sql_control; [done|done|done|lia].
Qed.

Lemma parse_start_event_control_character_witness :
  JSON.parse
    (Bridge.parse_start_event
       (String.list_ascii_of_string "SELECT 1" ++ "010"%char
          :: String.list_ascii_of_string "FROM t")).2 = None.
Proof.
  apply (parse_start_event_control_character
           (String.list_ascii_of_string "SELECT 1") "010"%char
           (String.list_ascii_of_string "FROM t")).
  - apply Forall_forall. intros c Hc.
    repeat (apply elem_of_cons in Hc as [-> | Hc]); try reflexivity.
    by apply elem_of_nil in Hc.
  - reflexivity.
  - cbn. lia.
Defined.

(** ** The payload of [executeSQL], read back *)

Lemma replaceQuotes_body sql : ∀ r acc,
  Forall (λ c, literalText c = true) sql →
  JSON.parse_string_body (replaceQuotes sql ++ Bridge.dq :: r) acc
  = Some (String.string_of_list_ascii (rev acc ++ sql), r).
Proof.
  unfold replaceQuotes.
  induction sql as [|c sql IH]; intros r acc Hs.
  - cbn [mbind list_bind app JSON.parse_string_body]. unfold Bridge.dq.
    rewrite bool_decide_eq_true_2 by done. by rewrite app_nil_r.
  - apply Forall_cons in Hs as [Hc Hs]. rewrite bind_cons.
    unfold literalText in Hc. apply andb_prop in Hc as [H1 H2].
    apply negb_true_iff in H1.
    destruct (decide (c = Bridge.dq)) as [->|Hq].
    + rewrite bool_decide_eq_true_2 by done. cbn [app].
      rewrite parse_string_body_escape by auto.
      rewrite IH by done. cbn [rev]. by rewrite <- app_assoc.
    + rewrite bool_decide_eq_false_2 by done. cbn [app].
      rewrite parse_string_body_step.
      2:{ unfold plain. unfold Bridge.dq in Hq.
          rewrite bool_decide_eq_false_2 by done. by rewrite H1, H2. }
      rewrite IH by done. cbn [rev]. by rewrite <- app_assoc.
Qed.

Lemma parse_string_body_bad_escape e s acc :
  JSON.simple_escape e = None → e ≠ "u"%char →
  JSON.parse_string_body ("\"%char :: e :: s) acc = None.
Proof.
  intros He Hu.
  destruct e as [[] [] [] [] [] [] [] []];
    first [reflexivity|exfalso; by vm_compute in He|by exfalso].
Qed.

Lemma replaceQuotes_bad_escape pre : ∀ e rest r acc,
  Forall (λ c, literalText c = true) pre →
  JSON.simple_escape e = None → e ≠ "u"%char →
  JSON.parse_string_body
    (replaceQuotes (pre ++ "\"%char :: e :: rest) ++ r) acc = None.
Proof.
  unfold replaceQuotes.
  induction pre as [|c pre IH]; intros e rest r acc Hp He Hu.
  - cbn [app]. rewrite !bind_cons.
    assert (e ≠ Bridge.dq) as Hq by (by intros ->).
    rewrite (bool_decide_eq_false_2 (e = Bridge.dq)) by done.
    rewrite (bool_decide_eq_false_2 ("\"%char = Bridge.dq)) by done.
    cbn [app]. by apply parse_string_body_bad_escape.
  - apply Forall_cons in Hp as [Hc Hp]. cbn [app]. rewrite bind_cons.
    unfold literalText in Hc. apply andb_prop in Hc as [H1 H2].
    apply negb_true_iff in H1.
    destruct (decide (c = Bridge.dq)) as [->|Hq].
    + rewrite bool_decide_eq_true_2 by done. cbn [app].
      rewrite parse_string_body_escape by auto. by apply IH.
    + rewrite bool_decide_eq_false_2 by done. cbn [app].
      rewrite parse_string_body_step.
      2:{ unfold plain. unfold Bridge.dq in Hq.
          rewrite bool_decide_eq_false_2 by done. by rewrite H1, H2. }
      by apply IH.
Qed.

(** X17: the SQL text of the input field survives [executeSQL].  When the
    text has no backslash and no control character, the payload that
    [executeSQL] builds parses to an object whose [sql] is the whole text,
    whatever its length and its double quotes. *)
Theorem executeSQL_payload_parses sql :
  Forall (λ c, literalText c = true) sql →
  JSON.parse (executeSQL_payload sql)
  = Some (JSON.Obj [("sql"%string,
                     JSON.Str (String.string_of_list_ascii sql))]).
Proof.
  intros Hs. unfold JSON.parse, executeSQL_payload.
  rewrite String.list_ascii_of_string_of_list_ascii.
  destruct (parse_fuel
              ("{"%char :: Bridge.dq :: "s"%char :: "q"%char :: "l"%char
                 :: Bridge.dq :: ":"%char :: Bridge.dq
                 :: replaceQuotes sql ++ [Bridge.dq; "}"%char]))
    as [F ->]; [cbn [length]; lia|].
  rewrite parse_value_sql, replaceQuotes_body by done. reflexivity.
Qed.

Lemma executeSQL_payload_parses_witness :
  JSON.parse
    (executeSQL_payload
       (String.list_ascii_of_string "SELECT 1" ++ [Bridge.dq; "a"%char]))
  = Some (JSON.Obj
            [("sql"%string,
              JSON.Str (String.string_of_list_ascii
                          (String.list_ascii_of_string "SELECT 1"
                             ++ [Bridge.dq; "a"%char])))]).
Proof.
  apply (executeSQL_payload_parses
           (String.list_ascii_of_string "SELECT 1" ++ [Bridge.dq; "a"%char])).
  apply Forall_forall. intros c Hc.
  repeat (apply elem_of_cons in Hc as [-> | Hc]); try reflexivity.
  by apply elem_of_nil in Hc.
Defined.

(** X18: a backslash in the input field is not escaped.  When the text has
    a backslash before a character that is no JSON escape, the payload of
    [executeSQL] is rejected by [JSON.parse], although the bridge's own
    [parse_start_event] would have escaped the backslash. *)
Theorem executeSQL_payload_backslash pre e rest :
  Forall (λ c, literalText c = true) pre →
  JSON.simple_escape e = None → e ≠ "u"%char →
  JSON.parse (executeSQL_payload (pre ++ "\"%char :: e :: rest)) = None.
Proof.
  intros Hp He Hu. unfold JSON.parse, executeSQL_payload.
  rewrite String.list_ascii_of_string_of_list_ascii.
  destruct (parse_fuel
              ("{"%char :: Bridge.dq :: "s"%char :: "q"%char :: "l"%char
                 :: Bridge.dq :: ":"%char :: Bridge.dq
                 :: replaceQuotes (pre ++ "\"%char :: e :: rest)
                      ++ [Bridge.dq; "}"%char]))
    as [F ->]; [cbn [length]; lia|].
  by rewrite parse_value_sql, replaceQuotes_bad_escape.
Qed.

Lemma executeSQL_payload_backslash_witness :
  JSON.parse
    (executeSQL_payload
       (String.list_ascii_of_string "LIKE 'a" ++ "\"%char :: "%"%char
          :: String.list_ascii_of_string "'")) = None.
Proof.
  apply (executeSQL_payload_backslash
           (String.list_ascii_of_string "LIKE 'a") "%"%char
           (String.list_ascii_of_string "'")).
  - apply Forall_forall. intros c Hc.
    repeat (apply elem_of_cons in Hc as [-> | Hc]); try reflexivity.
    by apply elem_of_nil in Hc.
  - reflexivity.
  - done.
Defined.
